(** * img2nef: the donor-container rewriter, the geometry planner and the
      source-to-sensor pixel pipeline of [img2nef.py], embedded in Rocq.

    Python integers are [Z] (or [nat] where the source only ever holds a
    file offset or a length), [bytes]/[bytearray] are lists of
    [Byte.byte], Numpy 2-D arrays are lists of rows, Python's binary64
    floats and Numpy's float32 samples are [spec_float] values computed
    by the operations of [SpecFloat]. Functions of the source that can
    raise return an [outcome]. *)

From Stdlib Require Import Strings.String Strings.Byte.
From Stdlib Require Import ZArith NArith QArith Qround Qpower List Lia Lqa Bool Arith.
From Stdlib Require Import Floats.SpecFloat.
From Equations Require Import Equations.
Import ListNotations.

Close Scope Q_scope.
Open Scope nat_scope.

(* ===================================================================== *)
(** ** Outcomes of Python code that may raise                             *)
(* ===================================================================== *)

Inductive PyExn : Type :=
| StructError        (* struct.pack argument out of range *)
| ValueError         (* numpy: operands could not be broadcast / empty reduction *)
| ZeroDivisionError.

Inductive outcome (A : Type) : Type :=
| Returned (a : A)
| Raised (e : PyExn).
Arguments Returned {A} a.
Arguments Raised {A} e.

Definition obind {A B} (m : outcome A) (k : A -> outcome B) : outcome B :=
  match m with
  | Returned a => k a
  | Raised e => Raised e
  end.

Notation "x <- m ;; k" := (obind m (fun x => k))
  (at level 61, m at next level, right associativity).
Notation "' pat <- m ;; k" := (obind m (fun r => match r with pat => k end))
  (at level 61, pat pattern, m at next level, right associativity).

(* ===================================================================== *)
(** ** [bytes], [bytearray] and [struct.pack]                             *)
(* ===================================================================== *)

Module PyBytes.

Definition bytes := list byte.

(** [bytearray(n)]: [n] zero bytes. *)
Definition bytearray (n : nat) : bytes := repeat x00 n.

(** [f.read(n)] on a file holding [file]: at most [n] bytes. *)
Definition read (file : bytes) (n : nat) : bytes := firstn n file.

(** [buf[lo:hi] = data] for non-negative [lo], [hi]. Python clamps both
    bounds to [len(buf)], treats [hi < lo] as the empty slice at [lo],
    and replaces the slice by [data] whatever its length: the buffer
    grows or shrinks when [len(data)] differs from the slice length. *)
Definition slice_assign (buf : bytes) (lo hi : nat) (data : bytes) : bytes :=
  firstn lo buf ++ data ++ skipn (Nat.max lo hi) buf.

(** [buf[lo:] = data]. *)
Definition slice_assign_from (buf : bytes) (lo : nat) (data : bytes) : bytes :=
  firstn lo buf ++ data.

(** [buf[lo:hi]]. *)
Definition slice (buf : bytes) (lo hi : nat) : bytes :=
  firstn (hi - lo) (skipn lo buf).

Definition byte_of_N (n : N) : byte :=
  match Byte.of_N (n mod 256) with
  | Some b => b
  | None => x00
  end.

(** The four little-endian bytes of [n]. *)
Definition le32 (n : N) : bytes :=
  [ byte_of_N n; byte_of_N (n / 256); byte_of_N (n / 65536); byte_of_N (n / 16777216) ]%N.

(** [struct.pack('<I', n)]: raises [struct.error] unless [0 <= n < 2^32]. *)
Definition struct_pack_I (n : nat) : outcome bytes :=
  if (N.of_nat n <? 4294967296)%N then Returned (le32 (N.of_nat n))
  else Raised StructError.

(** [struct.unpack('<I', b)[0]] for a 4-byte [b]; used to read fields back. *)
Definition unpack_le32 (b : bytes) : option N :=
  match b with
  | [b0; b1; b2; b3] =>
      Some (Byte.to_N b0 + 256 * Byte.to_N b1 + 65536 * Byte.to_N b2
            + 16777216 * Byte.to_N b3)%N
  | _ => None
  end.

End PyBytes.

(* ===================================================================== *)
(** ** Types of the module ([img2nef.py], "types")                        *)
(* ===================================================================== *)

Inductive Alignment : Type := CENTER | TOP | LEFT | BOTTOM | RIGHT.
Inductive ResizeGeom : Type := NONE | MINIMUM | FULL.
Inductive Endian : Type := LITTLE | BIG.

Record Coordinate : Type := mkCoordinate { pos_x : Z; pos_y : Z }.
Record Dimensions : Type := mkDimensions { columns : Z; rows : Z }.
(** Ending values are exclusive. *)
Record Rect : Type := mkRect { startx : Z; starty : Z; endx : Z; endy : Z }.
Record SrcGeomAdjustments : Type := mkSrcGeomAdjustments
  { resizeDimensions : option Dimensions;
    posInTgt : Coordinate;
    cropRect : option Rect }.
Record WhiteBalanceMultipliers : Type := mkWhiteBalanceMultipliers
  { red : spec_float; blue : spec_float }.
Record NikonCropArea : Type := mkNikonCropArea
  { crop_left : Z; crop_top : Z; crop_columns : Z; crop_rows : Z }.
(** The named tuple [EmbeddedJpg]; its fields live in a module of that
    name so that [length] stays the length of lists elsewhere. *)
Module EmbeddedJpg.
Record EmbeddedJpgExifInfo : Type := mk
  { exifName : string;
    start : nat;
    length : nat;
    offsetToLengthField : nat }.
End EmbeddedJpg.
Abbreviation EmbeddedJpgExifInfo := EmbeddedJpg.EmbeddedJpgExifInfo.

(** [Config.exif], as filled in by [extractExifFromNEF]. *)
Record Exif : Type := mkExif
  { endian : Endian;
    rawDimensions : Dimensions;
    bitsPerSample : Z;
    stripOffset : nat;
    stripByteCount : nat;
    fileOffsetToStripByteCount : nat;
    wbMultipliers : WhiteBalanceMultipliers;
    nefCompressionType : Z;
    blackLevel : Z;
    predValueNefCompression : Z;
    cropAreaDimensions : option NikonCropArea;
    embeddedJpgs : list EmbeddedJpgExifInfo }.

(** The options of [Config.args] that the modelled functions read. *)
Record Args : Type := mkArgs
  { re_geometry : ResizeGeom;
    re_maintainaspectratio : bool;
    re_horzalign : Alignment;
    re_vertalign : Alignment;
    src_srgbtolinear : bool;
    src_wbmultipliers : option WhiteBalanceMultipliers;
    src_grayscale : bool }.

Definition Dimensions_eqb (a b : Dimensions) : bool :=
  ((columns a =? columns b) && (rows a =? rows b))%Z.

(** What the source prints through [printE], [printW] and [printV]. *)
Inductive LogMsg : Type :=
| E_PixelsTooLarge
| W_PixelsBelowBlackLevel (level : Z)
| E_UnableToDecodeEmbeddedJpg (name : string)
| W_UnableToGenerateEmbeddedJpg (name : string) (maxSizeBytes lastSizeBytes : nat) (quality : Z)
| W_UnableToGeneratePlaceholder (name : string) (maxSizeBytes lastSizeBytes : nat)
| W_NoImageForEmbeddedJpgs
| V_Overwriting (name : string) (offset newSize oldSize : nat)
| E_UnableToReadTemplateNef
| E_UnableToWriteOutputNef
| E_GeneratingOutputNef
| E_EncodeFailed
| E_LoadingNumpy
| E_NumpyNotUint16
| E_NumpyBadChannelCount
| E_NumpyUnknownShape
| E_LoadingImage
| V_ResizedNumpyInput.

(* ===================================================================== *)
(** ** The preview regenerator                                            *)
(* ===================================================================== *)

Module Preview.
Import PyBytes.

Section WithCodecs.
(** The 8-bit RGB image all embedded JPGs are made from. *)
Variable Image : Type.
(** [cv2.imdecode] on bytes of the donor, read for its shape only. *)
Variable imdecode_dimensions : bytes -> option Dimensions.
(** [cv2.resize] to the given dimensions when they differ, then PIL's
    JPEG encoder with 4:2:2 subsampling at the given quality. *)
Variable encode_jpeg : Image -> Dimensions -> Z -> bytes.
(** The all-black canvas with one centred line of text, encoded by
    PIL at quality 50 with 4:2:2 subsampling. *)
Variable encode_placeholder : Dimensions -> string -> bytes.

(** The [while True] loop of [generateEmbeddedJpg], entered with the
    current [quality]. *)
Equations? qualityLoop (image : Image) (dims : Dimensions) (maxSizeBytes : nat)
           (name : string) (quality : Z) : option bytes * list LogMsg
  by wf (Z.to_nat quality) lt :=
  qualityLoop image dims maxSizeBytes name quality
    with (length (encode_jpeg image dims quality) <=? maxSizeBytes) := {
    | true := (Some (encode_jpeg image dims quality), []);
    | false with Z_le_gt_dec quality 20 := {
      | left _ :=
          (None, [W_UnableToGenerateEmbeddedJpg name maxSizeBytes
                    (length (encode_jpeg image dims quality)) quality]);
      | right _ := qualityLoop image dims maxSizeBytes name (quality - 10)%Z } }.
Proof. lia. Qed.

Definition generateEmbeddedJpg (image : Image) (embeddedJpgDimensions : Dimensions)
           (maxSizeBytes : nat) (embeddedJpgExifName : string)
  : option bytes * list LogMsg :=
  qualityLoop image embeddedJpgDimensions maxSizeBytes embeddedJpgExifName 100%Z.

Definition generatePlaceholderEmbeddedJpg (embeddedJpgDimensions : Dimensions)
           (maxSizeBytes : nat) (embeddedJpgExifName : string)
  : option bytes * list LogMsg :=
  let jpg := encode_placeholder embeddedJpgDimensions embeddedJpgExifName in
  let jpgSizeBytes := length jpg in
  if maxSizeBytes <? jpgSizeBytes then
    (None, [W_UnableToGeneratePlaceholder embeddedJpgExifName maxSizeBytes jpgSizeBytes])
  else (Some jpg, []).

Definition getEmbeddedJpgDimensions (newNefData : bytes) (exifFieldName : string)
           (origJpgStart origJpgSize : nat) : option Dimensions * list LogMsg :=
  let jpgData := slice newNefData origJpgStart (origJpgStart + origJpgSize) in
  match imdecode_dimensions jpgData with
  | None => (None, [E_UnableToDecodeEmbeddedJpg exifFieldName])
  | Some d => (Some d, [])
  end.

(** The generation step of one iteration: the source image first, the
    placeholder when that fails or no image is available. *)
Definition produceEmbeddedJpg (image8 : option Image) (dimensions : Dimensions)
           (origJpgSize : nat) (jpgExifName : string) : option bytes * list LogMsg :=
  let '(embeddedJpg, log1) :=
    match image8 with
    | Some img => generateEmbeddedJpg img dimensions origJpgSize jpgExifName
    | None => (None, [])
    end in
  match embeddedJpg with
  | Some jpg => (Some jpg, log1)
  | None =>
      let '(ph, log2) := generatePlaceholderEmbeddedJpg dimensions origJpgSize jpgExifName in
      (ph, log1 ++ log2)
  end.

(** The [if embeddedJpg is not None] block: overwrite the donor's JPEG,
    zero the unused tail, update the EXIF size field. *)
Definition overwriteEmbeddedJpg (newNefData : bytes) (e : EmbeddedJpgExifInfo)
           (embeddedJpg : bytes) : outcome (bytes * list LogMsg) :=
  let origJpgStart := EmbeddedJpg.start e in
  let origJpgSize := EmbeddedJpg.length e in
  let newJpgSizeBytes := length embeddedJpg in
  let newNefData :=
    slice_assign newNefData origJpgStart (origJpgStart + newJpgSizeBytes) embeddedJpg in
  let countUnusedBytes := origJpgSize - newJpgSizeBytes in
  let newNefData :=
    if 0 <? countUnusedBytes then
      slice_assign newNefData (origJpgStart + newJpgSizeBytes) (origJpgStart + origJpgSize)
                   (repeat x00 countUnusedBytes)
    else newNefData in
  packed <- struct_pack_I newJpgSizeBytes ;;
  Returned (slice_assign newNefData (EmbeddedJpg.offsetToLengthField e) (EmbeddedJpg.offsetToLengthField e + 4) packed,
            [V_Overwriting (EmbeddedJpg.exifName e) origJpgStart newJpgSizeBytes origJpgSize]).

(** The [for embeddedJpgExif in Config.exif.embeddedJpgs] loop. The
    result is the function's return value ([true] on error), the
    buffer as mutated so far and what was printed. *)
Fixpoint insertLoop (image8 : option Image) (jpgs : list EmbeddedJpgExifInfo)
         (newNefData : bytes) : outcome (bool * bytes * list LogMsg) :=
  match jpgs with
  | [] => Returned (false, newNefData, [])
  | embeddedJpgExif :: rest =>
      let '(dimensions, log0) :=
        getEmbeddedJpgDimensions newNefData (EmbeddedJpg.exifName embeddedJpgExif)
                                 (EmbeddedJpg.start embeddedJpgExif) (EmbeddedJpg.length embeddedJpgExif) in
      match dimensions with
      | None => Returned (true, newNefData, log0)
      | Some dimensions =>
          let '(embeddedJpg, log1) :=
            produceEmbeddedJpg image8 dimensions (EmbeddedJpg.length embeddedJpgExif)
                               (EmbeddedJpg.exifName embeddedJpgExif) in
          '(newNefData, log2) <-
            match embeddedJpg with
            | Some jpg => overwriteEmbeddedJpg newNefData embeddedJpgExif jpg
            | None => Returned (newNefData, [])
            end ;;
          '(err, newNefData, log3) <- insertLoop image8 rest newNefData ;;
          Returned (err, newNefData, log0 ++ log1 ++ log2 ++ log3)
      end
  end.

(** [image] is the processed source image, already replaced by the
    [--embeddedimg] image when that option is given; [to_image8] is
    the conversion to 8-bit RGB followed by the crop to Nikon's
    [CropArea]. *)
Variable to_image8 : Exif -> Image -> Image.

Definition generateAndInsertEmbeddedJpgs (exif : Exif) (image : option Image)
           (newNefData : bytes) : outcome (bool * bytes * list LogMsg) :=
  let '(image8, log0) :=
    match image with
    | Some img => (Some (to_image8 exif img), [])
    | None => (None, [W_NoImageForEmbeddedJpgs])
    end in
  '(err, newNefData, log1) <- insertLoop image8 (embeddedJpgs exif) newNefData ;;
  Returned (err, newNefData, log0 ++ log1).

End WithCodecs.
End Preview.

(* ===================================================================== *)
(** ** The assembler                                                      *)
(* ===================================================================== *)

Module Assembler.
Import PyBytes.

(** Lines of [writeOutputNEF] from the creation of [newNefData] to the
    update of the strip byte count; [templateNefData] is what
    [f.read(Config.exif.stripOffset)] returned. *)
Definition buildNefBuffer (exif : Exif) (templateNefData encodedImageData : bytes)
  : outcome bytes :=
  let encodedImageDataSize := length encodedImageData in
  let templateNefSizeExcludingRawData := stripOffset exif in
  let newNefData := bytearray (templateNefSizeExcludingRawData + encodedImageDataSize) in
  let newNefData := slice_assign newNefData 0 templateNefSizeExcludingRawData templateNefData in
  let newNefData := slice_assign_from newNefData templateNefSizeExcludingRawData encodedImageData in
  packed <- struct_pack_I encodedImageDataSize ;;
  Returned (slice_assign newNefData (fileOffsetToStripByteCount exif)
                         (fileOffsetToStripByteCount exif + 4) packed).

Section WithCodecs.
Variable Image : Type.
Variable imdecode_dimensions : bytes -> option Dimensions.
Variable encode_jpeg : Image -> Dimensions -> Z -> bytes.
Variable encode_placeholder : Dimensions -> string -> bytes.
Variable to_image8 : Exif -> Image -> Image.

(** The file system as [writeOutputNEF] meets it: the template NEF
    ([None] when it cannot be opened), the name chosen by
    [generateOutputFilename] ([None] when there is none) and whether
    creating and writing the output succeeds. *)
Record Files : Type := mkFiles
  { templatenef : option bytes;
    outputFilename : option string;
    writable : bool }.

(** Returns the error flag, the bytes written to the output file (if
    any) and what was printed. *)
Definition writeOutputNEF (exif : Exif) (fs : Files) (image : option Image)
           (encodedImageData : bytes)
  : outcome (bool * option bytes * list LogMsg) :=
  match templatenef fs with
  | None => Returned (true, None, [E_UnableToReadTemplateNef])
  | Some file =>
      let templateNefData := read file (stripOffset exif) in
      newNefData <- buildNefBuffer exif templateNefData encodedImageData ;;
      '(_, newNefData, log1) <-
        Preview.generateAndInsertEmbeddedJpgs Image imdecode_dimensions encode_jpeg
          encode_placeholder to_image8 exif image newNefData ;;
      match outputFilename fs with
      | None => Returned (true, None, log1)
      | Some _ =>
          if writable fs then Returned (false, Some newNefData, log1)
          else Returned (true, None, log1 ++ [E_UnableToWriteOutputNef])
      end
  end.
End WithCodecs.
End Assembler.

(* ===================================================================== *)
(** ** Python floats                                                      *)
(* ===================================================================== *)

(** The float operations [calcSrcGeomAdjustments] performs on its integer
    arguments. Two instances follow: CPython's binary64, computed by
    [SpecFloat], and the exact rationals. On halves of integers below
    [2^52], which is all that [calcAxisCrop] and [calcAxisPos] compute,
    binary64 arithmetic is exact; the quotients of the resize multipliers
    are rounded by binary64 and not by the rationals. Statements that
    quantify over all dimensions are made on the exact instance, and the
    scenarios of the specification are evaluated on both. *)
Module PyFloat.

Class Arith (F : Type) : Type :=
  { of_int : Z -> F;          (* int -> float conversion in mixed arithmetic *)
    fmul : F -> F -> F;
    fdiv : F -> F -> F;       (* the divisor is not zero *)
    fsub : F -> F -> F;
    fltb : F -> F -> bool;
    fis_zero : F -> bool;
    fround : F -> Z;          (* round(x): nearest integer, ties to even *)
    ftrunc : F -> Z }.        (* int(x): toward zero *)

(** [a / b]: raises [ZeroDivisionError] on a zero divisor. *)
Definition py_div {F} `{Arith F} (a b : F) : outcome F :=
  if fis_zero b then Raised ZeroDivisionError else Returned (fdiv a b).

(** *** Exact rationals *)

Definition Qround_half_even (q : Q) : Z :=
  let f := Qfloor q in
  match Qcompare (q - inject_Z f) (1 # 2) with
  | Lt => f
  | Gt => (f + 1)%Z
  | Eq => if Z.even f then f else (f + 1)%Z
  end.

Definition Qtrunc (q : Q) : Z :=
  if (Qnum q <? 0)%Z then Qceiling q else Qfloor q.

Definition Qltb (a b : Q) : bool :=
  match Qcompare a b with Lt => true | _ => false end.

#[export] Instance Exact : Arith Q :=
  { of_int := inject_Z;
    fmul := Qmult;
    fdiv := Qdiv;
    fsub := Qminus;
    fltb := Qltb;
    fis_zero := fun q => (Qnum q =? 0)%Z;
    fround := Qround_half_even;
    ftrunc := Qtrunc }.

(** *** IEEE 754 binary64 *)

Definition prec64 : Z := 53.
Definition emax64 : Z := 1024.

Definition b64_of_int (z : Z) : spec_float := binary_normalize prec64 emax64 z 0 false.

(** The integer and the remainder of a finite float: for [m * 2^e] with
    [e < 0], the quotient and remainder of [m] by [2^-e]. *)
Definition SF_round_half_even (f : spec_float) : Z :=
  match f with
  | S754_finite s m e =>
      let mag :=
        match e with
        | Z0 => Zpos m
        | Zpos p => Z.shiftl (Zpos m) (Zpos p)
        | Zneg p =>
            let d := Z.shiftl 1 (Zpos p) in
            let q := (Zpos m / d)%Z in
            match (2 * (Zpos m mod d) ?= d)%Z with
            | Lt => q
            | Gt => (q + 1)%Z
            | Eq => if Z.even q then q else (q + 1)%Z
            end
        end in
      if s then (- mag)%Z else mag
  | _ => 0%Z
  end.

Definition SF_trunc (f : spec_float) : Z :=
  match f with
  | S754_finite s m e =>
      let mag :=
        match e with
        | Z0 => Zpos m
        | Zpos p => Z.shiftl (Zpos m) (Zpos p)
        | Zneg p => Z.shiftr (Zpos m) (Zpos p)
        end in
      if s then (- mag)%Z else mag
  | _ => 0%Z
  end.

Definition SF_is_zero (f : spec_float) : bool :=
  match f with S754_zero _ => true | _ => false end.

#[export] Instance Binary64 : Arith spec_float :=
  { of_int := b64_of_int;
    fmul := SFmul prec64 emax64;
    fdiv := SFdiv prec64 emax64;
    fsub := SFsub prec64 emax64;
    fltb := SFltb;
    fis_zero := SF_is_zero;
    fround := SF_round_half_even;
    ftrunc := SF_trunc }.

End PyFloat.

(* ===================================================================== *)
(** ** The geometry planner                                               *)
(* ===================================================================== *)

Module Geometry.
Import PyFloat.
Local Open Scope Z_scope.

Section WithFloat.
Context {F : Type} `{Arith F}.

Definition calcAxisCrop (srcAmount tgtAmount : Z) (alignment : Alignment) : Z * Z :=
  if srcAmount <=? tgtAmount then
    (* not larger on this axis, no cropping on this axis is necessary *)
    (0, srcAmount)
  else
    let amountToCrop := srcAmount - tgtAmount in
    match alignment with
    | LEFT | TOP => (0, tgtAmount)
    | CENTER =>
        (fround (fdiv (of_int amountToCrop) (of_int 2)),
         fround (fsub (fsub (of_int srcAmount) (fdiv (of_int amountToCrop) (of_int 2)))
                      (of_int (amountToCrop mod 2))))
    | RIGHT | BOTTOM => (amountToCrop, tgtAmount)
    end.

Definition calcAxisPos (srcAmount tgtAmount : Z) (alignment : Alignment) : Z :=
  if srcAmount >=? tgtAmount then
    (* src is equal or larger than target, position at 0 in target *)
    0
  else
    match alignment with
    | LEFT | TOP => 0
    | CENTER => ftrunc (fsub (fdiv (of_int tgtAmount) (of_int 2))
                             (fdiv (of_int srcAmount) (of_int 2)))
    | RIGHT | BOTTOM => tgtAmount - srcAmount
    end.

(** The "calculate resize enlargement" part: [None] when no resize is
    planned. *)
Definition calcResizeDimensions (srcDimensions tgtDimensions : Dimensions)
           (resizeGeom : ResizeGeom) (fMaintainAspectRatio : bool)
  : outcome (option Dimensions) :=
  if (columns srcDimensions >=? columns tgtDimensions)
     && (rows srcDimensions >=? rows tgtDimensions) then
    Returned None
  else
    match resizeGeom with
    | MINIMUM =>
        if negb fMaintainAspectRatio then
          if columns srcDimensions <? columns tgtDimensions then
            Returned (Some (mkDimensions (columns tgtDimensions) (rows srcDimensions)))
          else
            Returned (Some (mkDimensions (columns srcDimensions) (rows tgtDimensions)))
        else
          columnMultiplier <-
            py_div (of_int (columns tgtDimensions)) (of_int (columns srcDimensions)) ;;
          rowMultiplier <-
            py_div (of_int (rows tgtDimensions)) (of_int (rows srcDimensions)) ;;
          if fltb columnMultiplier rowMultiplier then
            Returned (Some (mkDimensions
                              (columns tgtDimensions)
                              (fround (fmul (of_int (rows srcDimensions)) columnMultiplier))))
          else
            Returned (Some (mkDimensions
                              (fround (fmul (of_int (columns srcDimensions)) rowMultiplier))
                              (rows tgtDimensions)))
    | FULL =>
        columnMultiplier <-
          (if columns srcDimensions <? columns tgtDimensions then
             py_div (of_int (columns tgtDimensions)) (of_int (columns srcDimensions))
           else Returned (of_int 1)) ;;
        rowMultiplier <-
          (if fltb (fmul (of_int (rows srcDimensions)) columnMultiplier)
                   (of_int (rows tgtDimensions)) then
             py_div (of_int (rows tgtDimensions))
                    (fmul (of_int (rows srcDimensions)) columnMultiplier)
           else Returned (of_int 1)) ;;
        let totalMultiplier := fmul columnMultiplier rowMultiplier in
        Returned (Some (mkDimensions
                          (fround (fmul (of_int (columns srcDimensions)) totalMultiplier))
                          (fround (fmul (of_int (rows srcDimensions)) totalMultiplier))))
    | NONE =>
        (* resizing not enabled - src will be smaller than tgt on one axis *)
        Returned None
    end.

(** [None] is the source's "already at target dimensions, nothing to do". *)
Definition calcSrcGeomAdjustments (srcDimensions tgtDimensions : Dimensions)
           (resizeGeom : ResizeGeom) (fMaintainAspectRatio : bool)
           (horzAlignment vertAlignment : Alignment)
  : outcome (option SrcGeomAdjustments) :=
  if Dimensions_eqb srcDimensions tgtDimensions then Returned None
  else
    resizeDimensions <-
      calcResizeDimensions srcDimensions tgtDimensions resizeGeom fMaintainAspectRatio ;;
    let newDimensions :=
      match resizeDimensions with
      | Some d => d
      | None => srcDimensions
      end in
    let pos :=
      mkCoordinate (calcAxisPos (columns newDimensions) (columns tgtDimensions) horzAlignment)
                   (calcAxisPos (rows newDimensions) (rows tgtDimensions) vertAlignment) in
    let cropRect :=
      if (columns newDimensions <=? columns tgtDimensions)
         && (rows newDimensions <=? rows tgtDimensions) then
        None
      else
        let '(startx, endx) :=
          calcAxisCrop (columns newDimensions) (columns tgtDimensions) horzAlignment in
        let '(starty, endy) :=
          calcAxisCrop (rows newDimensions) (rows tgtDimensions) vertAlignment in
        Some (mkRect startx starty endx endy) in
    Returned (Some (mkSrcGeomAdjustments resizeDimensions pos cropRect)).

End WithFloat.
End Geometry.

(* ===================================================================== *)
(** ** Numpy arrays                                                       *)
(* ===================================================================== *)

Module Np.

(** A 2-D uint16 array is the list of its rows, a 3-D one the list of its
    rows of pixels; all rows of an array have the same length. *)
Definition array2 := list (list Z).
Definition array3 := list (list (list Z)).

Inductive ndarray : Type :=
| Nd2 (a : array2)
| Nd3 (a : array3)
| NdOther (ndim : nat).   (* fewer than two or more than three dimensions *)

Definition ndim (a : ndarray) : nat :=
  match a with
  | Nd2 _ => 2
  | Nd3 _ => 3
  | NdOther n => n
  end.

Definition shape0 {A} (a : list A) : Z := Z.of_nat (length a).
Definition shape1 {A} (a : list (list A)) : Z :=
  match a with
  | [] => 0%Z
  | r :: _ => Z.of_nat (length r)
  end.
Definition shape2 {A} (a : list (list (list A))) : Z :=
  match a with
  | (px :: _) :: _ => Z.of_nat (length px)
  | _ => 0%Z
  end.

Definition elements (a : ndarray) : list Z :=
  match a with
  | Nd2 a => concat a
  | Nd3 a => concat (concat a)
  | NdOther _ => []
  end.

(** [a.max()] and [a.min()]: [ValueError] on an array without elements. *)
Definition amax (a : ndarray) : outcome Z :=
  match elements a with
  | [] => Raised ValueError
  | x :: xs => Returned (fold_left Z.max xs x)
  end.
Definition amin (a : ndarray) : outcome Z :=
  match elements a with
  | [] => Raised ValueError
  | x :: xs => Returned (fold_left Z.min xs x)
  end.

(** [np.full((rows, columns), value, dtype=np.uint16)]. *)
Definition full (rows columns : Z) (value : Z) : array2 :=
  repeat (repeat value (Z.to_nat columns)) (Z.to_nat rows).

(** A slice [lo:hi:step] on an axis, once Python has resolved it against
    the length of the axis: the first index, how many indices, the step. *)
Record axis_slice : Type := mk_slice { first : nat; count : nat; stride : nat }.

Definition clamp_index (n : nat) (i : Z) : Z :=
  if (i <? 0)%Z then Z.max (i + Z.of_nat n) 0 else Z.min i (Z.of_nat n).

Definition py_slice (n : nat) (lo hi : Z) (step : nat) : axis_slice :=
  let start := clamp_index n lo in
  let stop := clamp_index n hi in
  {| first := Z.to_nat start;
     count := Z.to_nat ((stop - start + Z.of_nat step - 1) / Z.of_nat step);
     stride := step |}.

(** Where index [r] of the axis falls in the slice, if it does. *)
Definition pos_in (sl : axis_slice) (r : nat) : option nat :=
  if (first sl <=? r) && ((r - first sl) mod stride sl =? 0)
     && ((r - first sl) / stride sl <? count sl)
  then Some ((r - first sl) / stride sl)
  else None.

Fixpoint mapi_from {A B} (f : nat -> A -> B) (k : nat) (l : list A) : list B :=
  match l with
  | [] => []
  | x :: t => f k x :: mapi_from f (S k) t
  end.
Definition mapi {A B} (f : nat -> A -> B) (l : list A) : list B := mapi_from f 0 l.

(** [a[ys, xs]]; [d] stands for an element that is never read when the
    slices lie inside the array. *)
Definition getitem2 {A} (d : A) (a : list (list A)) (ys xs : axis_slice) : list (list A) :=
  map (fun i =>
         map (fun j => nth (first xs + j * stride xs)
                           (nth (first ys + i * stride ys) a []) d)
             (seq 0 (count xs)))
      (seq 0 (count ys)).

(** [a[ys, xs, ch]]. *)
Definition getitem3 (a : array3) (ys xs : axis_slice) (ch : nat) : array2 :=
  map (fun i =>
         map (fun j => nth ch (nth (first xs + j * stride xs)
                                   (nth (first ys + i * stride ys) a []) []) 0%Z)
             (seq 0 (count xs)))
      (seq 0 (count ys)).

(** Numpy's broadcasting of an axis of the value onto an axis of the
    destination: the lengths agree, or the value has length 1. *)
Definition broadcasts (have want : nat) : bool := (have =? want) || (have =? 1).
Definition bsel (have i : nat) : nat := if have =? 1 then 0 else i.

(** [dst[ys, xs] = v] for a value [v] of shape [vshape]: [ValueError]
    when [v] cannot be broadcast to the shape of the destination slice. *)
Definition setitem2 {A} (d : A) (dst : list (list A)) (ys xs : axis_slice)
           (vshape : nat * nat) (v : list (list A)) : outcome (list (list A)) :=
  let '(vh, vw) := vshape in
  if broadcasts vh (count ys) && broadcasts vw (count xs) then
    Returned
      (mapi (fun r row =>
               match pos_in ys r with
               | Some i =>
                   mapi (fun c x =>
                           match pos_in xs c with
                           | Some j => nth (bsel vw j) (nth (bsel vh i) v []) d
                           | None => x
                           end) row
               | None => row
               end) dst)
  else Raised ValueError.

End Np.

(* ===================================================================== *)
(** ** The bayer phase of the pixel pipeline                              *)
(* ===================================================================== *)

Module Pixel.
Import Np.

(** Numpy's float32 ([ImgFloatType]). *)
Definition prec32 : Z := 24.
Definition emax32 : Z := 128.
Definition f32 := spec_float.

Definition f32_of_int (z : Z) : f32 := binary_normalize prec32 emax32 z 0 false.
Definition f32_mul : f32 -> f32 -> f32 := SFmul prec32 emax32.
Definition f32_div : f32 -> f32 -> f32 := SFdiv prec32 emax32.
Definition f32_add : f32 -> f32 -> f32 := SFadd prec32 emax32.

(** A Python float (binary64) that meets a float32 array is first
    rounded to float32. *)
Definition f32_of_b64 (x : spec_float) : f32 :=
  match x with
  | S754_finite s m e => binary_round prec32 emax32 s m e
  | _ => x
  end.

(** A Python float literal [n / 10^k], correctly rounded to binary64. *)
Definition b64_decimal (n : Z) (pow10 : Z) : spec_float :=
  SFdiv PyFloat.prec64 PyFloat.emax64 (PyFloat.b64_of_int n) (PyFloat.b64_of_int pow10).

(** [x.astype(np.uint16)] on a float: the C conversion, which truncates
    toward zero. Outside [0, 65535] the conversion is undefined in C;
    the wrap-around of the usual x86-64 code is shown, and statements
    about this function keep to the defined range. *)
Definition astype_uint16 (x : f32) : Z := (PyFloat.SF_trunc x mod 65536)%Z.

Definition map2d {A B} (f : A -> B) (a : list (list A)) : list (list B) :=
  map (map f) a.

(** An image at the entry of the bayer phase: 16-bit, either one plane
    or BGR pixels. *)
Inductive Image16 : Type :=
| Gray (a : array2)
| Color (a : array3).

Section WithExternals.
(** [cv2.cvtColor(image, cv2.COLOR_3GRAY)], as the source calls it. *)
Variable cvtColor_gray : array3 -> array2.
(** Numpy's float32 power. *)
Variable powf : f32 -> f32 -> f32.

(** The slice [from::2] on an axis of length [n]. *)
Definition every_other (n : nat) (from : Z) : axis_slice := py_slice n from (Z.of_nat n) 2.

(** [colorToBayer]: RGGB sites taken from the BGR channels. *)
Definition colorToBayer (image : array3) : outcome array2 :=
  let nrows := length image in
  let ncols := Z.to_nat (shape1 image) in
  let bayer := full (Z.of_nat nrows) (Z.of_nat ncols) 0 in   (* np.empty *)
  let put (bayer : array2) (y0 x0 : Z) (ch : nat) : outcome array2 :=
    let ys := every_other nrows y0 in
    let xs := every_other ncols x0 in
    setitem2 0%Z bayer ys xs (count ys, count xs) (getitem3 image ys xs ch) in
  bayer <- put bayer 0%Z 0%Z 2 ;;   (* RGGB Red  = BGR Red *)
  bayer <- put bayer 0%Z 1%Z 1 ;;   (* RGGB G1   = BGR Green *)
  bayer <- put bayer 1%Z 0%Z 1 ;;   (* RGGB G2   = BGR Green *)
  put bayer 1%Z 1%Z 0.              (* RGGB Blue = BGR Blue *)

Definition src_ConvertToBayer (args : Args) (image : Image16) : outcome array2 :=
  match image with
  | Gray a => Returned a                          (* image is already grayscale *)
  | Color a =>
      if src_grayscale args then Returned (cvtColor_gray a)
      else colorToBayer a
  end.

(** uint16 to normalized float: [astype(float32)], then [/= 65535]. *)
Definition normalize16 (x : Z) : f32 := f32_div (f32_of_int x) (f32_of_int 65535).

Definition src_Convert16BitToNormalizedFloat (image : array2) : list (list f32) :=
  map2d normalize16 image.

Definition srgb_to_linear (v : f32) : f32 :=
  if SFleb v (f32_of_b64 (b64_decimal 4045 100000)) then
    f32_div v (f32_of_b64 (b64_decimal 1292 100))
  else
    powf (f32_div (f32_add v (f32_of_b64 (b64_decimal 55 1000)))
                  (f32_of_b64 (b64_decimal 1055 1000)))
         (f32_of_b64 (b64_decimal 24 10)).

Definition src_ConvertSRGBToLinear (args : Args) (image : list (list f32)) : list (list f32) :=
  if src_srgbtolinear args then map2d srgb_to_linear image else image.

(** [1 / m] in Python, ready to multiply a float32 array. *)
Definition inverse_multiplier (m : spec_float) : outcome f32 :=
  if PyFloat.SF_is_zero m then Raised ZeroDivisionError
  else Returned (f32_of_b64 (SFdiv PyFloat.prec64 PyFloat.emax64 (PyFloat.b64_of_int 1) m)).

Definition effective_wb (exif : Exif) (args : Args) : WhiteBalanceMultipliers :=
  match src_wbmultipliers args with
  | Some wb => wb                 (* the user's override *)
  | None => wbMultipliers exif
  end.

(** [img[y0::2, x0::2] = img[y0::2, x0::2] * k]. *)
Definition scale_sites (img : list (list f32)) (y0 x0 : Z) (k : f32)
  : outcome (list (list f32)) :=
  let ys := every_other (length img) y0 in
  let xs := every_other (Z.to_nat (shape1 img)) x0 in
  setitem2 S754_nan img ys xs (count ys, count xs)
           (map2d (fun v => f32_mul v k) (getitem2 S754_nan img ys xs)).

Definition src_ApplyInverseWbMultipliers (exif : Exif) (args : Args)
           (bayerImageFloat : list (list f32)) : outcome (list (list f32)) :=
  let wb := effective_wb exif args in
  kr <- inverse_multiplier (red wb) ;;
  img <- scale_sites bayerImageFloat 0%Z 0%Z kr ;;
  kb <- inverse_multiplier (blue wb) ;;
  scale_sites img 1%Z 1%Z kb.

(** One sample through [image *= (16383 - blackLevel)] and
    [astype(np.uint16)]. *)
Definition scale14 (blackLevel : Z) (v : f32) : Z :=
  astype_uint16 (f32_mul v (f32_of_int (16383 - blackLevel))).

Definition src_ScaleNormalizedFloatTo14Bit (exif : Exif) (image : list (list f32)) : array2 :=
  map2d (scale14 (blackLevel exif)) image.

(** uint16 addition wraps. *)
Definition add_bias (blackLevel : Z) (x : Z) : Z := ((x + blackLevel) mod 65536)%Z.

Definition src_AddBlackLevelBias (exif : Exif) (image : array2) : array2 :=
  map2d (add_bias (blackLevel exif)) image.

(** [performSrcImageOpList(bayerOps, image)]. *)
Definition bayerOps (exif : Exif) (args : Args) (image : Image16) : outcome array2 :=
  image <- src_ConvertToBayer args image ;;
  let image := src_Convert16BitToNormalizedFloat image in
  let image := src_ConvertSRGBToLinear args image in
  image <- src_ApplyInverseWbMultipliers exif args image ;;
  let image := src_ScaleNormalizedFloatTo14Bit exif image in
  Returned (src_AddBlackLevelBias exif image).

End WithExternals.
End Pixel.

(* ===================================================================== *)
(** ** Source files and the driver                                        *)
(* ===================================================================== *)

Module Driver.
Import Np PyBytes.
Local Open Scope Z_scope.

(** What [np.load] returned. *)
Record Npy : Type := mkNpy { is_uint16 : bool; array : ndarray }.

(** The input file: a [.npy] file or an image file, with what loading it
    gives ([None] when loading fails). *)
Inductive SourceFile : Type :=
| NpyFile (loaded : option Npy)
| ImageFile (loaded : option Pixel.Image16).

(** What a run does to the outside, in order. *)
Inductive Effect : Type :=
| Print (m : LogMsg)
| CallNefEncode (bayerImage : array2)
| WriteFile (content : bytes).

Section WithExternals.
Context {F : Type} `{PyFloat.Arith F}.
(** [performSrcImageOpList(sourceOps, image)]: the OpenCV stages. *)
Variable sourceOps : Pixel.Image16 -> outcome Pixel.Image16.
Variable cvtColor_gray : array3 -> array2.
Variable powf : Pixel.f32 -> Pixel.f32 -> Pixel.f32.
(** [NefEncode] of [nefencode.c], called with the raw dimensions, the
    starting predictive value and the samples; [None] on a negative
    result or when the library cannot be loaded. *)
Variable NefEncode : Z -> Z -> Z -> array2 -> option bytes.
Variable imdecode_dimensions : bytes -> option Dimensions.
Variable encode_jpeg : Pixel.Image16 -> Dimensions -> Z -> bytes.
Variable encode_placeholder : Dimensions -> string -> bytes.
Variable to_image8 : Exif -> Pixel.Image16 -> Pixel.Image16.

Definition processSourceImageData (exif : Exif) (args : Args) (image : Pixel.Image16)
  : outcome (option Pixel.Image16 * option array2 * list LogMsg) :=
  image <- sourceOps image ;;
  bayeredImage <- Pixel.bayerOps cvtColor_gray powf exif args image ;;
  Returned (Some image, Some bayeredImage, []).

(** [true] when the data cannot be encoded. *)
Definition validateBayeredNpyData (exif : Exif) (data : ndarray)
  : outcome (bool * list LogMsg) :=
  mx <- amax data ;;
  if mx >=? 2 ^ 14 then Returned (true, [E_PixelsTooLarge])
  else if blackLevel exif >? 0 then
    mn <- amin data ;;
    if mn <? blackLevel exif then
      Returned (false, [W_PixelsBelowBlackLevel (blackLevel exif)])
    else Returned (false, [])
  else Returned (false, []).

(** Placement and crop for a pre-bayered input of the given dimensions:
    no padding and no cropping unless the planner says otherwise. *)
Definition npyPlacement (exif : Exif) (args : Args) (inputDimensions : Dimensions)
  : outcome (Coordinate * Rect) :=
  srcGeomAdjustments <-
    Geometry.calcSrcGeomAdjustments inputDimensions (rawDimensions exif) NONE false
                                    (re_horzalign args) (re_vertalign args) ;;
  let noPadding := mkCoordinate 0 0 in
  let noCropping := mkRect 0 0 (columns inputDimensions) (rows inputDimensions) in
  match srcGeomAdjustments with
  | Some adj =>
      Returned (posInTgt adj,
                match cropRect adj with
                | Some r => r
                | None => noCropping
                end)
  | None => Returned (noPadding, noCropping)
  end.

(** The branch for a [(rows, columns)] array: an already bayered image. *)
Definition processBayeredPlane (exif : Exif) (args : Args) (input : array2)
  : outcome (option Pixel.Image16 * option array2 * list LogMsg) :=
  '(invalid, log) <- validateBayeredNpyData exif (Nd2 input) ;;
  if invalid : bool then Returned (None, None, log)
  else
    let inputDimensions := mkDimensions (shape1 input) (shape0 input) in
    let rawDims := rawDimensions exif in
    '(pos, crop) <- npyPlacement exif args inputDimensions ;;
    let bayeredImage := full (rows rawDims) (columns rawDims) (blackLevel exif) in
    let nrows := Z.to_nat (rows rawDims) in
    let ncols := Z.to_nat (columns rawDims) in
    let src_ys := py_slice (length input) (starty crop) (endy crop) 1 in
    let src_xs := py_slice (Z.to_nat (shape1 input)) (startx crop) (endx crop) 1 in
    bayeredImage <-
      setitem2 0 bayeredImage
               (py_slice nrows (pos_y pos) (pos_y pos + endy crop) 1)
               (py_slice ncols (pos_x pos) (pos_x pos + endx crop) 1)
               (count src_ys, count src_xs)
               (getitem2 0 input src_ys src_xs) ;;
    let resized :=
      if Dimensions_eqb inputDimensions rawDims then [] else [V_ResizedNumpyInput] in
    Returned (None, Some bayeredImage, log ++ resized).

(** The branch for a [(rows, columns, 4)] array: one half-size plane per
    RGGB channel. *)
Definition processBayerChannels (exif : Exif) (args : Args) (input : array3)
  : outcome (option Pixel.Image16 * option array2 * list LogMsg) :=
  '(invalid, log) <- validateBayeredNpyData exif (Nd3 input) ;;
  if invalid : bool then Returned (None, None, log)
  else
    let colorChannelDimensionsAsBayer :=
      mkDimensions (shape1 input * 2) (shape0 input * 2) in
    let rawDims := rawDimensions exif in
    '(pos, crop) <- npyPlacement exif args colorChannelDimensionsAsBayer ;;
    let bayeredImage := full (rows rawDims) (columns rawDims) (blackLevel exif) in
    let nrows := Z.to_nat (rows rawDims) in
    let ncols := Z.to_nat (columns rawDims) in
    let src_ys := py_slice (length input) (starty crop / 2) (endy crop / 2) 1 in
    let src_xs := py_slice (Z.to_nat (shape1 input)) (startx crop / 2) (endx crop / 2) 1 in
    let put (bayeredImage : array2) (dy dx : Z) (ch : nat) : outcome array2 :=
      setitem2 0 bayeredImage
               (py_slice nrows (dy + pos_y pos) (pos_y pos + endy crop) 2)
               (py_slice ncols (dx + pos_x pos) (pos_x pos + endx crop) 2)
               (count src_ys, count src_xs)
               (getitem3 input src_ys src_xs ch) in
    bayeredImage <- put bayeredImage 0 0 0%nat ;;
    bayeredImage <- put bayeredImage 0 1 1%nat ;;
    bayeredImage <- put bayeredImage 1 0 2%nat ;;
    bayeredImage <- put bayeredImage 1 1 3%nat ;;
    let resized :=
      if (negb (shape0 input * 2 * 2 =? rows rawDims))
         || (negb (shape1 input * 2 * 2 =? columns rawDims))
      then [V_ResizedNumpyInput] else [] in
    Returned (None, Some bayeredImage, log ++ resized).

Definition processSourceNumpy (exif : Exif) (args : Args) (loaded : option Npy)
  : outcome (option Pixel.Image16 * option array2 * list LogMsg) :=
  match loaded with
  | None => Returned (None, None, [E_LoadingNumpy])
  | Some input =>
      if negb (is_uint16 input) then Returned (None, None, [E_NumpyNotUint16])
      else
        match array input with
        | Nd2 a => processBayeredPlane exif args a
        | Nd3 a =>
            let numColorChannels := shape2 a in
            if numColorChannels =? 3 then
              processSourceImageData exif args (Pixel.Color a)
            else if numColorChannels =? 4 then
              processBayerChannels exif args a
            else Returned (None, None, [E_NumpyBadChannelCount])
        | NdOther _ => Returned (None, None, [E_NumpyUnknownShape])
        end
  end.

Definition processSourceImageFile (exif : Exif) (args : Args)
           (loaded : option Pixel.Image16)
  : outcome (option Pixel.Image16 * option array2 * list LogMsg) :=
  match loaded with
  | None => Returned (None, None, [E_LoadingImage])
  | Some image => processSourceImageData exif args image
  end.

Definition processSourceFile (exif : Exif) (args : Args) (file : SourceFile)
  : outcome (option Pixel.Image16 * option array2 * list LogMsg) :=
  match file with
  | NpyFile loaded => processSourceNumpy exif args loaded
  | ImageFile loaded => processSourceImageFile exif args loaded
  end.

Definition src_EncodeToNikonLossless (exif : Exif) (bayerImage : array2) : option bytes :=
  NefEncode (columns (rawDimensions exif)) (rows (rawDimensions exif))
            (predValueNefCompression exif) bayerImage.

(** [run], from the processing of the source file on: what the run
    printed, encoded and wrote, in order, and how it ended, with the
    error flag or with an exception. (What was printed inside a call
    that raised is not kept.) *)
Definition run (exif : Exif) (args : Args) (fs : Assembler.Files) (file : SourceFile)
  : list Effect * outcome bool :=
  match processSourceFile exif args file with
  | Raised e => ([], Raised e)
  | Returned (_, None, log) => (map Print log, Returned true)
  | Returned (image, Some bayeredImage, log) =>
      let called := map Print log ++ [CallNefEncode bayeredImage] in
      match src_EncodeToNikonLossless exif bayeredImage with
      | None => (called ++ [Print E_EncodeFailed], Returned true)
      | Some encodedImageData =>
          (* int(columns * rows * 14 / 8); the report of the compressed
             size divides by it *)
          let bytesUncompressed :=
            Z.quot (columns (rawDimensions exif) * rows (rawDimensions exif) * 14) 8 in
          if bytesUncompressed =? 0 then (called, Raised ZeroDivisionError)
          else
            match Assembler.writeOutputNEF Pixel.Image16 imdecode_dimensions encode_jpeg
                    encode_placeholder to_image8 exif fs image encodedImageData with
            | Raised e => (called, Raised e)
            | Returned (fWriteFailed, written, log2) =>
                let wrote := match written with Some b => [WriteFile b] | None => [] end in
                if fWriteFailed : bool then
                  (called ++ map Print log2 ++ wrote ++ [Print E_GeneratingOutputNef],
                   Returned true)
                else (called ++ map Print log2 ++ wrote, Returned false)
            end
      end
  end.

End WithExternals.
End Driver.

(* ===================================================================== *)
(** ** Conversions between the sample types                               *)
(* ===================================================================== *)

Module Convert.
Import Pixel.
Local Open Scope Z_scope.

(** The dtypes that the images of the source take. *)
Inductive DType : Type := uint8 | uint16 | float32.

Definition DType_eqb (a b : DType) : bool :=
  match a, b with
  | uint8, uint8 | uint16, uint16 | float32, float32 => true
  | _, _ => false
  end.

Definition itemsize (t : DType) : Z :=
  match t with
  | uint8 => 1
  | uint16 => 2
  | float32 => 4
  end.

(** An image array: its samples in the order of the array, integers for
    the integer dtypes. The conversions work on each sample alone and
    keep the shape, which is left out. *)
Inductive NpImage : Type :=
| U8 (samples : list Z)
| U16 (samples : list Z)
| F32 (samples : list f32).

Definition dtype (image : NpImage) : DType :=
  match image with
  | U8 _ => uint8
  | U16 _ => uint16
  | F32 _ => float32
  end.

(** [(1 << itemsize*8) - 1]. *)
Definition full_scale (t : DType) : Z := Z.shiftl 1 (itemsize t * 8) - 1.

(** [x.astype(t)] for an integer dtype [t]: the C conversion of a float
    truncates toward zero, that of an integer keeps the low bits. *)
Definition float_astype (t : DType) (x : f32) : Z :=
  PyFloat.SF_trunc x mod 2 ^ (itemsize t * 8).
Definition int_astype (t : DType) (x : Z) : Z := x mod 2 ^ (itemsize t * 8).

(** Integer to normalized float: [astype(typeWanted)], then
    [/= (1 << origType.itemsize*8) - 1]. *)
Definition int_to_float (origType : DType) (x : Z) : f32 :=
  f32_div (f32_of_int x) (f32_of_int (full_scale origType)).

(** Normalized float to integer: [*= (1 << typeWanted.itemsize*8) - 1],
    then [astype(typeWanted)]. *)
Definition float_to_int (typeWanted : DType) (v : f32) : Z :=
  float_astype typeWanted (f32_mul v (f32_of_int (full_scale typeWanted))).

(** One integer type to another: [astype] then [<<=] when the bit depth
    grows, [>>=] then [astype] when it shrinks. *)
Definition int_to_int (origType typeWanted : DType) (x : Z) : Z :=
  if itemsize origType <=? itemsize typeWanted then
    int_astype typeWanted
      (Z.shiftl (int_astype typeWanted x) ((itemsize typeWanted - itemsize origType) * 8))
  else
    int_astype typeWanted (Z.shiftr x ((itemsize origType - itemsize typeWanted) * 8)).

Definition of_ints (t : DType) (samples : list Z) : NpImage :=
  match t with
  | uint8 => U8 samples
  | uint16 => U16 samples
  | float32 => F32 (map f32_of_int samples)   (* not reached by the conversions *)
  end.

(** Returns the original dtype and the converted image, the image itself
    when it has the wanted dtype already. *)
Definition convertImageNumpyTypeIfNecessary (image : NpImage) (typeWanted : DType)
  : DType * NpImage :=
  let origType := dtype image in
  if DType_eqb origType typeWanted then (origType, image)
  else
    match image, typeWanted with
    | (U8 a | U16 a), float32 => (origType, F32 (map (int_to_float origType) a))
    | F32 a, (uint8 | uint16) => (origType, of_ints typeWanted (map (float_to_int typeWanted) a))
    | (U8 a | U16 a), (uint8 | uint16) =>
        (origType, of_ints typeWanted (map (int_to_int origType typeWanted) a))
    | F32 a, float32 => (origType, image)
    end.

(** The three stages return whether the dtype changed, with the image.
    [src_Convert_8BitTo16Bit] asserts that its input is 8-bit or 16-bit:
    [None] stands for the [AssertionError]. *)
Definition src_Convert_8BitTo16Bit (image : NpImage) : option (bool * NpImage) :=
  match dtype image with
  | float32 => None
  | _ =>
      let '(origType, image) := convertImageNumpyTypeIfNecessary image uint16 in
      Some (negb (DType_eqb origType (dtype image)), image)
  end.

Definition src_Convert16BitToNormalizedFloat (image : NpImage) : bool * NpImage :=
  let '(origType, image) := convertImageNumpyTypeIfNecessary image float32 in
  (negb (DType_eqb origType (dtype image)), image).

Definition src_ConvertNormalizedFloatTo16Bit (image : NpImage) : bool * NpImage :=
  let '(origType, image) := convertImageNumpyTypeIfNecessary image uint16 in
  (negb (DType_eqb origType (dtype image)), image).

End Convert.

(* ===================================================================== *)
(** ** The resize to the raw dimensions                                   *)
(* ===================================================================== *)

Module Resize.
Import Np Pixel.
Local Open Scope Z_scope.

(** [image.shape[0]] and [image.shape[1]]. *)
Definition image_rows (image : Image16) : Z :=
  match image with
  | Gray a => shape0 a
  | Color a => shape0 a
  end.
Definition image_columns (image : Image16) : Z :=
  match image with
  | Gray a => shape1 a
  | Color a => shape1 a
  end.

(** [image[starty:endy, startx:endx]]. *)
Definition crop (image : Image16) (r : Rect) : Image16 :=
  match image with
  | Gray a =>
      Gray (getitem2 0 a (py_slice (length a) (starty r) (endy r) 1)
                     (py_slice (Z.to_nat (shape1 a)) (startx r) (endx r) 1))
  | Color a =>
      Color (getitem2 [] a (py_slice (length a) (starty r) (endy r) 1)
                      (py_slice (Z.to_nat (shape1 a)) (startx r) (endx r) 1))
  end.

(** The border colour [0xRRGGBB] as a BGR value scaled from 8 to 16
    bits. *)
Definition border_value (re_borderfillcolor : Z) : Z * Z * Z :=
  (Z.land re_borderfillcolor 255 * 256,
   Z.land (Z.shiftr re_borderfillcolor 8) 255 * 256,
   Z.land (Z.shiftr re_borderfillcolor 16) 255 * 256).

(** What [resizeImgToRawDimensions] ends with: the flag and the image,
    or the failure of its closing assertion on the final dimensions. *)
Inductive Resized : Type :=
| Fitted (changed : bool) (image : Image16)
| InternalError (finalSrcDimensions : Dimensions).

Section WithCv2.
Context {F : Type} `{PyFloat.Arith F}.
(** [cv2.resize(image, (columns, rows), interpolation=...)]. *)
Variable cv2_resize : Image16 -> Z -> Z -> Image16.
(** [cv2.copyMakeBorder(image, top, bottom, left, right,
    cv2.BORDER_CONSTANT, value=...)]. *)
Variable copyMakeBorder : Image16 -> Z -> Z -> Z -> Z -> Z * Z * Z -> Image16.

Definition resizeImgToRawDimensions (exif : Exif) (args : Args) (re_borderfillcolor : Z)
           (image : Image16) : outcome Resized :=
  let origSrcDimensions := mkDimensions (image_columns image) (image_rows image) in
  let outputDimensions := rawDimensions exif in
  srcGeomAdjustments <-
    Geometry.calcSrcGeomAdjustments origSrcDimensions outputDimensions
      (re_geometry args) (re_maintainaspectratio args)
      (re_horzalign args) (re_vertalign args) ;;
  match srcGeomAdjustments with
  | None => Returned (Fitted false image)     (* nothing to do *)
  | Some adj =>
      let image :=
        match resizeDimensions adj with
        | Some d => cv2_resize image (columns d) (rows d)
        | None => image
        end in
      let image :=
        match cropRect adj with
        | Some r => crop image r
        | None => image
        end in
      let newSrcDimensions := mkDimensions (image_columns image) (image_rows image) in
      let image :=
        if (pos_x (posInTgt adj) >? 0) || (pos_y (posInTgt adj) >? 0)
           || negb (Dimensions_eqb newSrcDimensions outputDimensions)
        then
          let countBorderRowsAbove := pos_y (posInTgt adj) in
          let countBorderRowsBelow :=
            rows outputDimensions - (rows newSrcDimensions + pos_y (posInTgt adj)) in
          let countBorderRowsLeft := pos_x (posInTgt adj) in
          let countBorderRowsRight :=
            columns outputDimensions - (columns newSrcDimensions + pos_x (posInTgt adj)) in
          copyMakeBorder image countBorderRowsAbove countBorderRowsBelow
                         countBorderRowsLeft countBorderRowsRight
                         (border_value re_borderfillcolor)
        else image in
      let finalSrcDimensions := mkDimensions (image_columns image) (image_rows image) in
      if Dimensions_eqb finalSrcDimensions outputDimensions
      then Returned (Fitted true image)
      else Returned (InternalError finalSrcDimensions)
  end.

Definition src_Resize : Exif -> Args -> Z -> Image16 -> outcome Resized :=
  resizeImgToRawDimensions.

End WithCv2.
End Resize.

(* ===================================================================== *)
(** ** The name of the output file                                        *)
(* ===================================================================== *)

From Stdlib Require DecimalString.

Module Filenames.
Import Stdlib.Strings.Ascii.
Local Open Scope string_scope.

Inductive IfFileExists : Type := ADDSUFFIX | OVERWRITE | EXIT.
Inductive OutputFilenameMethod : Type :=
| TEMPLATENEF_AND_INPUTFILE | TEMPLATENEF | INPUTFILE | NONE.

(** The arguments that the naming of the output reads. *)
Record Args : Type := mkArgs
  { outputfilename : option string;
    templatenef : string;
    inputfilename : string;
    outputfilenamemethod : OutputFilenameMethod;
    outputdir : option string;
    ifexists : IfFileExists }.

(** What [generateOutputFilename] prints through [printE]. *)
Inductive Msg : Type :=
| E_NoOutputFilename
| E_OutputFileExists (outputFilename : string).

(** How a call ends: with a value, with [IndexError], or not within the
    number of loop iterations it was given. *)
Inductive ended (A : Type) : Type :=
| Value (a : A)
| IndexError
| Unfinished.
Arguments Value {A} a.
Arguments IndexError {A}.
Arguments Unfinished {A}.

(** [str(n)] of an [int] that is not negative. *)
Definition str (n : nat) : string :=
  DecimalString.NilZero.string_of_uint (Nat.to_uint n).

Section WithOsPath.
(** [os.path.split], [os.path.splitext], [os.path.join] and
    [os.path.exists]. *)
Variable os_path_split : string -> string * string.
Variable os_path_splitext : string -> string * string.
Variable os_path_join : string -> string -> string.
Variable os_path_exists : string -> bool.

Definition splitPathIntoParts (fullPath : string) : string * string * string :=
  let '(dir, filename) := os_path_split fullPath in
  let '(root, ext) := os_path_splitext filename in
  (dir, root, ext).

(** [newExt[0]] raises [IndexError] on the empty string. *)
Definition generateFilenameWithDifferentExtensionAndDir
           (fullPath : string) (newDir newExt : option string) : ended string :=
  let '(dir, root, ext) := splitPathIntoParts fullPath in
  let dir := match newDir with Some newDir => newDir | None => dir end in
  match newExt with
  | Some newExt =>
      match newExt with
      | EmptyString => IndexError
      | String c _ =>
          let newExt := if negb (Ascii.eqb c "."%char) then "." ++ newExt else newExt in
          Value (os_path_join dir (root ++ newExt))
      end
  | None => Value (os_path_join dir (root ++ ext))
  end.

(** The [while True] loop of
    [generateUniqueFilenameFromExistingIfNecessary]; [fuel] bounds the
    number of candidates that are tried. *)
Fixpoint uniqueLoop (fuel : nat) (dir root ext : string) (seqNum : nat) (seqNumStr : string)
  : ended string :=
  match fuel with
  | O => Unfinished
  | S fuel =>
      let filenameCandidate := os_path_join dir ((root ++ seqNumStr) ++ ext) in
      if negb (os_path_exists filenameCandidate) then Value filenameCandidate
      else
        let seqNum := (seqNum + 1)%nat in
        uniqueLoop fuel dir root ext seqNum ("-" ++ str seqNum)
  end.

Definition generateUniqueFilenameFromExistingIfNecessary (fuel : nat) (fullPath : string)
  : ended string :=
  let '(dir, root, ext) := splitPathIntoParts fullPath in
  (* first candidate is without a suffix *)
  uniqueLoop fuel dir root ext 0 "".

(** The name (or [None]) and what was printed. *)
Definition generateOutputFilename (args : Args) (fuel : nat)
  : ended (option string * list Msg) :=
  let named : option (ended string) :=
    match outputfilename args with
    | None =>
        let '(templateNefDir, templateNefRootName, _) :=
          splitPathIntoParts (templatenef args) in
        let '(inputDir, inputRootName, _) := splitPathIntoParts (inputfilename args) in
        let generated :=
          match outputfilenamemethod args with
          | NONE => None
          | TEMPLATENEF_AND_INPUTFILE =>
              Some (os_path_join inputDir templateNefRootName ++ "_" ++ inputRootName)
          | TEMPLATENEF => Some (os_path_join inputDir templateNefRootName)
          | INPUTFILE => Some (os_path_join inputDir inputRootName)
          end in
        match generated with
        | None => None
        | Some outputFilename =>
            Some (generateFilenameWithDifferentExtensionAndDir
                    outputFilename (outputdir args) (Some "NEF"))
        end
    | Some outputFilename =>
        Some (generateFilenameWithDifferentExtensionAndDir
                outputFilename (outputdir args) None)
    end in
  match named with
  | None => Value (None, [E_NoOutputFilename])
  | Some IndexError => IndexError
  | Some Unfinished => Unfinished
  | Some (Value outputFilename) =>
      match ifexists args with
      | ADDSUFFIX =>
          match generateUniqueFilenameFromExistingIfNecessary fuel outputFilename with
          | Value outputFilename => Value (Some outputFilename, [])
          | IndexError => IndexError
          | Unfinished => Unfinished
          end
      | OVERWRITE => Value (Some outputFilename, [])
      | EXIT =>
          if os_path_exists outputFilename
          then Value (None, [E_OutputFileExists outputFilename])
          else Value (Some outputFilename, [])
      end
  end.

End WithOsPath.
End Filenames.

(* ===================================================================== *)
(** ** The font size of the placeholder preview                           *)
(* ===================================================================== *)

Module Placeholder.
Import PyFloat.
Local Open Scope Z_scope.

(** The literal [.95] as a binary64 value, [0x3FEE666666666666]. *)
Definition pt95 : spec_float := S754_finite false 8556839292003942 (-53).

(** What the search for the font size can raise. *)
Inductive Raise : Type :=
| Exn (e : PyExn)
| OverflowError.

(** How it ends: with a value, with an exception, or not within the
    number of loop iterations it was given. *)
Inductive ended (A : Type) : Type :=
| Value (a : A)
| Raises (r : Raise)
| Unfinished.
Arguments Value {A} a.
Arguments Raises {A} r.
Arguments Unfinished {A}.

(** [math.floor(x)] of a float: the integer below it; [OverflowError] on
    an infinity and [ValueError] on a NaN. *)
Definition math_floor (x : spec_float) : ended Z :=
  match x with
  | S754_zero _ => Value 0
  | S754_finite s m e =>
      let z := if s then Zneg m else Zpos m in
      Value (match e with
             | Z0 => z
             | Zpos p => Z.shiftl z (Zpos p)
             | Zneg p => Z.shiftr z (Zpos p)
             end)
  | S754_infinity _ => Raises OverflowError
  | S754_nan => Raises (Exn ValueError)
  end.

Section WithFont.
(** [int(right - left)] of [draw.textbbox((centerX, centerY), text,
    font=ImageFont.load_default(size=fontSize), anchor=...)]: the width
    of the line of text at a font size. *)
Variable textWidth : Z -> Z.

(** The [while fontSize >= 8] loop of [generatePlaceholderEmbeddedJpg].
    [defaultFont] is the size of the font that was loaded last ([None]
    before the first); the text is drawn with it after the loop. Returns
    [fontSize] and [defaultFont] as the loop leaves them. *)
Fixpoint fontSizeLoop (fuel : nat) (columns fontSize : Z) (defaultFont : option Z)
  : ended (Z * option Z) :=
  match fuel with
  | O => Unfinished
  | S fuel =>
      if fontSize >=? 8 then
        let defaultFont := Some fontSize in
        let textWidthPixels := textWidth fontSize in
        if textWidthPixels <? columns then
          (* found a good font size *)
          Value (fontSize, defaultFont)
        else if columns =? 0 then Raises (Exn ZeroDivisionError)
        else
          let multiple := textWidthPixels / columns in
          if multiple >=? 2 then
            fontSizeLoop fuel columns (fontSize / multiple) defaultFont
          else
            match math_floor (fmul (of_int fontSize) pt95) with
            | Value fontSize => fontSizeLoop fuel columns fontSize defaultFont
            | Raises r => Raises r
            | Unfinished => Unfinished
            end
      else Value (fontSize, defaultFont)
  end.

(** The search as [generatePlaceholderEmbeddedJpg] starts it. *)
Definition fontSizeSearch (fuel : nat) (embeddedJpgDimensions : Dimensions)
  : ended (Z * option Z) :=
  fontSizeLoop fuel (columns embeddedJpgDimensions) 512 None.

End WithFont.
End Placeholder.

(* ********************************************************************* *)
(** * Properties                                                          *)
(* ********************************************************************* *)

Module PyBytesFacts.
Import PyBytes.

Lemma to_N_byte_of_N n : Byte.to_N (byte_of_N n) = (n mod 256)%N.
Proof.
  unfold byte_of_N.
  destruct (Byte.of_N (n mod 256)) as [b|] eqn:E.
  - now apply Byte.to_of_N.
  - apply Byte.of_N_None_iff in E.
    pose proof (N.mod_upper_bound n 256 ltac:(discriminate)). lia.
Qed.

Lemma unpack_le32_le32 n :
  (n < 4294967296)%N -> unpack_le32 (le32 n) = Some n.
Proof.
  intros Hn. unfold unpack_le32, le32. f_equal.
  rewrite !to_N_byte_of_N.
  pose proof (N.div_mod n 256 ltac:(discriminate)).
  pose proof (N.div_mod (n / 256) 256 ltac:(discriminate)).
  pose proof (N.div_mod (n / 65536) 256 ltac:(discriminate)).
  assert (n / 65536 = n / 256 / 256)%N by (rewrite N.Div0.div_div; reflexivity).
  assert (n / 16777216 = n / 65536 / 256)%N by (rewrite N.Div0.div_div; reflexivity).
  assert (n / 16777216 < 256)%N by (apply N.Div0.div_lt_upper_bound; lia).
  rewrite (N.mod_small (n / 16777216) 256) by assumption.
  lia.
Qed.

Lemma length_le32 n : length (le32 n) = 4.
Proof. reflexivity. Qed.

Lemma length_bytearray n : length (bytearray n) = n.
Proof. apply repeat_length. Qed.

(** Length of a slice assignment: the general law, and the in-range
    case where the replacement has the length of the slice. *)
Lemma length_slice_assign buf lo hi data :
  length (slice_assign buf lo hi data)
  = Nat.min lo (length buf) + length data + (length buf - Nat.max lo hi).
Proof.
  unfold slice_assign. rewrite !length_app, length_firstn, length_skipn. lia.
Qed.

Lemma length_slice_assign_exact buf lo data :
  lo + length data <= length buf ->
  length (slice_assign buf lo (lo + length data) data) = length buf.
Proof. intros H. rewrite length_slice_assign. lia. Qed.

(** Reading a buffer after an in-range, length-preserving assignment. *)
Lemma nth_error_slice_assign_outside buf lo data i :
  lo + length data <= length buf ->
  i < lo \/ lo + length data <= i ->
  nth_error (slice_assign buf lo (lo + length data) data) i = nth_error buf i.
Proof.
  intros Hin Hi. unfold slice_assign.
  replace (Nat.max lo (lo + length data)) with (lo + length data) by lia.
  destruct Hi as [Hi|Hi].
  - rewrite nth_error_app1 by (rewrite length_firstn; lia).
    rewrite nth_error_firstn.
    destruct (Nat.ltb_spec i lo); [reflexivity | lia].
  - rewrite nth_error_app2 by (rewrite length_firstn; lia).
    rewrite length_firstn, Nat.min_l by lia.
    rewrite nth_error_app2 by lia.
    rewrite nth_error_skipn. f_equal. lia.
Qed.

Lemma nth_error_slice_assign_inside buf lo data j :
  lo <= length buf ->
  j < length data ->
  nth_error (slice_assign buf lo (lo + length data) data) (lo + j) = nth_error data j.
Proof.
  intros Hlo Hj. unfold slice_assign.
  rewrite nth_error_app2 by (rewrite length_firstn; lia).
  rewrite length_firstn, Nat.min_l by lia.
  rewrite nth_error_app1 by lia. f_equal. lia.
Qed.

Lemma slice_slice_assign_same buf lo data :
  lo <= length buf ->
  slice (slice_assign buf lo (lo + length data) data) lo (lo + length data) = data.
Proof.
  intros Hlo. unfold slice, slice_assign.
  rewrite skipn_app, length_firstn, Nat.min_l by lia.
  rewrite skipn_all2 by (rewrite length_firstn; lia).
  replace (lo - lo) with 0 by lia. simpl.
  replace (lo + length data - lo) with (length data) by lia.
  rewrite firstn_app, Nat.sub_diag, firstn_all. simpl. apply app_nil_r.
Qed.


Lemma nth_error_slice buf lo hi k :
  nth_error (slice buf lo hi) k
  = if k <? hi - lo then nth_error buf (lo + k) else None.
Proof. unfold slice. rewrite nth_error_firstn, nth_error_skipn. reflexivity. Qed.

(** Two buffers that agree on [lo, hi) have the same slice there. *)
Lemma slice_ext a b lo hi :
  (forall i, lo <= i < hi -> nth_error a i = nth_error b i) ->
  slice a lo hi = slice b lo hi.
Proof.
  intros H. apply nth_error_ext. intros k. rewrite !nth_error_slice.
  destruct (Nat.ltb_spec k (hi - lo)); [apply H; lia | reflexivity].
Qed.

(** A slice is determined by what [nth_error] reads inside it. *)
Lemma slice_eq_of_nth buf lo data :
  (forall j, j < length data -> nth_error buf (lo + j) = nth_error data j) ->
  slice buf lo (lo + length data) = data.
Proof.
  intros H. apply nth_error_ext. intros k. rewrite nth_error_slice.
  replace (lo + length data - lo) with (length data) by lia.
  destruct (Nat.ltb_spec k (length data)); [apply H; assumption|].
  symmetry. apply nth_error_None. assumption.
Qed.

Lemma nth_error_slice_assign buf lo data i :
  lo + length data <= length buf ->
  nth_error (slice_assign buf lo (lo + length data) data) i
  = if (lo <=? i) && (i <? lo + length data) then nth_error data (i - lo)
    else nth_error buf i.
Proof.
  intros Hin.
  destruct (Nat.leb_spec lo i); destruct (Nat.ltb_spec i (lo + length data)); cbn [andb].
  - replace i with (lo + (i - lo)) at 1 by lia.
    apply nth_error_slice_assign_inside; lia.
  - apply nth_error_slice_assign_outside; [assumption | lia].
  - apply nth_error_slice_assign_outside; [assumption | lia].
  - apply nth_error_slice_assign_outside; [assumption | lia].
Qed.

Lemma struct_pack_I_small n :
  (N.of_nat n < 4294967296)%N -> struct_pack_I n = Returned (le32 (N.of_nat n)).
Proof.
  intros H. unfold struct_pack_I.
  apply N.ltb_lt in H. rewrite H. reflexivity.
Qed.

End PyBytesFacts.

(* ===================================================================== *)
(** ** The assembler: layout of the output buffer                         *)
(* ===================================================================== *)

Module AssemblerFacts.
Import PyBytes PyBytesFacts Assembler.

(** Before the byte count is patched the buffer is the donor prefix
    followed by the encoded strip. *)
Lemma prefix_then_strip (so : nat) (donor strip : bytes) :
  so <= length donor ->
  slice_assign_from
    (slice_assign (bytearray (so + length strip)) 0 so (read donor so)) so strip
  = firstn so donor ++ strip.
Proof.
  intros Hso. unfold slice_assign_from, slice_assign, read, bytearray. simpl.
  rewrite firstn_app, length_firstn, Nat.min_l by assumption.
  rewrite Nat.sub_diag. simpl. rewrite app_nil_r.
  rewrite firstn_all2 by (rewrite length_firstn; lia). reflexivity.
Qed.

(** With the strip length in 32 bits the assembly returns: the prefix
    and the strip, with the byte count patched in. *)
Lemma buildNefBuffer_returns (exif : Exif) (donor strip : bytes) :
  stripOffset exif <= length donor ->
  (N.of_nat (length strip) < 4294967296)%N ->
  buildNefBuffer exif (read donor (stripOffset exif)) strip
  = Returned (slice_assign (firstn (stripOffset exif) donor ++ strip)
                           (fileOffsetToStripByteCount exif)
                           (fileOffsetToStripByteCount exif + 4)
                           (le32 (N.of_nat (length strip)))).
Proof.
  intros Hdonor Hfits. unfold buildNefBuffer.
  rewrite prefix_then_strip by assumption.
  rewrite struct_pack_I_small by assumption. reflexivity.
Qed.

(** C1. For a donor that holds at least [stripOffset] bytes, a strip
    whose length fits 32 bits and a byte-count field that lies inside
    the assembled buffer, [writeOutputNEF] builds a buffer of length
    [stripOffset + len(strip)]; outside the four bytes of the field it
    holds the donor bytes below [stripOffset] and the strip after
    them; the field holds [len(strip)] as a 32-bit little-endian
    integer. *)
Theorem buildNefBuffer_layout (exif : Exif) (donor strip : bytes) :
  let so := stripOffset exif in
  let off := fileOffsetToStripByteCount exif in
  so <= length donor ->
  off + 4 <= so + length strip ->
  (N.of_nat (length strip) < 4294967296)%N ->
  exists buf,
    buildNefBuffer exif (read donor so) strip = Returned buf /\
    length buf = so + length strip /\
    (forall i, i < so -> i < off \/ off + 4 <= i ->
               nth_error buf i = nth_error donor i) /\
    (forall j, j < length strip -> so + j < off \/ off + 4 <= so + j ->
               nth_error buf (so + j) = nth_error strip j) /\
    slice buf off (off + 4) = le32 (N.of_nat (length strip)) /\
    unpack_le32 (slice buf off (off + 4)) = Some (N.of_nat (length strip)).
Proof.
  intros so off Hdonor Hfield Hfits.
  unfold buildNefBuffer. fold so. fold off.
  rewrite prefix_then_strip by assumption.
  rewrite struct_pack_I_small by assumption. cbn [obind].
  set (pre := firstn so donor ++ strip).
  set (packed := le32 (N.of_nat (length strip))).
  assert (Hpre : length pre = so + length strip).
  { unfold pre. rewrite length_app, length_firstn. lia. }
  change (off + 4) with (off + length packed).
  assert (Hin : off + length packed <= length pre) by (rewrite Hpre; exact Hfield).
  eexists. split; [reflexivity|].
  split; [rewrite length_slice_assign_exact by exact Hin; exact Hpre|].
  split; [|split; [|split]].
  - intros i Hi Hout.
    rewrite nth_error_slice_assign_outside by assumption.
    unfold pre. rewrite nth_error_app1 by (rewrite length_firstn; lia).
    rewrite nth_error_firstn. destruct (Nat.ltb_spec i so); [reflexivity|lia].
  - intros j Hj Hout.
    rewrite nth_error_slice_assign_outside by assumption.
    unfold pre. rewrite nth_error_app2 by (rewrite length_firstn; lia).
    rewrite length_firstn, Nat.min_l by assumption. f_equal. lia.
  - apply slice_slice_assign_same. lia.
  - rewrite slice_slice_assign_same by lia.
    apply unpack_le32_le32. assumption.
Qed.

Definition exif_small : Exif :=
  {| endian := LITTLE;
     rawDimensions := mkDimensions 2 2;
     bitsPerSample := 14;
     stripOffset := 8;
     stripByteCount := 5;
     fileOffsetToStripByteCount := 2;
     wbMultipliers := mkWhiteBalanceMultipliers (S754_finite false 1 1) (S754_finite false 1 0);
     nefCompressionType := 3;
     blackLevel := 0;
     predValueNefCompression := 2048;
     cropAreaDimensions := None;
     embeddedJpgs := [] |}.

Definition donor_small : bytes :=
  [x49; x49; xaa; xbb; xcc; xdd; x2a; x00; x11; x22; x33; x44; x55].

Lemma buildNefBuffer_layout_witness :
  exists buf,
    buildNefBuffer exif_small (read donor_small 8) [x01; x02; x03] = Returned buf /\
    length buf = 8 + 3 /\
    (forall i, i < 8 -> i < 2 \/ 2 + 4 <= i ->
               nth_error buf i = nth_error donor_small i) /\
    (forall j, j < 3 -> 8 + j < 2 \/ 2 + 4 <= 8 + j ->
               nth_error buf (8 + j) = nth_error [x01; x02; x03] j) /\
    slice buf 2 (2 + 4) = le32 3 /\
    unpack_le32 (slice buf 2 (2 + 4)) = Some 3%N.
Proof.
  apply (buildNefBuffer_layout exif_small donor_small [x01; x02; x03]).
  - simpl. lia.
  - simpl. lia.
  - reflexivity.
Defined.

Example buildNefBuffer_small :
  buildNefBuffer exif_small (read donor_small 8) [x01; x02; x03]
  = Returned [x49; x49; x03; x00; x00; x00; x2a; x00; x01; x02; x03].
Proof. reflexivity. Qed.

End AssemblerFacts.

(* ===================================================================== *)
(** ** The preview regenerator: size bound, overwrite and frame           *)
(* ===================================================================== *)

Module PreviewFacts.
Import PyBytes PyBytesFacts Preview.

(** The bytes a preview record designates: its JPEG and its length field. *)
Definition in_jpeg (e : EmbeddedJpgExifInfo) (i : nat) : Prop :=
  EmbeddedJpg.start e <= i < EmbeddedJpg.start e + EmbeddedJpg.length e.
Definition in_field (e : EmbeddedJpgExifInfo) (i : nat) : Prop :=
  EmbeddedJpg.offsetToLengthField e <= i < EmbeddedJpg.offsetToLengthField e + 4.
Definition touches (e : EmbeddedJpgExifInfo) (i : nat) : Prop :=
  in_jpeg e i \/ in_field e i.

(** A record lies inside a buffer of [n] bytes; its length is a 32-bit
    quantity, as the EXIF field it was read from. *)
Definition in_range (n : nat) (e : EmbeddedJpgExifInfo) : Prop :=
  EmbeddedJpg.start e + EmbeddedJpg.length e <= n /\
  EmbeddedJpg.offsetToLengthField e + 4 <= n /\
  (N.of_nat (EmbeddedJpg.length e) < 4294967296)%N.

(** The length field of a record is not part of its own JPEG. *)
Definition field_apart (e : EmbeddedJpgExifInfo) : Prop :=
  forall i, ~ (in_jpeg e i /\ in_field e i).

(** Two records share no byte. *)
Definition separate (e1 e2 : EmbeddedJpgExifInfo) : Prop :=
  forall i, ~ (touches e1 i /\ touches e2 i).

(** The loop reported having overwritten the record. *)
Definition overwritten (log : list LogMsg) (e : EmbeddedJpgExifInfo) : Prop :=
  exists n, In (V_Overwriting (EmbeddedJpg.exifName e) (EmbeddedJpg.start e) n
                              (EmbeddedJpg.length e)) log.

Section WithCodecs.
Variable Image : Type.
Variable imdecode_dimensions : bytes -> option Dimensions.
Variable encode_jpeg : Image -> Dimensions -> Z -> bytes.
Variable encode_placeholder : Dimensions -> string -> bytes.
Variable to_image8 : Exif -> Image -> Image.

Local Abbreviation qualityLoop := (qualityLoop Image encode_jpeg).
Local Abbreviation generateEmbeddedJpg := (generateEmbeddedJpg Image encode_jpeg).
Local Abbreviation generatePlaceholderEmbeddedJpg :=
  (generatePlaceholderEmbeddedJpg encode_placeholder).
Local Abbreviation produceEmbeddedJpg :=
  (produceEmbeddedJpg Image encode_jpeg encode_placeholder).
Local Abbreviation insertLoop :=
  (insertLoop Image imdecode_dimensions encode_jpeg encode_placeholder).
Local Abbreviation generateAndInsertEmbeddedJpgs :=
  (generateAndInsertEmbeddedJpgs Image imdecode_dimensions encode_jpeg
                                 encode_placeholder to_image8).

(** What the quality loop returns was encoded at a quality it tried and
    fits the budget. *)
Lemma qualityLoop_fits image dims maxSizeBytes name quality jpg log :
  qualityLoop image dims maxSizeBytes name quality = (Some jpg, log) ->
  length jpg <= maxSizeBytes /\
  exists q, (q <= quality)%Z /\ jpg = encode_jpeg image dims q.
Proof.
  funelim (qualityLoop image dims maxSizeBytes name quality);
    intros Hres.
  - inversion Hres; subst.
    apply Nat.leb_le in Heq. split; [assumption|].
    exists quality. split; [lia | reflexivity].
  - discriminate.
  - match goal with IH : forall _ _, _ = _ -> _ |- _ =>
      destruct (IH _ _ Hres) as [Hfit [q [Hq Hjpg]]] end.
    split; [assumption|]. exists q. split; [lia | assumption].
Qed.

Lemma generatePlaceholderEmbeddedJpg_fits dims maxSizeBytes name jpg log :
  generatePlaceholderEmbeddedJpg dims maxSizeBytes name = (Some jpg, log) ->
  length jpg <= maxSizeBytes.
Proof.
  unfold Preview.generatePlaceholderEmbeddedJpg.
  destruct (Nat.ltb_spec maxSizeBytes (length (encode_placeholder dims name))) as [Hlt|Hle];
    intros Hres; inversion Hres; subst. assumption.
Qed.

Lemma produceEmbeddedJpg_fits image8 dims origJpgSize name jpg log :
  produceEmbeddedJpg image8 dims origJpgSize name = (Some jpg, log) ->
  length jpg <= origJpgSize.
Proof.
  unfold Preview.produceEmbeddedJpg.
  destruct image8 as [img|].
  - unfold Preview.generateEmbeddedJpg.
    destruct (qualityLoop img dims origJpgSize name 100) as [[j|] l1] eqn:Hq.
    + intros H; inversion H; subst.
      apply (qualityLoop_fits _ _ _ _ _ _ _ Hq).
    + destruct (generatePlaceholderEmbeddedJpg dims origJpgSize name) as [ph l2] eqn:Hp.
      intros H; inversion H; subst.
      apply (generatePlaceholderEmbeddedJpg_fits _ _ _ _ _ Hp).
  - destruct (generatePlaceholderEmbeddedJpg dims origJpgSize name) as [ph l2] eqn:Hp.
    intros H; inversion H; subst.
    apply (generatePlaceholderEmbeddedJpg_fits _ _ _ _ _ Hp).
Qed.

(** One overwrite, byte by byte: the length field, the new JPEG, the
    zeroed tail, and everything else as it was. The tests are made in
    the order in which the last write wins. *)
Lemma overwriteEmbeddedJpg_spec (buf : bytes) (e : EmbeddedJpgExifInfo) (jpg : bytes) :
  in_range (length buf) e ->
  length jpg <= EmbeddedJpg.length e ->
  exists buf',
    overwriteEmbeddedJpg buf e jpg
    = Returned (buf', [V_Overwriting (EmbeddedJpg.exifName e) (EmbeddedJpg.start e)
                                     (length jpg) (EmbeddedJpg.length e)]) /\
    length buf' = length buf /\
    forall i,
      nth_error buf' i =
      if (EmbeddedJpg.offsetToLengthField e <=? i)
         && (i <? EmbeddedJpg.offsetToLengthField e + 4)
      then nth_error (le32 (N.of_nat (length jpg))) (i - EmbeddedJpg.offsetToLengthField e)
      else if (EmbeddedJpg.start e <=? i) && (i <? EmbeddedJpg.start e + length jpg)
      then nth_error jpg (i - EmbeddedJpg.start e)
      else if (EmbeddedJpg.start e + length jpg <=? i)
              && (i <? EmbeddedJpg.start e + EmbeddedJpg.length e)
      then Some x00
      else nth_error buf i.
Proof.
  intros (Hjpeg & Hfield & H32) Hn.
  unfold overwriteEmbeddedJpg.
  set (s := EmbeddedJpg.start e) in *.
  set (L := EmbeddedJpg.length e) in *.
  set (off := EmbeddedJpg.offsetToLengthField e) in *.
  rewrite struct_pack_I_small by lia. cbn [obind].
  set (b1 := slice_assign buf s (s + length jpg) jpg).
  assert (Hb1 : length b1 = length buf)
    by (apply length_slice_assign_exact; lia).
  set (b2 := if 0 <? L - length jpg then _ else b1).
  assert (Hb2 : length b2 = length buf /\
                forall i, nth_error b2 i
                          = if (s + length jpg <=? i) && (i <? s + L) then Some x00
                            else nth_error b1 i).
  { unfold b2. destruct (Nat.ltb_spec 0 (L - length jpg)) as [Hpos|Hzero].
    - replace (s + L) with (s + length jpg + length (repeat x00 (L - length jpg)))
        by (rewrite repeat_length; lia).
      split.
      + rewrite length_slice_assign_exact; [assumption|].
        rewrite repeat_length. lia.
      + intros i. rewrite nth_error_slice_assign by (rewrite repeat_length; lia).
        rewrite repeat_length.
        destruct (Nat.leb_spec (s + length jpg) i);
          destruct (Nat.ltb_spec i (s + length jpg + (L - length jpg)));
          cbn [andb]; try reflexivity.
        apply nth_error_repeat. lia.
    - split; [assumption|]. intros i.
      destruct (Nat.leb_spec (s + length jpg) i);
        destruct (Nat.ltb_spec i (s + L)); cbn [andb]; try reflexivity. lia. }
  destruct Hb2 as [Hb2len Hb2].
  set (packed := le32 (N.of_nat (length jpg))).
  change (off + 4) with (off + length packed).
  eexists. split; [reflexivity|]. split.
  - rewrite length_slice_assign_exact; [assumption|]. rewrite Hb2len. exact Hfield.
  - intros i. rewrite nth_error_slice_assign by (rewrite Hb2len; exact Hfield).
    destruct ((off <=? i) && (i <? off + length packed)); [reflexivity|].
    rewrite Hb2. unfold b1. rewrite nth_error_slice_assign by lia.
    destruct ((s <=? i) && (i <? s + length jpg)) eqn:Hj; [|reflexivity].
    apply andb_true_iff in Hj. destruct Hj as [Hj1 Hj2].
    apply Nat.leb_le in Hj1. apply Nat.ltb_lt in Hj2.
    destruct (Nat.leb_spec (s + length jpg) i); [lia|]. reflexivity.
Qed.

(** Outside the record nothing is touched by an overwrite. *)
Lemma overwriteEmbeddedJpg_frame (buf : bytes) (e : EmbeddedJpgExifInfo) (jpg buf' : bytes)
      (log : list LogMsg) :
  in_range (length buf) e ->
  length jpg <= EmbeddedJpg.length e ->
  overwriteEmbeddedJpg buf e jpg = Returned (buf', log) ->
  length buf' = length buf /\
  log = [V_Overwriting (EmbeddedJpg.exifName e) (EmbeddedJpg.start e)
                       (length jpg) (EmbeddedJpg.length e)] /\
  forall i, ~ touches e i -> nth_error buf' i = nth_error buf i.
Proof.
  intros Hr Hn Hrun.
  destruct (overwriteEmbeddedJpg_spec buf e jpg Hr Hn) as (b & Hb & Hlen & Hnth).
  rewrite Hb in Hrun. inversion Hrun; subst.
  split; [assumption|]. split; [reflexivity|].
  intros i Hi. rewrite Hnth. unfold touches, in_jpeg, in_field in Hi.
  destruct (Nat.leb_spec (EmbeddedJpg.offsetToLengthField e) i);
    destruct (Nat.ltb_spec i (EmbeddedJpg.offsetToLengthField e + 4));
    cbn [andb]; try lia;
    destruct (Nat.leb_spec (EmbeddedJpg.start e) i);
    destruct (Nat.ltb_spec i (EmbeddedJpg.start e + length jpg));
    cbn [andb]; try lia;
    destruct (Nat.leb_spec (EmbeddedJpg.start e + length jpg) i);
    destruct (Nat.ltb_spec i (EmbeddedJpg.start e + EmbeddedJpg.length e));
    cbn [andb]; try lia; reflexivity.
Qed.

(** Unfolding one iteration of the loop on a decodable record. *)
Lemma insertLoop_cons (image8 : option Image) (e : EmbeddedJpgExifInfo)
      (rest : list EmbeddedJpgExifInfo) (buf : bytes) (dims : Dimensions)
      (oj : option bytes) (log1 : list LogMsg) :
  imdecode_dimensions
    (slice buf (EmbeddedJpg.start e) (EmbeddedJpg.start e + EmbeddedJpg.length e))
  = Some dims ->
  produceEmbeddedJpg image8 dims (EmbeddedJpg.length e) (EmbeddedJpg.exifName e)
  = (oj, log1) ->
  insertLoop image8 (e :: rest) buf
  = ('(b, log2) <- match oj with
                   | Some jpg => overwriteEmbeddedJpg buf e jpg
                   | None => Returned (buf, [])
                   end ;;
     '(err, b', log3) <- insertLoop image8 rest b ;;
     Returned (err, b', [] ++ log1 ++ log2 ++ log3)).
Proof.
  intros Hdec Hprod. cbn [Preview.insertLoop].
  unfold Preview.getEmbeddedJpgDimensions. rewrite Hdec, Hprod. reflexivity.
Qed.

Lemma insertLoop_undecodable (image8 : option Image) (e : EmbeddedJpgExifInfo)
      (rest : list EmbeddedJpgExifInfo) (buf : bytes) :
  imdecode_dimensions
    (slice buf (EmbeddedJpg.start e) (EmbeddedJpg.start e + EmbeddedJpg.length e))
  = None ->
  insertLoop image8 (e :: rest) buf
  = Returned (true, buf, [E_UnableToDecodeEmbeddedJpg (EmbeddedJpg.exifName e)]).
Proof.
  intros Hdec. cbn [Preview.insertLoop].
  unfold Preview.getEmbeddedJpgDimensions. rewrite Hdec. reflexivity.
Qed.

(** The loop always returns, keeps the length of the buffer and leaves
    alone every byte that belongs to no record it reports as overwritten. *)
Lemma insertLoop_frame (image8 : option Image) (jpgs : list EmbeddedJpgExifInfo) :
  forall buf : bytes,
    Forall (in_range (length buf)) jpgs ->
    exists err buf' log,
      insertLoop image8 jpgs buf = Returned (err, buf', log) /\
      length buf' = length buf /\
      forall i,
        (forall e, In e jpgs -> overwritten log e -> ~ touches e i) ->
        nth_error buf' i = nth_error buf i.
Proof.
  induction jpgs as [|e rest IH]; intros buf Hrange.
  - exists false, buf, []. repeat split.
  - inversion Hrange as [|? ? He Hrest]; subst.
    destruct (imdecode_dimensions
                (slice buf (EmbeddedJpg.start e)
                       (EmbeddedJpg.start e + EmbeddedJpg.length e)))
      as [dims|] eqn:Hdec.
    2:{ rewrite (insertLoop_undecodable _ _ _ _ Hdec).
        eexists _, _, _. repeat split. }
    destruct (produceEmbeddedJpg image8 dims (EmbeddedJpg.length e)
                                 (EmbeddedJpg.exifName e)) as [oj log1] eqn:Hprod.
    rewrite (insertLoop_cons _ _ _ _ _ _ _ Hdec Hprod).
    destruct oj as [jpg|].
    + pose proof (produceEmbeddedJpg_fits _ _ _ _ _ _ Hprod) as Hfit.
      destruct (overwriteEmbeddedJpg_spec buf e jpg He Hfit) as (b1 & Hb1 & Hlen1 & _).
      rewrite Hb1. cbn [obind].
      destruct (overwriteEmbeddedJpg_frame buf e jpg b1 _ He Hfit Hb1)
        as (_ & _ & Hframe1).
      destruct (IH b1) as (err & b' & log3 & Hrun & Hlen & Hframe).
      { rewrite Hlen1. assumption. }
      rewrite Hrun. cbn [obind].
      eexists _, _, _. split; [reflexivity|]. split; [congruence|].
      intros i Hi. rewrite Hframe.
      * apply Hframe1. apply (Hi e); [left; reflexivity|].
        exists (length jpg). cbn [app]. apply in_or_app. right. left. reflexivity.
      * intros e' Hin [n Hn]. apply (Hi e'); [right; assumption|].
        exists n. cbn [app]. apply in_or_app. right. right. assumption.
    + cbn [obind].
      destruct (IH buf Hrest) as (err & b' & log3 & Hrun & Hlen & Hframe).
      rewrite Hrun. cbn [obind].
      eexists _, _, _. split; [reflexivity|]. split; [assumption|].
      intros i Hi. apply Hframe.
      intros e' Hin [n Hn]. apply (Hi e'); [right; assumption|].
      exists n. cbn [app]. apply in_or_app. right. assumption.
Qed.

(** The whole step returns and keeps the length of the buffer; a byte
    that belongs to no preview record is never written. *)
Lemma generateAndInsertEmbeddedJpgs_returns (exif : Exif) (image : option Image)
      (newNefData : bytes) :
  Forall (in_range (length newNefData)) (embeddedJpgs exif) ->
  exists err buf' log,
    generateAndInsertEmbeddedJpgs exif image newNefData = Returned (err, buf', log) /\
    length buf' = length newNefData /\
    forall i, (forall e, In e (embeddedJpgs exif) -> ~ touches e i) ->
              nth_error buf' i = nth_error newNefData i.
Proof.
  intros Hrange. unfold Preview.generateAndInsertEmbeddedJpgs.
  destruct image as [img|].
  - destruct (insertLoop_frame (Some (to_image8 exif img)) (embeddedJpgs exif)
                               newNefData Hrange)
      as (err & b' & log1 & Hrun & Hlen & Hframe).
    rewrite Hrun. eexists _, _, _. split; [reflexivity|]. split; [assumption|].
    intros i Hi. apply Hframe. intros e Hin _. apply Hi. assumption.
  - destruct (insertLoop_frame None (embeddedJpgs exif) newNefData Hrange)
      as (err & b' & log1 & Hrun & Hlen & Hframe).
    rewrite Hrun. eexists _, _, _. split; [reflexivity|]. split; [assumption|].
    intros i Hi. apply Hframe. intros e Hin _. apply Hi. assumption.
Qed.

(** C9. On a buffer that contains every preview record,
    [generateAndInsertEmbeddedJpgs] returns, keeps the length of the
    buffer and changes no byte outside the JPEG bytes [start, start +
    originalLength) and the four length-field bytes of the records it
    overwrote; when the records lie below [stripOffset] the appended
    strip is unchanged. *)
Theorem generateAndInsertEmbeddedJpgs_frame (exif : Exif) (image : option Image)
        (newNefData : bytes) :
  Forall (in_range (length newNefData)) (embeddedJpgs exif) ->
  exists err buf' log,
    generateAndInsertEmbeddedJpgs exif image newNefData = Returned (err, buf', log) /\
    length buf' = length newNefData /\
    (forall i,
        (forall e, In e (embeddedJpgs exif) -> overwritten log e -> ~ touches e i) ->
        nth_error buf' i = nth_error newNefData i) /\
    (Forall (in_range (stripOffset exif)) (embeddedJpgs exif) ->
     skipn (stripOffset exif) buf' = skipn (stripOffset exif) newNefData).
Proof.
  intros Hrange. unfold Preview.generateAndInsertEmbeddedJpgs.
  set (image8 := match image with Some img => Some (to_image8 exif img) | None => None end).
  destruct (insertLoop_frame image8 (embeddedJpgs exif) newNefData Hrange)
    as (err & b' & log1 & Hrun & Hlen & Hframe).
  assert (Hres : exists log0,
             (let '(image8, log0) :=
                match image with
                | Some img => (Some (to_image8 exif img), [])
                | None => (None, [W_NoImageForEmbeddedJpgs])
                end in
              '(err, newNefData, log1) <- insertLoop image8 (embeddedJpgs exif) newNefData ;;
              Returned (err, newNefData, log0 ++ log1))
             = Returned (err, b', log0 ++ log1) /\
             forall e, overwritten (log0 ++ log1) e -> overwritten log1 e).
  { unfold image8 in Hrun. destruct image as [img|].
    - exists []. rewrite Hrun. split; [reflexivity|]. intros e H; exact H.
    - exists [W_NoImageForEmbeddedJpgs]. rewrite Hrun. split; [reflexivity|].
      intros e [n [Hn|Hn]]; [discriminate | exists n; exact Hn]. }
  destruct Hres as (log0 & Hres & Hlog).
  exists err, b', (log0 ++ log1). split; [exact Hres|]. split; [assumption|].
  assert (Hfr : forall i,
             (forall e, In e (embeddedJpgs exif) -> overwritten (log0 ++ log1) e ->
                        ~ touches e i) ->
             nth_error b' i = nth_error newNefData i).
  { intros i Hi. apply Hframe. intros e Hin Hov. apply (Hi e Hin).
    destruct Hov as [n Hn]. exists n. apply in_or_app. right. assumption. }
  split; [exact Hfr|].
  intros Hbelow. apply nth_error_ext. intros k. rewrite !nth_error_skipn.
  apply Hfr. intros e Hin _.
  rewrite Forall_forall in Hbelow. destruct (Hbelow e Hin) as (H1 & H2 & _).
  unfold touches, in_jpeg, in_field. lia.
Qed.

(** After the loop the record holds the replacement: the new JPEG at the
    original start, zeros up to the original end, and the new length in
    the length field. *)
Definition holds_replacement (buf : bytes) (e : EmbeddedJpgExifInfo) (jpg : bytes) : Prop :=
  slice buf (EmbeddedJpg.start e) (EmbeddedJpg.start e + length jpg) = jpg /\
  slice buf (EmbeddedJpg.start e + length jpg)
        (EmbeddedJpg.start e + EmbeddedJpg.length e)
  = repeat x00 (EmbeddedJpg.length e - length jpg) /\
  slice buf (EmbeddedJpg.offsetToLengthField e) (EmbeddedJpg.offsetToLengthField e + 4)
  = le32 (N.of_nat (length jpg)) /\
  unpack_le32 (slice buf (EmbeddedJpg.offsetToLengthField e)
                     (EmbeddedJpg.offsetToLengthField e + 4))
  = Some (N.of_nat (length jpg)).

Definition decodable (buf : bytes) (r : EmbeddedJpgExifInfo) : Prop :=
  imdecode_dimensions
    (slice buf (EmbeddedJpg.start r) (EmbeddedJpg.start r + EmbeddedJpg.length r))
  <> None.

(** A buffer that agrees, on the bytes of [e], with the result of
    overwriting [e] holds the replacement. *)
Lemma holds_replacement_of_overwrite (buf b1 b' : bytes) (e : EmbeddedJpgExifInfo)
      (jpg : bytes) (log : list LogMsg) :
  in_range (length buf) e ->
  field_apart e ->
  length jpg <= EmbeddedJpg.length e ->
  overwriteEmbeddedJpg buf e jpg = Returned (b1, log) ->
  (forall i, touches e i -> nth_error b' i = nth_error b1 i) ->
  holds_replacement b' e jpg.
Proof.
  intros Hr Hapart Hn Hrun Hagree.
  destruct (overwriteEmbeddedJpg_spec buf e jpg Hr Hn) as (b & Hb & _ & Hnth).
  rewrite Hb in Hrun. inversion Hrun; subst b1 log. clear Hrun Hb.
  destruct Hr as (Hjpeg & Hfield & H32).
  unfold field_apart, in_jpeg, in_field in Hapart.
  unfold touches, in_jpeg, in_field in Hagree.
  set (s := EmbeddedJpg.start e) in *.
  set (L := EmbeddedJpg.length e) in *.
  set (off := EmbeddedJpg.offsetToLengthField e) in *.
  assert (Hf : slice b' off (off + 4) = le32 (N.of_nat (length jpg))).
  { change (off + 4) with (off + length (le32 (N.of_nat (length jpg)))).
    apply slice_eq_of_nth. intros j Hj. change (length (le32 _)) with 4 in Hj.
    rewrite Hagree by lia. rewrite Hnth.
    destruct (Nat.leb_spec off (off + j)); [|lia].
    destruct (Nat.ltb_spec (off + j) (off + 4)); [|lia].
    cbn [andb]. f_equal. lia. }
  unfold holds_replacement. fold s L off.
  split; [|split; [|split]].
  - apply slice_eq_of_nth. intros j Hj.
    pose proof (Hapart (s + j)) as Ha.
    rewrite Hagree by lia. rewrite Hnth.
    destruct (Nat.leb_spec off (s + j));
      destruct (Nat.ltb_spec (s + j) (off + 4)); cbn [andb]; try lia;
      (destruct (Nat.leb_spec s (s + j)); [|lia]);
      (destruct (Nat.ltb_spec (s + j) (s + length jpg)); [|lia]);
      cbn [andb]; f_equal; lia.
  - replace (s + L) with (s + length jpg + length (repeat x00 (L - length jpg)))
      by (rewrite repeat_length; lia).
    apply slice_eq_of_nth. intros j Hj. rewrite repeat_length in Hj.
    pose proof (Hapart (s + length jpg + j)) as Ha.
    rewrite Hagree by lia. rewrite Hnth.
    rewrite nth_error_repeat by assumption.
    destruct (Nat.leb_spec off (s + length jpg + j));
      destruct (Nat.ltb_spec (s + length jpg + j) (off + 4)); cbn [andb]; try lia;
      (destruct (Nat.ltb_spec (s + length jpg + j) (s + length jpg)); [lia|]);
      rewrite andb_false_r;
      (destruct (Nat.leb_spec (s + length jpg) (s + length jpg + j)); [|lia]);
      (destruct (Nat.ltb_spec (s + length jpg + j) (s + L)); [|lia]);
      reflexivity.
  - exact Hf.
  - rewrite Hf. apply unpack_le32_le32. lia.
Qed.

(** Bytes of a record are not moved by a write that stays outside it. *)
Lemma decodable_transfer (buf b1 : bytes) (r r' : EmbeddedJpgExifInfo) :
  separate r r' ->
  (forall i, ~ touches r i -> nth_error b1 i = nth_error buf i) ->
  slice b1 (EmbeddedJpg.start r') (EmbeddedJpg.start r' + EmbeddedJpg.length r')
  = slice buf (EmbeddedJpg.start r') (EmbeddedJpg.start r' + EmbeddedJpg.length r').
Proof.
  intros Hsep Hsame. apply slice_ext. intros i Hi. apply Hsame.
  intros Ht. apply (Hsep i). split; [assumption|]. left. exact Hi.
Qed.

(** The loop on records that do not overlap: a record that is reached
    and for which a JPEG is produced holds that JPEG in the end. *)
Lemma insertLoop_rewrites (image8 : option Image) (pre : list EmbeddedJpgExifInfo) :
  forall (buf : bytes) (e : EmbeddedJpgExifInfo) (post : list EmbeddedJpgExifInfo)
         (dims : Dimensions) (jpg : bytes) (lg : list LogMsg),
    Forall (in_range (length buf)) (pre ++ e :: post) ->
    ForallOrdPairs separate (pre ++ e :: post) ->
    field_apart e ->
    Forall (decodable buf) pre ->
    imdecode_dimensions
      (slice buf (EmbeddedJpg.start e) (EmbeddedJpg.start e + EmbeddedJpg.length e))
    = Some dims ->
    produceEmbeddedJpg image8 dims (EmbeddedJpg.length e) (EmbeddedJpg.exifName e)
    = (Some jpg, lg) ->
    exists err buf' log,
      insertLoop image8 (pre ++ e :: post) buf = Returned (err, buf', log) /\
      length buf' = length buf /\
      overwritten log e /\
      holds_replacement buf' e jpg.
Proof.
  induction pre as [|r pre IH]; intros buf e post dims jpg lg Hrange Hsep Hapart Hpre Hdec Hprod.
  - cbn [app] in *.
    inversion Hrange as [|? ? He Hpost]; subst.
    inversion Hsep as [|? ? Hsep_e _]; subst.
    rewrite (insertLoop_cons _ _ _ _ _ _ _ Hdec Hprod).
    pose proof (produceEmbeddedJpg_fits _ _ _ _ _ _ Hprod) as Hfit.
    destruct (overwriteEmbeddedJpg_spec buf e jpg He Hfit) as (b1 & Hb1 & Hlen1 & _).
    rewrite Hb1. cbn [obind].
    destruct (insertLoop_frame image8 post b1) as (err & b' & log3 & Hrun & Hlen & Hframe).
    { rewrite Hlen1. assumption. }
    rewrite Hrun. cbn [obind].
    eexists _, _, _. split; [reflexivity|]. split; [congruence|]. split.
    + exists (length jpg). cbn [app]. apply in_or_app. right. left. reflexivity.
    + apply (holds_replacement_of_overwrite buf b1 b' e jpg _ He Hapart Hfit Hb1).
      intros i Hi. apply Hframe. intros e' Hin _ Ht.
      rewrite Forall_forall in Hsep_e. apply (Hsep_e e' Hin i). split; assumption.
  - cbn [app] in *.
    inversion Hrange as [|? ? Hr Hrest]; subst.
    inversion Hsep as [|? ? Hsep_r Hsep_rest]; subst.
    inversion Hpre as [|? ? Hdec_r Hpre']; subst.
    unfold decodable in Hdec_r.
    destruct (imdecode_dimensions
                (slice buf (EmbeddedJpg.start r)
                       (EmbeddedJpg.start r + EmbeddedJpg.length r)))
      as [dr|] eqn:Hdr; [|contradiction].
    destruct (produceEmbeddedJpg image8 dr (EmbeddedJpg.length r)
                                 (EmbeddedJpg.exifName r)) as [oj log1] eqn:Hpr.
    rewrite (insertLoop_cons _ _ _ _ _ _ _ Hdr Hpr).
    assert (Hstep : exists b1 log2,
               match oj with
               | Some j => overwriteEmbeddedJpg buf r j
               | None => Returned (buf, [])
               end = Returned (b1, log2) /\
               length b1 = length buf /\
               forall i, ~ touches r i -> nth_error b1 i = nth_error buf i).
    { destruct oj as [j|].
      - pose proof (produceEmbeddedJpg_fits _ _ _ _ _ _ Hpr) as Hfit.
        destruct (overwriteEmbeddedJpg_spec buf r j Hr Hfit) as (b1 & Hb1 & Hlen1 & _).
        destruct (overwriteEmbeddedJpg_frame buf r j b1 _ Hr Hfit Hb1) as (_ & _ & Hfr).
        eexists _, _. split; [exact Hb1|]. split; assumption.
      - exists buf, []. repeat split. }
    destruct Hstep as (b1 & log2 & Hb1 & Hlen1 & Hfr).
    rewrite Hb1. cbn [obind].
    rewrite Forall_forall in Hsep_r.
    destruct (IH b1 e post dims jpg lg) as (err & b' & log3 & Hrun & Hlen & Hov & Hhold).
    + rewrite Hlen1. assumption.
    + assumption.
    + assumption.
    + rewrite Forall_forall in Hpre' |- *. intros r' Hin. unfold decodable.
      rewrite (decodable_transfer buf b1 r r');
        [apply Hpre'; assumption | | assumption].
      apply Hsep_r. apply in_or_app. left. assumption.
    + rewrite (decodable_transfer buf b1 r e); [assumption | | assumption].
      apply Hsep_r. apply in_or_app. right. left. reflexivity.
    + assumption.
    + rewrite Hrun. cbn [obind].
      eexists _, _, _. split; [reflexivity|]. split; [congruence|]. split; [|assumption].
      destruct Hov as [n Hn]. exists n. cbn [app].
      apply in_or_app. right. apply in_or_app. right. assumption.
Qed.

(** C7. Preview records that lie inside the buffer and do not overlap:
    for a record that the loop reaches (those before it decode) and for
    which a replacement JPEG is produced, that JPEG is no longer than the
    original; after [generateAndInsertEmbeddedJpgs] its bytes stand at
    the original start offset, the bytes up to the original end are
    zero, and the length field holds the new length, little-endian. *)
Theorem preview_replaced_in_place (exif : Exif) (image : option Image) (newNefData : bytes)
        (pre : list EmbeddedJpgExifInfo) (e : EmbeddedJpgExifInfo)
        (post : list EmbeddedJpgExifInfo) (dims : Dimensions) (jpg : bytes)
        (lg : list LogMsg) :
  embeddedJpgs exif = pre ++ e :: post ->
  Forall (in_range (length newNefData)) (embeddedJpgs exif) ->
  ForallOrdPairs separate (embeddedJpgs exif) ->
  field_apart e ->
  Forall (decodable newNefData) pre ->
  imdecode_dimensions
    (slice newNefData (EmbeddedJpg.start e) (EmbeddedJpg.start e + EmbeddedJpg.length e))
  = Some dims ->
  produceEmbeddedJpg (option_map (to_image8 exif) image) dims
                     (EmbeddedJpg.length e) (EmbeddedJpg.exifName e)
  = (Some jpg, lg) ->
  length jpg <= EmbeddedJpg.length e /\
  exists err buf' log,
    generateAndInsertEmbeddedJpgs exif image newNefData = Returned (err, buf', log) /\
    length buf' = length newNefData /\
    overwritten log e /\
    holds_replacement buf' e jpg.
Proof.
  intros Hjpgs Hrange Hsep Hapart Hpre Hdec Hprod.
  split; [apply (produceEmbeddedJpg_fits _ _ _ _ _ _ Hprod)|].
  rewrite Hjpgs in Hrange, Hsep.
  destruct (insertLoop_rewrites _ pre newNefData e post dims jpg lg
                                Hrange Hsep Hapart Hpre Hdec Hprod)
    as (err & b' & log1 & Hrun & Hlen & Hov & Hhold).
  unfold Preview.generateAndInsertEmbeddedJpgs. rewrite Hjpgs.
  destruct image as [img|]; cbn [option_map] in Hrun; rewrite Hrun; cbn [obind].
  - eexists _, _, _. split; [reflexivity|]. repeat split; try assumption; apply Hhold.
  - eexists _, _, _. split; [reflexivity|]. split; [assumption|]. split; [|assumption].
    destruct Hov as [n Hn]. exists n. right. assumption.
Qed.

End WithCodecs.
(** *** A small donor with two preview records *)

Definition demo_decode (b : bytes) : option Dimensions :=
  match b with
  | [] => None
  | _ => Some (mkDimensions 2 1)
  end.
(** A stand-in encoder whose output shrinks with the quality. *)
Definition demo_encode (_ : unit) (_ : Dimensions) (quality : Z) : bytes :=
  repeat xff (Z.to_nat (quality / 30)).
Definition demo_placeholder (_ : Dimensions) (_ : string) : bytes := [xd8].
Definition demo_image8 (_ : Exif) (i : unit) : unit := i.

Definition jpgFromRaw : EmbeddedJpgExifInfo :=
  EmbeddedJpg.mk "JpgFromRaw" 8 2 0.
Definition previewImage : EmbeddedJpgExifInfo :=
  EmbeddedJpg.mk "PreviewImage" 12 4 4.

Definition exif_previews : Exif :=
  {| endian := LITTLE;
     rawDimensions := mkDimensions 2 2;
     bitsPerSample := 14;
     stripOffset := 16;
     stripByteCount := 4;
     fileOffsetToStripByteCount := 16;
     wbMultipliers := mkWhiteBalanceMultipliers (S754_finite false 1 1) (S754_finite false 1 0);
     nefCompressionType := 3;
     blackLevel := 0;
     predValueNefCompression := 2048;
     cropAreaDimensions := None;
     embeddedJpgs := [jpgFromRaw; previewImage] |}.

Definition buffer_previews : bytes :=
  [x02; x00; x00; x00;  x04; x00; x00; x00;  xa1; xa2; x77; x77;
   xb1; xb2; xb3; xb4;  xc1; xc2; xc3; xc4].

Example generateAndInsertEmbeddedJpgs_demo :
  generateAndInsertEmbeddedJpgs unit demo_decode demo_encode demo_placeholder demo_image8
    exif_previews (Some tt) buffer_previews
  = Returned (false,
              [x02; x00; x00; x00;  x03; x00; x00; x00;  xff; xff; x77; x77;
               xff; xff; xff; x00;  xc1; xc2; xc3; xc4],
              [V_Overwriting "JpgFromRaw" 8 2 2; V_Overwriting "PreviewImage" 12 3 4]).
Proof. reflexivity. Qed.

Lemma in_range_previews :
  Forall (in_range (length buffer_previews)) (embeddedJpgs exif_previews).
Proof.
  repeat constructor; cbn; lia.
Defined.

Lemma preview_replaced_in_place_witness :
  length [xff; xff; xff] <= EmbeddedJpg.length previewImage /\
  exists err buf' log,
    generateAndInsertEmbeddedJpgs unit demo_decode demo_encode demo_placeholder demo_image8
      exif_previews (Some tt) buffer_previews = Returned (err, buf', log) /\
    length buf' = length buffer_previews /\
    overwritten log previewImage /\
    holds_replacement buf' previewImage [xff; xff; xff].
Proof.
  apply (preview_replaced_in_place unit demo_decode demo_encode demo_placeholder demo_image8
           exif_previews (Some tt) buffer_previews
           [jpgFromRaw] previewImage [] (mkDimensions 2 1) [xff; xff; xff] []).
  - reflexivity.
  - exact in_range_previews.
  - constructor; [|repeat constructor].
    constructor; [|constructor].
    intros i. unfold touches, in_jpeg, in_field. cbn. lia.
  - intros i. unfold in_jpeg, in_field. cbn. lia.
  - constructor; [|constructor]. unfold decodable. cbn. discriminate.
  - reflexivity.
  - reflexivity.
Defined.

Lemma generateAndInsertEmbeddedJpgs_frame_witness :
  exists err buf' log,
    generateAndInsertEmbeddedJpgs unit demo_decode demo_encode demo_placeholder demo_image8
      exif_previews (Some tt) buffer_previews = Returned (err, buf', log) /\
    length buf' = length buffer_previews /\
    (forall i,
        (forall e, In e (embeddedJpgs exif_previews) -> overwritten log e -> ~ touches e i) ->
        nth_error buf' i = nth_error buffer_previews i) /\
    (Forall (in_range (stripOffset exif_previews)) (embeddedJpgs exif_previews) ->
     skipn (stripOffset exif_previews) buf' = skipn (stripOffset exif_previews) buffer_previews).
Proof.
  apply (generateAndInsertEmbeddedJpgs_frame unit demo_decode demo_encode demo_placeholder
           demo_image8 exif_previews (Some tt) buffer_previews).
  exact in_range_previews.
Defined.

End PreviewFacts.

(* ===================================================================== *)
(** ** The output file                                                    *)
(* ===================================================================== *)

Module OutputFacts.
Import PyBytes PyBytesFacts Assembler AssemblerFacts PreviewFacts.

Section WithCodecs.
Variable Image : Type.
Variable imdecode_dimensions : bytes -> option Dimensions.
Variable encode_jpeg : Image -> Dimensions -> Z -> bytes.
Variable encode_placeholder : Dimensions -> string -> bytes.
Variable to_image8 : Exif -> Image -> Image.

Local Abbreviation writeOutputNEF :=
  (writeOutputNEF Image imdecode_dimensions encode_jpeg encode_placeholder to_image8).

(** With the byte-count field and the preview records inside the donor
    prefix, what [writeOutputNEF] writes has [stripOffset + len(strip)]
    bytes and ends with the strip, whatever the preview step did. *)
Lemma writeOutputNEF_writes (exif : Exif) (fs : Files) (image : option Image)
      (donor strip : bytes) (name : string) :
  templatenef fs = Some donor -> outputFilename fs = Some name -> writable fs = true ->
  stripOffset exif <= length donor ->
  fileOffsetToStripByteCount exif + 4 <= stripOffset exif ->
  (N.of_nat (length strip) < 4294967296)%N ->
  Forall (in_range (stripOffset exif)) (embeddedJpgs exif) ->
  exists written log,
    writeOutputNEF exif fs image strip = Returned (false, Some written, log) /\
    length written = stripOffset exif + length strip /\
    skipn (stripOffset exif) written = strip.
Proof.
  intros Ht Hn Hw Hdonor Hfield Hfits Hbelow.
  unfold Assembler.writeOutputNEF. rewrite Ht.
  rewrite buildNefBuffer_returns by assumption. cbn [obind].
  set (so := stripOffset exif) in *.
  set (off := fileOffsetToStripByteCount exif) in *.
  set (pre := firstn so donor ++ strip).
  set (packed := le32 (N.of_nat (length strip))).
  assert (Hpre : length pre = so + length strip).
  { unfold pre. rewrite length_app, length_firstn. lia. }
  change (off + 4) with (off + length packed).
  assert (Hin : off + length packed <= length pre)
    by (rewrite Hpre; change (length packed) with 4; lia).
  set (buf := slice_assign pre off (off + length packed) packed).
  assert (Hbuf : length buf = so + length strip)
    by (unfold buf; rewrite length_slice_assign_exact by exact Hin; exact Hpre).
  destruct (generateAndInsertEmbeddedJpgs_returns Image imdecode_dimensions encode_jpeg
              encode_placeholder to_image8 exif image buf)
    as (err & b' & log & Hrun & Hlen & Hframe).
  { eapply Forall_impl; [|exact Hbelow].
    intros e (H1 & H2 & H3). rewrite Hbuf. repeat split; try assumption; lia. }
  rewrite Hrun. cbn [obind]. rewrite Hn, Hw.
  exists b', log. split; [reflexivity|]. split; [congruence|].
  apply nth_error_ext. intros k. rewrite nth_error_skipn, Hframe.
  - unfold buf. rewrite nth_error_slice_assign_outside
      by (try exact Hin; change (length packed) with 4; lia).
    unfold pre. rewrite nth_error_app2 by (rewrite length_firstn; lia).
    rewrite length_firstn, Nat.min_l by assumption. f_equal. lia.
  - intros e He. rewrite Forall_forall in Hbelow.
    destruct (Hbelow e He) as (H1 & H2 & _).
    unfold touches, in_jpeg, in_field. fold so in H1, H2. lia.
Qed.

End WithCodecs.
End OutputFacts.

(* ===================================================================== *)
(** ** The geometry planner on exact arithmetic                           *)
(* ===================================================================== *)

Module GeometryFacts.
Import PyFloat Geometry.
Local Open Scope Z_scope.

(** *** Rounding of rationals *)

Lemma Qround_half_even_comp (p q : Q) :
  (p == q)%Q -> Qround_half_even p = Qround_half_even q.
Proof.
  intros Hpq. unfold Qround_half_even.
  rewrite (Qfloor_comp _ _ Hpq).
  assert (He : (p - inject_Z (Qfloor q) == q - inject_Z (Qfloor q))%Q)
    by (rewrite Hpq; reflexivity).
  rewrite (Qcompare_comp _ _ He (1 # 2)%Q (1 # 2)%Q (Qeq_refl _)). reflexivity.
Qed.

Lemma Qround_half_even_Z (z : Z) : Qround_half_even (inject_Z z) = z.
Proof.
  unfold Qround_half_even. rewrite Qfloor_Z.
  assert (Hlt : Qcompare (inject_Z z - inject_Z z) (1 # 2) = Lt)
    by (apply -> Qlt_alt; lra).
  rewrite Hlt. reflexivity.
Qed.

(** A half-integer goes to its even neighbour. *)
Lemma Qround_half_even_half (m : Z) :
  Qround_half_even (inject_Z m + (1 # 2)) = if Z.even m then m else m + 1.
Proof.
  unfold Qround_half_even.
  assert (Hf : Qfloor (inject_Z m + (1 # 2)) = m).
  { assert (H1 := Qfloor_le (inject_Z m + (1 # 2))).
    assert (H2 := Qlt_floor (inject_Z m + (1 # 2))).
    set (f := Qfloor (inject_Z m + (1 # 2))) in *.
    assert (inject_Z f < inject_Z (m + 1))%Q
      by (rewrite inject_Z_plus; change (inject_Z 1) with 1%Q; lra).
    assert (inject_Z m < inject_Z (f + 1))%Q by lra.
    rewrite <- Zlt_Qlt in *. lia. }
  rewrite Hf.
  assert (He : Qcompare (inject_Z m + (1 # 2) - inject_Z m) (1 # 2) = Eq)
    by (apply -> Qeq_alt; ring).
  rewrite He. reflexivity.
Qed.

Lemma Qfloor_le_round (q : Q) : Qfloor q <= Qround_half_even q.
Proof.
  unfold Qround_half_even.
  destruct (Qcompare _ _); [destruct (Z.even _)| |]; lia.
Qed.

(** Rounding never falls below an integer that the argument reaches. *)
Lemma Qround_half_even_ge (t : Z) (q : Q) :
  (inject_Z t <= q)%Q -> t <= Qround_half_even q.
Proof.
  intros Hle. apply Qfloor_resp_le in Hle. rewrite Qfloor_Z in Hle.
  pose proof (Qfloor_le_round q). lia.
Qed.

(** *** [calcAxisCrop] *)

Lemma calcAxisCrop_fits {F} `{Arith F} (s t : Z) (al : Alignment) :
  s <= t -> calcAxisCrop s t al = (0, s).
Proof.
  intros Hle. unfold calcAxisCrop.
  destruct (Z.leb_spec s t); [reflexivity | lia].
Qed.

Lemma calcAxisCrop_low {F} `{Arith F} (s t : Z) (al : Alignment) :
  t < s -> al = LEFT \/ al = TOP -> calcAxisCrop s t al = (0, t).
Proof.
  intros Hlt Hal. unfold calcAxisCrop.
  destruct (Z.leb_spec s t); [lia|].
  destruct Hal; subst; reflexivity.
Qed.

(** CENTER with an even surplus [2k]: [k] off each side. *)
Lemma calcAxisCrop_center_even (s t k : Z) :
  t < s -> s - t = 2 * k ->
  calcAxisCrop (F := Q) s t CENTER = (k, s - k).
Proof.
  intros Hlt Hk. unfold calcAxisCrop.
  destruct (Z.leb_spec s t); [lia|].
  cbn [fround fdiv fsub of_int Exact].
  rewrite Hk.
  replace ((2 * k) mod 2) with 0 by (rewrite Z.mul_comm, Z.mod_mul by lia; reflexivity).
  f_equal.
  - rewrite (Qround_half_even_comp _ (inject_Z k)); [apply Qround_half_even_Z|].
    rewrite inject_Z_mult. change (inject_Z 2) with 2%Q. field.
  - rewrite (Qround_half_even_comp _ (inject_Z (s - k))); [apply Qround_half_even_Z|].
    unfold Zminus. rewrite inject_Z_mult, inject_Z_plus, inject_Z_opp.
    change (inject_Z 2) with 2%Q. change (inject_Z 0) with 0%Q. field.
Qed.

(** CENTER with an odd surplus [2k + 1]: both bounds are half-integers
    and go to their even neighbours. *)
Lemma calcAxisCrop_center_odd (s t k : Z) :
  t < s -> s - t = 2 * k + 1 ->
  calcAxisCrop (F := Q) s t CENTER
  = (if Z.even k then k else k + 1,
     if Z.even (s - k - 2) then s - k - 2 else s - k - 1).
Proof.
  intros Hlt Hk. unfold calcAxisCrop.
  destruct (Z.leb_spec s t); [lia|].
  cbn [fround fdiv fsub of_int Exact].
  rewrite Hk.
  replace ((2 * k + 1) mod 2) with 1
    by (rewrite Z.add_comm, Z.mul_comm, Z.mod_add by lia; reflexivity).
  f_equal.
  - rewrite (Qround_half_even_comp _ (inject_Z k + (1 # 2))).
    + apply Qround_half_even_half.
    + rewrite inject_Z_plus, inject_Z_mult.
      change (inject_Z 2) with 2%Q. change (inject_Z 1) with 1%Q. field.
  - rewrite (Qround_half_even_comp _ (inject_Z (s - k - 2) + (1 # 2))).
    + rewrite Qround_half_even_half.
      replace (s - k - 2 + 1) with (s - k - 1) by lia. reflexivity.
    + unfold Zminus.
      rewrite !inject_Z_plus, inject_Z_mult, !inject_Z_opp.
      change (inject_Z 2) with 2%Q. change (inject_Z 1) with 1%Q. field.
Qed.

(** *** [calcAxisPos] *)

Lemma calcAxisPos_covering {F} `{Arith F} (s t : Z) (al : Alignment) :
  t <= s -> calcAxisPos s t al = 0.
Proof.
  intros Hle. unfold calcAxisPos.
  destruct (Z.geb_spec s t); [reflexivity | lia].
Qed.

Lemma calcAxisPos_center (s t : Z) :
  s < t -> calcAxisPos (F := Q) s t CENTER = (t - s) / 2.
Proof.
  intros Hlt. unfold calcAxisPos.
  destruct (Z.geb_spec s t); [lia|].
  cbn [ftrunc fdiv fsub of_int Exact].
  unfold Qtrunc.
  set (q := (inject_Z t / inject_Z 2 - inject_Z s / inject_Z 2)%Q).
  assert (Hq : (q == (t - s) # 2)%Q).
  { unfold q, Qeq. cbn. lia. }
  assert (Hnum : (Qnum q <? 0) = false).
  { apply Z.ltb_ge. unfold q. cbn. lia. }
  rewrite Hnum, (Qfloor_comp _ _ Hq). reflexivity.
Qed.

(** The placement always leaves room for the source on the axis. *)
Lemma calcAxisPos_range (s t : Z) (al : Alignment) :
  0 <= s -> s <= t ->
  0 <= calcAxisPos (F := Q) s t al <= t - s.
Proof.
  intros Hs Hle.
  destruct (Z.eq_dec s t) as [->|Hne].
  - rewrite calcAxisPos_covering by lia. lia.
  - destruct al.
    + rewrite calcAxisPos_center by lia.
      pose proof (Z.div_pos (t - s) 2 ltac:(lia) ltac:(lia)).
      pose proof (Z.mul_div_le (t - s) 2 ltac:(lia)). lia.
    + unfold calcAxisPos. destruct (Z.geb_spec s t); lia.
    + unfold calcAxisPos. destruct (Z.geb_spec s t); lia.
    + unfold calcAxisPos. destruct (Z.geb_spec s t); lia.
    + unfold calcAxisPos. destruct (Z.geb_spec s t); lia.
Qed.

(** CENTER on a target of even extent with a surplus of [4k + 3]: the
    low bound [2k + 1.5] goes up to [2k + 2] and the high bound
    [t + 2k + 0.5] goes down to [t + 2k], so the range is two short of
    the target. *)
Lemma calcAxisCrop_center_short (s t k : Z) :
  0 <= k -> Z.even t = true -> s - t = 4 * k + 3 ->
  calcAxisCrop (F := Q) s t CENTER = (2 * k + 2, t + 2 * k).
Proof.
  intros Hk Ht Hs.
  rewrite (calcAxisCrop_center_odd s t (2 * k + 1)) by lia.
  replace (s - (2 * k + 1) - 2) with (t + 2 * k) by lia.
  rewrite Z.even_add_mul_2, Ht.
  replace (2 * k + 1) with (1 + 2 * k) by lia.
  rewrite Z.even_add_mul_2. cbn [Z.even].
  f_equal. lia.
Qed.

(** What the specification asks of a CENTER crop: the range has the
    target's length, the low side loses [floor(surplus / 2)] and the
    high side [ceil(surplus / 2)]. *)
Definition splits_surplus (srcAmount tgtAmount : Z) (range : Z * Z) : Prop :=
  let surplus := srcAmount - tgtAmount in
  snd range - fst range = tgtAmount /\
  fst range = surplus / 2 /\
  srcAmount - snd range = (surplus + 1) / 2.

(** C4 (the code at the failing input). CENTER with a surplus of 3: the
    source computes [round(1.5) = 2] and [round(6048.5) = 6048], so two
    pixels go from the low side, three from the high side, and the
    range is two short of the target. Both float instances agree. *)
Theorem calcAxisCrop_center_surplus_3 :
  calcAxisCrop (F := spec_float) 6051 6048 CENTER = (2, 6048) /\
  calcAxisCrop (F := Q) 6051 6048 CENTER = (2, 6048) /\
  ~ splits_surplus 6051 6048 (calcAxisCrop (F := spec_float) 6051 6048 CENTER).
Proof.
  assert (Hrun : calcAxisCrop (F := spec_float) 6051 6048 CENTER = (2, 6048))
    by reflexivity.
  split; [exact Hrun|]. split; [reflexivity|].
  rewrite Hrun. intros (Hlen & _). discriminate Hlen.
Qed.

(** An odd surplus that the code splits as specified: one pixel, from
    the high side. *)
Example calcAxisCrop_center_surplus_1 :
  calcAxisCrop (F := spec_float) 6049 6048 CENTER = (0, 6048) /\
  splits_surplus 6049 6048 (calcAxisCrop (F := spec_float) 6049 6048 CENTER).
Proof.
  assert (Hrun : calcAxisCrop (F := spec_float) 6049 6048 CENTER = (0, 6048))
    by reflexivity.
  split; [exact Hrun|]. rewrite Hrun. repeat split.
Qed.


(** *** The FULL resize *)

Lemma inject_Z_pos (z : Z) : 0 < z -> (0 < inject_Z z)%Q.
Proof. intros Hz. change 0%Q with (inject_Z 0). rewrite <- Zlt_Qlt. assumption. Qed.

Lemma fis_zero_false (q : Q) : ~ (q == 0)%Q -> fis_zero q = false.
Proof.
  intros Hq. cbn. apply Z.eqb_neq. intros Hn. apply Hq.
  unfold Qeq. rewrite Hn. reflexivity.
Qed.

Lemma py_div_nonzero (a b : Q) : ~ (b == 0)%Q -> py_div a b = Returned (a / b)%Q.
Proof. intros Hb. unfold py_div. rewrite (fis_zero_false b Hb). reflexivity. Qed.

Lemma Qltb_lt (a b : Q) : Qltb a b = true <-> (a < b)%Q.
Proof.
  unfold Qltb. rewrite Qlt_alt. destruct (a ?= b)%Q; split; congruence.
Qed.

Lemma Qltb_ge (a b : Q) : Qltb a b = false <-> (b <= a)%Q.
Proof.
  unfold Qltb. rewrite Qle_alt. 
  rewrite <- (Qcompare_antisym a b).
  destruct (a ?= b)%Q; cbn; split; congruence.
Qed.

Lemma full_resize_covers (c r tc tr : Z) (asp : bool) :
  0 < c -> 0 < r -> 0 < tc -> 0 < tr -> c < tc \/ r < tr ->
  exists rd,
    calcResizeDimensions (F := Q) (mkDimensions c r) (mkDimensions tc tr) FULL asp
    = Returned (Some rd) /\
    tc <= columns rd /\ tr <= rows rd /\
    (columns rd = tc \/ rows rd = tr).
Proof.
  intros Hc Hr Htc Htr Hdef.
  pose proof (inject_Z_pos c Hc) as HC. pose proof (inject_Z_pos r Hr) as HR.
  pose proof (inject_Z_pos tc Htc) as HTC. pose proof (inject_Z_pos tr Htr) as HTR.
  unfold calcResizeDimensions. cbn [columns rows].
  replace ((c >=? tc) && (r >=? tr))%bool with false
    by (symmetry; apply andb_false_iff; rewrite !Z.geb_leb, !Z.leb_gt; lia).
  cbn [of_int fmul fltb Exact].
  destruct (Z.ltb_spec c tc) as [Hcol|Hcol].
  - rewrite py_div_nonzero by lra. cbn [obind].
    set (cm := (inject_Z tc / inject_Z c)%Q).
    assert (Hcm : (inject_Z c * cm == inject_Z tc)%Q) by (unfold cm; field; lra).
    assert (Hcmpos : (0 < cm)%Q) by (unfold cm; apply Qlt_shift_div_l; lra).
    destruct (Qltb (inject_Z r * cm) (inject_Z tr)) eqn:Hrow.
    + apply Qltb_lt in Hrow.
      assert (Hrc : (0 < inject_Z r * cm)%Q) by (apply Qmult_lt_0_compat; assumption).
      rewrite py_div_nonzero by lra. cbn [obind].
      eexists. split; [reflexivity|]. cbn [columns rows].
      clearbody cm. cbn [fround Exact].
      set (x := (inject_Z tr / (inject_Z r * cm))%Q).
      assert (Hx : (1 <= x)%Q) by (unfold x; apply Qle_shift_div_l; lra).
      assert (Hrows : (inject_Z r * (cm * x) == inject_Z tr)%Q)
        by (unfold x; field; split; lra).
      assert (Hcols : (inject_Z c * (cm * x) == inject_Z tc * x)%Q)
        by (rewrite <- Hcm; ring).
      rewrite (Qround_half_even_comp _ _ Hrows), Qround_half_even_Z.
      split; [|split; [lia | right; reflexivity]].
      apply Qround_half_even_ge. rewrite Hcols. nra.
    + apply Qltb_ge in Hrow. cbn [obind].
      eexists. split; [reflexivity|]. cbn [columns rows fround Exact].
      clearbody cm.
      assert (Hcols : (inject_Z c * (cm * inject_Z 1) == inject_Z tc)%Q)
        by (rewrite <- Hcm; change (inject_Z 1) with 1%Q; ring).
      assert (Hrows : (inject_Z tr <= inject_Z r * (cm * inject_Z 1))%Q)
        by (change (inject_Z 1) with 1%Q; lra).
      rewrite (Qround_half_even_comp _ _ Hcols), Qround_half_even_Z.
      split; [lia|]. split; [|left; reflexivity].
      apply Qround_half_even_ge. assumption.
  - assert (Hrow : r < tr) by lia.
    assert (HrowQ : (inject_Z r < inject_Z tr)%Q) by (rewrite <- Zlt_Qlt; assumption).
    cbn [obind].
    assert (Hlt : Qltb (inject_Z r * inject_Z 1) (inject_Z tr) = true)
      by (apply Qltb_lt; change (inject_Z 1) with 1%Q; lra).
    rewrite Hlt.
    rewrite py_div_nonzero by (change (inject_Z 1) with 1%Q; lra). cbn [obind].
    eexists. split; [reflexivity|]. cbn [columns rows fround Exact].
    change (inject_Z 1) with 1%Q.
    set (x := (inject_Z tr / (inject_Z r * 1))%Q).
    assert (Hx : (1 <= x)%Q) by (unfold x; apply Qle_shift_div_l; lra).
    assert (Hrows : (inject_Z r * (1 * x) == inject_Z tr)%Q)
      by (unfold x; field; lra).
    assert (HcolQ : (inject_Z tc <= inject_Z c)%Q) by (rewrite <- Zle_Qle; lia).
    rewrite (Qround_half_even_comp _ _ Hrows), Qround_half_even_Z.
    split; [|split; [lia | right; reflexivity]].
    apply Qround_half_even_ge. nra.
Qed.
(** The larger of the two ratios of target to source, the factor that
    makes the source cover the target. *)
Definition cover_ratio (src tgt : Dimensions) : Q :=
  let rc := (inject_Z (columns tgt) / inject_Z (columns src))%Q in
  let rr := (inject_Z (rows tgt) / inject_Z (rows src))%Q in
  if Qltb rc rr then rr else rc.

(** The product [columnMultiplier * rowMultiplier] of the FULL branch
    is that ratio. *)
Lemma full_resize_ratio (c r tc tr : Z) (asp : bool) :
  0 < c -> 0 < r -> 0 < tc -> 0 < tr -> c < tc \/ r < tr ->
  calcResizeDimensions (F := Q) (mkDimensions c r) (mkDimensions tc tr) FULL asp
  = Returned
      (Some (mkDimensions
               (Qround_half_even
                  (inject_Z c * cover_ratio (mkDimensions c r) (mkDimensions tc tr)))
               (Qround_half_even
                  (inject_Z r * cover_ratio (mkDimensions c r) (mkDimensions tc tr))))).
Proof.
  intros Hc Hr Htc Htr Hdef.
  pose proof (inject_Z_pos c Hc) as HC. pose proof (inject_Z_pos r Hr) as HR.
  pose proof (inject_Z_pos tc Htc) as HTC. pose proof (inject_Z_pos tr Htr) as HTR.
  unfold calcResizeDimensions, cover_ratio. cbn [columns rows].
  replace ((c >=? tc) && (r >=? tr))%bool with false
    by (symmetry; apply andb_false_iff; rewrite !Z.geb_leb, !Z.leb_gt; lia).
  cbn [of_int fmul fltb fround Exact].
  set (rc := (inject_Z tc / inject_Z c)%Q).
  set (rr := (inject_Z tr / inject_Z r)%Q).
  assert (Hrc : (inject_Z c * rc == inject_Z tc)%Q) by (unfold rc; field; lra).
  assert (Hrr : (inject_Z r * rr == inject_Z tr)%Q) by (unfold rr; field; lra).
  assert (Hrcpos : (0 < rc)%Q) by (unfold rc; apply Qlt_shift_div_l; lra).
  destruct (Z.ltb_spec c tc) as [Hcol|Hcol].
  - rewrite py_div_nonzero by lra. cbn [obind]. fold rc.
    destruct (Qltb (inject_Z r * rc) (inject_Z tr)) eqn:Hrow.
    + apply Qltb_lt in Hrow.
      assert (Hpos : (0 < inject_Z r * rc)%Q) by (apply Qmult_lt_0_compat; assumption).
      rewrite py_div_nonzero by lra. cbn [obind].
      assert (Hlt : Qltb rc rr = true).
      { apply Qltb_lt. unfold rr. apply Qlt_shift_div_l; [assumption|].
        rewrite Qmult_comm. assumption. }
      rewrite Hlt.
      assert (Hm : (rc * (inject_Z tr / (inject_Z r * rc)) == rr)%Q)
        by (unfold rr; field; split; lra).
      do 3 f_equal; apply Qround_half_even_comp; rewrite Hm; reflexivity.
    + apply Qltb_ge in Hrow. cbn [obind].
      assert (Hge : Qltb rc rr = false).
      { apply Qltb_ge. unfold rr. apply Qle_shift_div_r; [assumption|].
        rewrite Qmult_comm. assumption. }
      rewrite Hge.
      do 3 f_equal; apply Qround_half_even_comp;
        change (inject_Z 1) with 1%Q; ring.
  - assert (Hrow : r < tr) by lia.
    assert (HrowQ : (inject_Z r < inject_Z tr)%Q) by (rewrite <- Zlt_Qlt; assumption).
    assert (HcolQ : (inject_Z tc <= inject_Z c)%Q) by (rewrite <- Zle_Qle; lia).
    cbn [obind].
    assert (Hlt1 : Qltb (inject_Z r * inject_Z 1) (inject_Z tr) = true)
      by (apply Qltb_lt; change (inject_Z 1) with 1%Q; lra).
    rewrite Hlt1.
    rewrite py_div_nonzero by (change (inject_Z 1) with 1%Q; lra). cbn [obind].
    assert (Hlt : Qltb rc rr = true).
    { apply Qltb_lt. apply Qle_lt_trans with 1%Q.
      - unfold rc. apply Qle_shift_div_r; lra.
      - unfold rr. apply Qlt_shift_div_l; lra. }
    rewrite Hlt.
    assert (Hm : (inject_Z 1 * (inject_Z tr / (inject_Z r * inject_Z 1)) == rr)%Q)
      by (unfold rr; change (inject_Z 1) with 1%Q; field; lra).
    do 3 f_equal; apply Qround_half_even_comp; rewrite Hm; reflexivity.
Qed.



(** The same plans as the source computes them, on binary64. *)
Example calcSrcGeomAdjustments_full_3x7 :
  calcSrcGeomAdjustments (F := spec_float) (mkDimensions 3 7) (mkDimensions 10 4)
                         FULL true CENTER CENTER
  = Returned (Some (mkSrcGeomAdjustments (Some (mkDimensions 10 23))
                                         (mkCoordinate 0 0)
                                         (Some (mkRect 0 10 10 12)))).
Proof. reflexivity. Qed.

Example calcSrcGeomAdjustments_minimum_1000 :
  calcSrcGeomAdjustments (F := spec_float) (mkDimensions 1000 1000) (mkDimensions 6000 4000)
                         MINIMUM true CENTER CENTER
  = Returned (Some (mkSrcGeomAdjustments (Some (mkDimensions 4000 4000))
                                         (mkCoordinate 1000 0) None)).
Proof. reflexivity. Qed.

End GeometryFacts.

(* ===================================================================== *)
(** ** Numpy arrays: reading after slicing and assignment                 *)
(* ===================================================================== *)

Module NpFacts.
Import Np.

Lemma length_mapi_from {A B} (f : nat -> A -> B) (l : list A) :
  forall k, length (mapi_from f k l) = length l.
Proof. induction l as [|x t IH]; intros k; cbn; [reflexivity | now rewrite IH]. Qed.

Lemma length_mapi {A B} (f : nat -> A -> B) (l : list A) :
  length (mapi f l) = length l.
Proof. apply length_mapi_from. Qed.

Lemma nth_mapi_from {A B} (f : nat -> A -> B) (l : list A) (d : A) (d' : B) :
  forall k i, i < length l -> nth i (mapi_from f k l) d' = f (k + i) (nth i l d).
Proof.
  induction l as [|x t IH]; intros k i Hi; cbn in Hi; [lia|].
  destruct i as [|i]; cbn.
  - now rewrite Nat.add_0_r.
  - rewrite IH by lia. f_equal. lia.
Qed.

Lemma nth_mapi {A B} (f : nat -> A -> B) (l : list A) (d : A) (d' : B) (i : nat) :
  i < length l -> nth i (mapi f l) d' = f i (nth i l d).
Proof. intros Hi. unfold mapi. now rewrite (nth_mapi_from f l d d' 0 i Hi). Qed.

(** An index that falls in a slice falls at a position below its count,
    and comes back from that position. *)
Lemma pos_in_Some (sl : axis_slice) (r i : nat) :
  pos_in sl r = Some i ->
  i < count sl /\ first sl <= r /\ (r - first sl) mod stride sl = 0 /\
  i = (r - first sl) / stride sl.
Proof.
  unfold pos_in.
  destruct (Nat.leb_spec (first sl) r); cbn [andb]; [|discriminate].
  destruct (Nat.eqb_spec ((r - first sl) mod stride sl) 0); cbn [andb]; [|discriminate].
  destruct (Nat.ltb_spec ((r - first sl) / stride sl) (count sl)); [|discriminate].
  intros Heq. inversion Heq; subst. repeat split; assumption.
Qed.

(** Slices of step 1. *)
Lemma pos_in_unit (f n r : nat) :
  pos_in (mk_slice f n 1) r = if (f <=? r) && (r <? f + n) then Some (r - f) else None.
Proof.
  unfold pos_in. cbn [first count stride].
  rewrite Nat.mod_1_r, Nat.div_1_r. cbn [Nat.eqb]. rewrite andb_true_r.
  destruct (Nat.leb_spec f r); cbn [andb]; [|reflexivity].
  destruct (Nat.ltb_spec (r - f) n); destruct (Nat.ltb_spec r (f + n));
    try reflexivity; lia.
Qed.

Lemma length_getitem2 {A} (d : A) (a : list (list A)) (ys xs : axis_slice) :
  length (getitem2 d a ys xs) = count ys.
Proof. unfold getitem2. now rewrite length_map, length_seq. Qed.

Lemma nth_getitem2 {A} (d : A) (a : list (list A)) (ys xs : axis_slice) (i j : nat) :
  i < count ys -> j < count xs ->
  nth j (nth i (getitem2 d a ys xs) []) d
  = nth (first xs + j * stride xs) (nth (first ys + i * stride ys) a []) d.
Proof.
  intros Hi Hj. unfold getitem2.
  set (row := fun i0 => map _ (seq 0 (count xs))).
  rewrite (nth_indep _ [] (row 0)) by (rewrite length_map, length_seq; assumption).
  rewrite (map_nth row (seq 0 (count ys)) 0 i), seq_nth by assumption.
  unfold row. cbn [plus].
  set (cell := fun j0 => nth (first xs + j0 * stride xs) _ d).
  rewrite (nth_indep _ d (cell 0)) by (rewrite length_map, length_seq; assumption).
  rewrite (map_nth cell (seq 0 (count xs)) 0 j), seq_nth by assumption.
  reflexivity.
Qed.

(** An assignment whose value has the shape of the destination slice
    succeeds and keeps the shape of the array; inside the slice the
    array reads the value, elsewhere what it held. *)
Lemma setitem2_same_shape {A} (d : A) (dst : list (list A)) (ys xs : axis_slice)
      (v : list (list A)) :
  exists res,
    setitem2 d dst ys xs (count ys, count xs) v = Returned res /\
    length res = length dst /\
    (forall r, length (nth r res []) = length (nth r dst [])) /\
    (forall r c, r < length dst -> c < length (nth r dst []) ->
                 nth c (nth r res []) d
                 = match pos_in ys r, pos_in xs c with
                   | Some i, Some j => nth j (nth i v []) d
                   | _, _ => nth c (nth r dst []) d
                   end).
Proof.
  unfold setitem2, broadcasts. rewrite !Nat.eqb_refl. cbn [orb andb].
  eexists. split; [reflexivity|].
  set (frow := fun r row => match pos_in ys r with Some i => _ | None => row end).
  split; [apply length_mapi|]. split.
  - intros r. destruct (Nat.lt_ge_cases r (length dst)) as [Hr|Hr].
    + rewrite (nth_mapi frow dst [] [] r Hr). unfold frow.
      destruct (pos_in ys r); [apply length_mapi | reflexivity].
    + rewrite !nth_overflow by (try rewrite length_mapi; assumption). reflexivity.
  - intros r c Hr Hc.
    rewrite (nth_mapi frow dst [] [] r Hr). unfold frow.
    destruct (pos_in ys r) as [i|] eqn:Hy; [|reflexivity].
    rewrite (nth_mapi _ (nth r dst []) d d c Hc).
    destruct (pos_in xs c) as [j|] eqn:Hx; [|reflexivity].
    apply pos_in_Some in Hy. apply pos_in_Some in Hx.
    assert (Hi : bsel (count ys) i = i)
      by (unfold bsel; destruct (Nat.eqb_spec (count ys) 1); lia).
    assert (Hj : bsel (count xs) j = j)
      by (unfold bsel; destruct (Nat.eqb_spec (count xs) 1); lia).
    rewrite Hi, Hj. reflexivity.
Qed.

Lemma nth_getitem3 (a : array3) (ys xs : axis_slice) (ch i j : nat) :
  i < count ys -> j < count xs ->
  nth j (nth i (getitem3 a ys xs ch) []) 0%Z
  = nth ch (nth (first xs + j * stride xs) (nth (first ys + i * stride ys) a []) []) 0%Z.
Proof.
  intros Hi Hj. unfold getitem3.
  set (row := fun i0 => map _ (seq 0 (count xs))).
  rewrite (nth_indep _ [] (row 0)) by (rewrite length_map, length_seq; assumption).
  rewrite (map_nth row (seq 0 (count ys)) 0 i), seq_nth by assumption.
  unfold row. cbn [plus].
  set (cell := fun j0 => nth ch (nth (first xs + j0 * stride xs) _ []) 0%Z).
  rewrite (nth_indep _ 0%Z (cell 0)) by (rewrite length_map, length_seq; assumption).
  rewrite (map_nth cell (seq 0 (count xs)) 0 j), seq_nth by assumption.
  reflexivity.
Qed.

(** Slices of step 2 that start at [f0] or at [f0 + 1]: an index at
    offset [2i + d] falls in the one that starts at [f0 + d]. *)
Lemma pos_in_step2 (f0 m i d dk : nat) :
  d <= 1 -> dk <= 1 -> i < m ->
  pos_in (mk_slice (f0 + dk) m 2) (f0 + 2 * i + d) = if d =? dk then Some i else None.
Proof.
  intros Hd Hdk Hi. unfold pos_in. cbn [first count stride].
  assert (Hlt : (i <? m) = true) by (apply Nat.ltb_lt; assumption).
  destruct d as [|[|d]]; [| |lia]; (destruct dk as [|[|dk]]; [| |lia]); cbn [Nat.eqb].
  - replace (f0 + 2 * i + 0 - (f0 + 0)) with (i * 2) by lia.
    rewrite Nat.Div0.mod_mul, Nat.div_mul by lia.
    replace (f0 + 0 <=? f0 + 2 * i + 0) with true by (symmetry; apply Nat.leb_le; lia).
    rewrite Hlt. reflexivity.
  - destruct (Nat.leb_spec (f0 + 1) (f0 + 2 * i + 0)); cbn [andb]; [|reflexivity].
    replace (f0 + 2 * i + 0 - (f0 + 1)) with (1 + (i - 1) * 2) by lia.
    rewrite Nat.Div0.mod_add. reflexivity.
  - replace (f0 + 2 * i + 1 - (f0 + 0)) with (1 + i * 2) by lia.
    rewrite Nat.Div0.mod_add. cbn. rewrite andb_false_r. reflexivity.
  - replace (f0 + 2 * i + 1 - (f0 + 1)) with (i * 2) by lia.
    rewrite Nat.Div0.mod_mul, Nat.div_mul by lia.
    replace (f0 + 1 <=? f0 + 2 * i + 1) with true by (symmetry; apply Nat.leb_le; lia).
    rewrite Hlt. reflexivity.
Qed.

End NpFacts.

(* ===================================================================== *)
(** ** The bayer phase: quantization and white balance                    *)
(* ===================================================================== *)

Module PixelFacts.
Import Np NpFacts Pixel.
Local Open Scope Z_scope.

(** The rational a finite float stands for. *)
Definition SF2Q (x : spec_float) : Q :=
  match x with
  | S754_finite s m e =>
      let v := match e with
               | Z0 => inject_Z (Zpos m)
               | Zpos p => inject_Z (Zpos m * 2 ^ Zpos p)
               | Zneg p => (Zpos m # (2 ^ p)%positive)%Q
               end in
      if s then Qopp v else v
  | _ => 0%Q
  end.

(** Zero or a positive finite number. *)
Definition nonneg_finite (x : spec_float) : bool :=
  match x with
  | S754_zero _ => true
  | S754_finite false _ _ => true
  | _ => false
  end.

(** The C conversion of a non-negative float takes the integer part. *)
Lemma SF_trunc_floor (x : spec_float) :
  nonneg_finite x = true -> PyFloat.SF_trunc x = Qfloor (SF2Q x).
Proof.
  destruct x as [s|s| |s m e]; cbn [nonneg_finite]; try discriminate.
  - intros _. reflexivity.
  - destruct s; [discriminate|]. intros _.
    cbn [PyFloat.SF_trunc SF2Q]. destruct e as [|p|p].
    + now rewrite Qfloor_Z.
    + rewrite Qfloor_Z, Z.shiftl_mul_pow2 by lia. reflexivity.
    + rewrite Z.shiftr_div_pow2 by lia. unfold Qfloor.
      rewrite Pos2Z.inj_pow. reflexivity.
Qed.

Lemma SF2Q_nonneg (x : spec_float) : nonneg_finite x = true -> (0 <= SF2Q x)%Q.
Proof.
  destruct x as [s|s| |s m e]; cbn [nonneg_finite SF2Q]; intros Hx;
    try discriminate Hx.
  - apply Qle_refl.
  - destruct s; [discriminate Hx|].
    destruct e as [|p|p].
    + unfold Qle; cbn; lia.
    + change 0%Q with (inject_Z 0). rewrite <- Zle_Qle.
      pose proof (Z.pow_pos_nonneg 2 (Zpos p) ltac:(lia) ltac:(lia)). nia.
    + unfold Qle; cbn; lia.
Qed.

Lemma astype_uint16_floor (x : f32) :
  nonneg_finite x = true -> (SF2Q x < 65536)%Q ->
  astype_uint16 x = Qfloor (SF2Q x).
Proof.
  intros Hfin Hlt. unfold astype_uint16. rewrite (SF_trunc_floor x Hfin).
  apply Z.mod_small. split.
  - rewrite <- (Qfloor_Z 0). apply Qfloor_resp_le. apply SF2Q_nonneg. assumption.
  - pose proof (Qfloor_le (SF2Q x)) as Hfl.
    assert (H : (inject_Z (Qfloor (SF2Q x)) < inject_Z 65536)%Q)
      by (change (inject_Z 65536) with 65536%Q; lra).
    rewrite <- Zlt_Qlt in H. assumption.
Qed.

(** *** Float32 products of small numbers *)

(** [m * 2^e]. *)
Definition QZ (m e : Z) : Q := (inject_Z m * 2 ^ e)%Q.

Lemma SF2Q_finite (m : positive) (e : Z) :
  (SF2Q (S754_finite false m e) == QZ (Zpos m) e)%Q.
Proof.
  unfold SF2Q, QZ. destruct e as [|p|p].
  - cbn. ring.
  - rewrite inject_Z_mult, Zpower_Qpower by lia. reflexivity.
  - rewrite Qmake_Qdiv. change (Z.neg p) with (- Z.pos p). rewrite Qpower_opp.
    rewrite Pos2Z.inj_pow, Zpower_Qpower by lia. reflexivity.
Qed.

Lemma two_pow_pos (e : Z) : (0 < 2 ^ e)%Q.
Proof. apply Qpower_0_lt. reflexivity. Qed.

Lemma QZ_nonneg (m e : Z) : 0 <= m -> (0 <= QZ m e)%Q.
Proof.
  intros Hm. unfold QZ. apply Qmult_le_0_compat.
  - change 0%Q with (inject_Z 0). rewrite <- Zle_Qle. assumption.
  - apply Qlt_le_weak, two_pow_pos.
Qed.

Lemma QZ_le (m n e : Z) : m <= n -> (QZ m e <= QZ n e)%Q.
Proof.
  intros Hmn. unfold QZ. apply Qmult_le_compat_r.
  - rewrite <- Zle_Qle. assumption.
  - apply Qlt_le_weak, two_pow_pos.
Qed.

Lemma QZ_succ (m e : Z) : (QZ (m + 1) e == QZ m e + 2 ^ e)%Q.
Proof. unfold QZ. rewrite inject_Z_plus. change (inject_Z 1) with 1%Q. ring. Qed.

(** Dropping [k] low bits never increases the value. *)
Lemma QZ_shift (m e k : Z) :
  0 <= m -> 0 <= k -> (QZ (m / 2 ^ k) (e + k) <= QZ m e)%Q.
Proof.
  intros Hm Hk. unfold QZ.
  rewrite Qpower_plus by discriminate.
  rewrite <- (Zpower_Qpower 2 k) by assumption.
  assert (Hpow : 0 < 2 ^ k) by (apply Z.pow_pos_nonneg; lia).
  assert (Hdiv : 2 ^ k * (m / 2 ^ k) <= m) by (apply Z.mul_div_le; assumption).
  rewrite Zle_Qle, inject_Z_mult in Hdiv.
  pose proof (two_pow_pos e) as He.
  set (a := inject_Z (m / 2 ^ k)) in *. set (b := inject_Z (2 ^ k)) in *.
  set (c := (2 ^ e)%Q) in *. set (d := inject_Z m) in *.
  change (inject_Z 2 ^ e)%Q with c.
  setoid_replace (a * (c * b))%Q with ((b * a) * c)%Q by ring.
  apply Qmult_le_compat_r; [assumption | apply Qlt_le_weak; assumption].
Qed.

(** The number of binary digits of a positive number. *)
Lemma digits2_pos_spec (p : positive) :
  2 ^ (Zpos (digits2_pos p) - 1) <= Zpos p < 2 ^ Zpos (digits2_pos p).
Proof.
  assert (Hstep : forall d, 0 < d -> 2 ^ d = 2 * 2 ^ (d - 1)).
  { intros d Hd. replace d with (d - 1 + 1) at 1 by lia.
    rewrite Z.pow_add_r by lia. change (2 ^ 1) with 2. lia. }
  induction p as [p IH|p IH|]; cbn [digits2_pos].
  - rewrite Pos2Z.inj_succ.
    replace (Z.succ (Z.pos (digits2_pos p)) - 1) with (Z.pos (digits2_pos p)) by lia.
    rewrite (Hstep (Z.succ (Z.pos (digits2_pos p)))) by lia.
    replace (Z.succ (Z.pos (digits2_pos p)) - 1) with (Z.pos (digits2_pos p)) by lia.
    rewrite (Hstep (Z.pos (digits2_pos p))) in * by lia. lia.
  - rewrite Pos2Z.inj_succ.
    replace (Z.succ (Z.pos (digits2_pos p)) - 1) with (Z.pos (digits2_pos p)) by lia.
    rewrite (Hstep (Z.succ (Z.pos (digits2_pos p)))) by lia.
    replace (Z.succ (Z.pos (digits2_pos p)) - 1) with (Z.pos (digits2_pos p)) by lia.
    rewrite (Hstep (Z.pos (digits2_pos p))) in * by lia. lia.
  - cbn. lia.
Qed.

(** A positive number below [2^B] at exponent [e] has at most [B - e]
    digits. *)
Lemma digits_bound (p : positive) (e B : Z) :
  (QZ (Zpos p) e < 2 ^ B)%Q -> Zpos (digits2_pos p) + e <= B.
Proof.
  intros Hlt.
  destruct (digits2_pos_spec p) as [Hlo _].
  set (d := Zpos (digits2_pos p)) in *.
  assert (Hd : 0 <= d - 1) by (unfold d; lia).
  assert (Hq : (2 ^ (d - 1 + e) <= QZ (Zpos p) e)%Q).
  { unfold QZ. rewrite Qpower_plus by discriminate.
    apply Qmult_le_compat_r; [|apply Qlt_le_weak, two_pow_pos].
    rewrite <- (Zpower_Qpower 2 (d - 1)) by assumption.
    rewrite <- Zle_Qle. assumption. }
  assert (Hpow : (2 ^ (d - 1 + e) < 2 ^ B)%Q) by (eapply Qle_lt_trans; eassumption).
  apply Qpower_lt_compat_l_inv in Hpow; [lia | reflexivity].
Qed.

Lemma exponent_bound (p : positive) (e B : Z) :
  (QZ (Zpos p) e < 2 ^ B)%Q -> e < B.
Proof.
  intros Hlt. pose proof (digits_bound p e B Hlt). lia.
Qed.

(** *** Shifting and rounding a mantissa *)

Lemma shr_m_shr_1 (mrs : shr_record) :
  0 <= shr_m mrs -> shr_m (shr_1 mrs) = shr_m mrs / 2.
Proof.
  destruct mrs as [m r s]. cbn [shr_m]. intros Hm.
  destruct m as [|[p|p|]|p]; cbn [shr_1 shr_m].
  - reflexivity.
  - apply (Z.div_unique (Z.pos p~1) 2 (Z.pos p) 1); lia.
  - apply (Z.div_unique (Z.pos p~0) 2 (Z.pos p) 0); lia.
  - reflexivity.
  - lia.
Qed.

Lemma shr_m_iter (p : positive) :
  forall mrs, 0 <= shr_m mrs ->
              shr_m (iter_pos shr_1 p mrs) = shr_m mrs / 2 ^ Zpos p.
Proof.
  assert (Hdiv : forall a b c, 0 < b -> 0 < c -> a / b / c = a / (b * c))
    by (intros; apply Z.div_div; lia).
  induction p as [p IH|p IH|]; intros mrs Hm; cbn [iter_pos].
  - assert (H1 : 0 <= shr_m (shr_1 mrs))
      by (rewrite shr_m_shr_1 by assumption; apply Z.div_pos; lia).
    assert (Hpow : 0 < 2 ^ Z.pos p) by (apply Z.pow_pos_nonneg; lia).
    assert (H2 : 0 <= shr_m (iter_pos shr_1 p (shr_1 mrs)))
      by (rewrite IH by assumption; apply Z.div_pos; lia).
    rewrite IH, IH, shr_m_shr_1 by assumption.
    rewrite !Hdiv by lia.
    replace (Z.pos p~1) with (1 + Z.pos p + Z.pos p) by lia.
    rewrite !Z.pow_add_r by lia. change (2 ^ 1) with 2. f_equal. lia.
  - assert (Hpow : 0 < 2 ^ Z.pos p) by (apply Z.pow_pos_nonneg; lia).
    assert (H2 : 0 <= shr_m (iter_pos shr_1 p mrs))
      by (rewrite IH by assumption; apply Z.div_pos; lia).
    rewrite IH, IH by assumption.
    rewrite Hdiv by lia.
    replace (Z.pos p~0) with (Z.pos p + Z.pos p) by lia.
    rewrite Z.pow_add_r by lia. reflexivity.
  - rewrite shr_m_shr_1 by assumption. reflexivity.
Qed.

(** [shr] by [n]: the mantissa loses [max n 0] bits, the exponent gains
    them. *)
Lemma shr_spec (mrs : shr_record) (e n : Z) :
  0 <= shr_m mrs ->
  shr_m (fst (shr mrs e n)) = shr_m mrs / 2 ^ Z.max n 0 /\
  snd (shr mrs e n) = e + Z.max n 0.
Proof.
  intros Hm. destruct n as [|p|p]; cbn [shr fst snd].
  - cbn. rewrite Z.div_1_r. lia.
  - replace (Z.max (Z.pos p) 0) with (Z.pos p) by lia.
    split; [apply shr_m_iter; assumption | reflexivity].
  - replace (Z.max (Z.neg p) 0) with 0 by lia. cbn. rewrite Z.div_1_r. lia.
Qed.

Lemma round_nearest_even_range (m : Z) (l : location) :
  m <= round_nearest_even m l <= m + 1.
Proof.
  destruct l as [|[| |]]; cbn [round_nearest_even]; try lia.
  destruct (Z.even m); lia.
Qed.

(** Nothing is added to a mantissa that lost no bit. *)
Lemma round_exact (m : Z) : round_nearest_even m loc_Exact = m.
Proof. reflexivity. Qed.


(** Rounding a positive number below [2^15] to float32 gives zero or a
    positive finite number below [2^16]. *)
Lemma binary_round_aux_small (m : positive) (e : Z) :
  (QZ (Zpos m) e < 2 ^ 15)%Q ->
  let r := binary_round_aux prec32 emax32 false (Zpos m) e loc_Exact in
  nonneg_finite r = true /\ (SF2Q r < 2 ^ 16)%Q.
Proof.
  intros Hval r. unfold r, binary_round_aux, shr_fexp.
  cbn [shr_record_of_loc Zdigits2].
  pose proof (digits_bound m e 15 Hval) as Hd.
  pose proof (exponent_bound m e 15 Hval) as He.
  set (n1 := fexp prec32 emax32 (Z.pos (digits2_pos m) + e) - e).
  destruct (shr_spec (Build_shr_record (Zpos m) false false) e n1 ltac:(cbn; lia))
    as [Hm1 He1].
  destruct (shr (Build_shr_record (Zpos m) false false) e n1) as [mrs1 e1].
  cbn [fst snd shr_m] in Hm1, He1.
  assert (Hn1 : e + Z.max n1 0 <= 14)
    by (unfold n1, fexp, emin, prec32, emax32; lia).
  assert (Hm1pos : 0 <= shr_m mrs1)
    by (rewrite Hm1; apply Z.div_pos; [lia | apply Z.pow_pos_nonneg; lia]).
  assert (Hv1 : (QZ (shr_m mrs1) e1 <= QZ (Zpos m) e)%Q)
    by (rewrite Hm1, He1; apply QZ_shift; lia).
  set (mr := round_nearest_even (shr_m mrs1) (loc_of_shr_record mrs1)).
  pose proof (round_nearest_even_range (shr_m mrs1) (loc_of_shr_record mrs1)) as Hmr.
  fold mr in Hmr.
  assert (Hvr : (QZ mr e1 < 2 ^ 16)%Q).
  { apply Qle_lt_trans with (QZ (shr_m mrs1 + 1) e1); [apply QZ_le; lia|].
    rewrite QZ_succ.
    assert (Hp : (2 ^ e1 <= 2 ^ 14)%Q)
      by (apply Qpower_le_compat_l; [lia | discriminate]).
    assert (H15 : (2 ^ 15 + 2 ^ 14 < 2 ^ 16)%Q) by reflexivity.
    lra. }
  set (n2 := fexp prec32 emax32 (Zdigits2 mr + e1) - e1).
  destruct (shr_spec (Build_shr_record mr false false) e1 n2 ltac:(cbn; lia))
    as [Hm2 He2].
  destruct (shr (Build_shr_record mr false false) e1 n2) as [mrs2 e2].
  cbn [fst snd shr_m] in Hm2, He2.
  assert (Hv2 : (QZ (shr_m mrs2) e2 <= QZ mr e1)%Q)
    by (rewrite Hm2, He2; apply QZ_shift; lia).
  destruct (shr_m mrs2) as [|m2|m2] eqn:Hsm.
  - split; [reflexivity|]. cbn [SF2Q]. reflexivity.
  - assert (Hmrpos : 0 < mr).
    { destruct (Z.eq_dec mr 0) as [Hz|Hz]; [|lia].
      rewrite Hz in Hm2. rewrite Z.div_0_l in Hm2; [discriminate|].
      apply Z.pow_nonzero; lia. }
    assert (He2b : e2 <= emax32 - prec32).
    { destruct mr as [|pr|pr]; try lia.
      pose proof (digits_bound pr e1 16 Hvr) as Hdr.
      cbn [Zdigits2] in n2.
      rewrite He2. unfold n2, fexp, emin, prec32, emax32. lia. }
    apply Z.leb_le in He2b. rewrite He2b.
    split; [reflexivity|].
    rewrite SF2Q_finite. eapply Qle_lt_trans; eassumption.
  - exfalso.
    assert (0 <= mr / 2 ^ Z.max n2 0)
      by (apply Z.div_pos; [lia | apply Z.pow_pos_nonneg; lia]).
    lia.
Qed.


Lemma QZ_mul (m n e f : Z) : (QZ (m * n) (e + f) == QZ m e * QZ n f)%Q.
Proof.
  unfold QZ. rewrite inject_Z_mult, Qpower_plus by discriminate. ring.
Qed.

(** The float32 product of two non-negative numbers whose exact product
    is at most 16383 is zero or a positive finite number below 2^16. *)
Lemma f32_mul_small (x y : f32) :
  nonneg_finite x = true -> nonneg_finite y = true ->
  (SF2Q x <= 1)%Q -> (SF2Q y <= 16383)%Q ->
  nonneg_finite (f32_mul x y) = true /\ (SF2Q (f32_mul x y) < 65536)%Q.
Proof.
  intros Hx Hy Hx1 Hy1.
  destruct x as [sx|sx| |sx mx ex]; cbn [nonneg_finite] in Hx; try discriminate Hx;
    destruct y as [sy|sy| |sy my ey]; cbn [nonneg_finite] in Hy; try discriminate Hy;
    try (split; reflexivity).
  destruct sx; [discriminate Hx|]. destruct sy; [discriminate Hy|].
  unfold f32_mul, SFmul. cbn [xorb].
  rewrite SF2Q_finite in Hx1, Hy1.
  apply (binary_round_aux_small (mx * my) (ex + ey)).
  rewrite Pos2Z.inj_mul, QZ_mul.
  pose proof (QZ_nonneg (Zpos mx) ex ltac:(lia)).
  pose proof (QZ_nonneg (Zpos my) ey ltac:(lia)).
  assert (H15 : (16383 < 2 ^ 15)%Q) by reflexivity.
  nra.
Qed.

(** A check of all the integers of [bits] bits above [base]. *)
Fixpoint all_below (bits : nat) (base : Z) (P : Z -> bool) : bool :=
  match bits with
  | O => P base
  | S b => all_below b (2 * base) P && all_below b (2 * base + 1) P
  end.

Lemma all_below_spec (P : Z -> bool) (bits : nat) :
  forall base k,
    all_below bits base P = true ->
    base * 2 ^ Z.of_nat bits <= k < (base + 1) * 2 ^ Z.of_nat bits ->
    P k = true.
Proof.
  induction bits as [|b IH]; intros base k Hall Hk.
  - cbn in Hk. replace k with base by lia. exact Hall.
  - cbn [all_below] in Hall. apply andb_true_iff in Hall. destruct Hall as [H0 H1].
    rewrite Nat2Z.inj_succ, Z.pow_succ_r in Hk by lia.
    pose proof (Z.pow_pos_nonneg 2 (Z.of_nat b) ltac:(lia) ltac:(lia)) as Hpow.
    destruct (Z.lt_ge_cases k ((2 * base + 1) * 2 ^ Z.of_nat b)).
    + apply (IH (2 * base)); [assumption | lia].
    + apply (IH (2 * base + 1)); [assumption | lia].
Qed.

(** The integers from 0 to 16383 are float32 numbers. *)
Definition small_int_exact (k : Z) : bool :=
  nonneg_finite (f32_of_int k) && Qeq_bool (SF2Q (f32_of_int k)) (inject_Z k).

Lemma small_ints_exact : all_below 14 0 small_int_exact = true.
Proof. vm_compute. reflexivity. Qed.

Lemma f32_of_int_small (k : Z) :
  0 <= k <= 16383 ->
  nonneg_finite (f32_of_int k) = true /\ (SF2Q (f32_of_int k) == inject_Z k)%Q.
Proof.
  intros Hk.
  assert (H : small_int_exact k = true)
    by (apply (all_below_spec _ 14 0 k small_ints_exact); cbn; lia).
  apply andb_true_iff in H. destruct H as [H1 H2].
  split; [assumption | apply Qeq_bool_iff; assumption].
Qed.

(** C3, as the code has it. For every sample [v] in [0, 1] and every
    black level from 0 to 16383, the float32 product
    [v * (16383 - blackLevel)] is a finite number in [0, 65536) and the
    quantization stage yields its integer part: the product is
    truncated, not rounded to nearest. *)
Theorem scale14_truncates (blackLevel : Z) (v : f32) :
  nonneg_finite v = true -> (SF2Q v <= 1)%Q -> 0 <= blackLevel <= 16383 ->
  nonneg_finite (f32_mul v (f32_of_int (16383 - blackLevel))) = true /\
  (SF2Q (f32_mul v (f32_of_int (16383 - blackLevel))) < 65536)%Q /\
  scale14 blackLevel v = Qfloor (SF2Q (f32_mul v (f32_of_int (16383 - blackLevel)))) /\
  (inject_Z (scale14 blackLevel v)
   <= SF2Q (f32_mul v (f32_of_int (16383 - blackLevel)))
   < inject_Z (scale14 blackLevel v) + 1)%Q.
Proof.
  intros Hv Hv1 Hbl.
  destruct (f32_of_int_small (16383 - blackLevel) ltac:(lia)) as [Hk Hkv].
  assert (Hk1 : (SF2Q (f32_of_int (16383 - blackLevel)) <= 16383)%Q).
  { rewrite Hkv. change 16383%Q with (inject_Z 16383). rewrite <- Zle_Qle. lia. }
  destruct (f32_mul_small v _ Hv Hk Hv1 Hk1) as [Hfin Hlt].
  split; [exact Hfin|]. split; [exact Hlt|].
  unfold scale14. rewrite (astype_uint16_floor _ Hfin Hlt).
  split; [reflexivity|]. split.
  - apply Qfloor_le.
  - pose proof (Qlt_floor (SF2Q (f32_mul v (f32_of_int (16383 - blackLevel))))) as H.
    rewrite inject_Z_plus in H. exact H.
Qed.

(** 0.25 as a float32. *)
Definition quarter : f32 := S754_finite false 8388608 (-25).

Lemma scale14_truncates_witness :
  nonneg_finite (f32_mul quarter (f32_of_int (16383 - 1008))) = true /\
  (SF2Q (f32_mul quarter (f32_of_int (16383 - 1008))) < 65536)%Q /\
  scale14 1008 quarter = Qfloor (SF2Q (f32_mul quarter (f32_of_int (16383 - 1008)))) /\
  (inject_Z (scale14 1008 quarter)
   <= SF2Q (f32_mul quarter (f32_of_int (16383 - 1008)))
   < inject_Z (scale14 1008 quarter) + 1)%Q.
Proof.
  apply (scale14_truncates 1008 quarter).
  - reflexivity.
  - discriminate.
  - lia.
Defined.

(** C3 as the specification words it: [round(v * (16383 - blackLevel))]. *)
Definition quantize_by_rounding (blackLevel : Z) (v : f32) : Z :=
  PyFloat.Qround_half_even (SF2Q v * inject_Z (16383 - blackLevel)).

(** At [v = 0.25] and black level 1008 the product is 3843.75: the code
    yields 3843 where rounding to nearest yields 3844. *)
Lemma scale14_is_not_rounding :
  (SF2Q quarter == 1 # 4)%Q /\
  (SF2Q (f32_mul quarter (f32_of_int (16383 - 1008))) == 15375 # 4)%Q /\
  scale14 1008 quarter = 3843 /\
  quantize_by_rounding 1008 quarter = 3844 /\
  scale14 1008 quarter <> quantize_by_rounding 1008 quarter.
Proof.
  repeat split; try reflexivity. discriminate.
Qed.

(** Full scale and black: a sample of 1.0 becomes [16383 - blackLevel],
    a sample of 0.0 becomes 0. *)
Example scale14_full_scale :
  scale14 0 (f32_of_int 1) = 16383 /\
  scale14 1008 (f32_of_int 1) = 15375 /\
  scale14 1008 (S754_zero false) = 0.
Proof. repeat split; reflexivity. Qed.

(** *** White balance on a 2-D source *)

Local Open Scope nat_scope.

Lemma nth_map2d {A B} (f : A -> B) (a : list (list A)) (d : A) (d' : B) (i j : nat) :
  i < length a -> j < length (nth i a []) ->
  nth j (nth i (map2d f a) []) d' = f (nth j (nth i a []) d).
Proof.
  intros Hi Hj. unfold map2d.
  change (@nil B) with (map f []). rewrite map_nth.
  rewrite (nth_indep _ d' (f d)) by (rewrite length_map; assumption).
  apply map_nth.
Qed.

Lemma length_map2d {A B} (f : A -> B) (a : list (list A)) :
  length (map2d f a) = length a.
Proof. apply length_map. Qed.

Lemma length_nth_map2d {A B} (f : A -> B) (a : list (list A)) (i : nat) :
  length (nth i (map2d f a) []) = length (nth i a []).
Proof.
  unfold map2d. change (@nil B) with (map f []). rewrite map_nth. apply length_map.
Qed.

(** All rows have the length of the first. *)
Definition rectangular {A} (a : list (list A)) : Prop :=
  forall r, (r < length a)%nat -> length (nth r a []) = Z.to_nat (shape1 a).

Lemma rectangular_map2d {A B} (f : A -> B) (a : list (list A)) :
  rectangular a -> rectangular (map2d f a).
Proof.
  intros Hrect r Hr. rewrite length_map2d in Hr.
  rewrite length_nth_map2d, (Hrect r Hr).
  destruct a as [|row rest]; [reflexivity|]. cbn. now rewrite length_map.
Qed.

(** The slice [from::2], for [from] 0 or 1, holds the indices from
    [from] on that have the parity of [from]. *)
Lemma pos_in_every_other (n from r : nat) :
  (from <= 1)%nat -> (r < n)%nat ->
  pos_in (every_other n (Z.of_nat from)) r
  = if (from <=? r)%nat && Nat.even (r - from) then Some ((r - from) / 2)%nat else None.
Proof.
  intros Hfrom Hr. unfold every_other, py_slice, clamp_index, pos_in.
  cbn [first count stride].
  destruct (Z.ltb_spec (Z.of_nat from) 0); [lia|].
  destruct (Z.ltb_spec (Z.of_nat n) 0); [lia|].
  replace (Z.to_nat (Z.min (Z.of_nat from) (Z.of_nat n))) with from by lia.
  rewrite Z.min_id.
  replace (Z.min (Z.of_nat from) (Z.of_nat n)) with (Z.of_nat from) by lia.
  destruct (Nat.leb_spec from r) as [Hle|Hgt]; cbn [andb]; [|reflexivity].
  assert (Hcount : ((r - from) / 2
                    < Z.to_nat ((Z.of_nat n - Z.of_nat from + Z.of_nat 2 - 1) / Z.of_nat 2))%nat).
  { change (Z.of_nat 2) with 2%Z.
    apply Nat2Z.inj_lt. rewrite Nat2Z.inj_div, Z2Nat.id.
    2:{ apply Z.div_pos; lia. }
    rewrite Nat2Z.inj_sub by assumption. change (Z.of_nat 2) with 2%Z.
    Z.to_euclidean_division_equations. lia. }
  apply Nat.ltb_lt in Hcount. rewrite Hcount, andb_true_r.
  destruct (Nat.even (r - from)) eqn:He.
  - apply Nat.even_spec in He. destruct He as [k Hk].
    replace ((r - from) mod 2)%nat with 0%nat
      by (rewrite Hk, Nat.mul_comm, Nat.Div0.mod_mul; reflexivity).
    reflexivity.
  - assert (Ho : Nat.odd (r - from) = true)
      by (rewrite <- Nat.negb_even, He; reflexivity).
    apply Nat.odd_spec in Ho. destruct Ho as [k Hk].
    replace ((r - from) mod 2)%nat with 1%nat
      by (rewrite Hk, Nat.add_comm, Nat.mul_comm, Nat.Div0.mod_add; reflexivity).
    reflexivity.
Qed.

(** The sites [scale_sites] multiplies. *)
Definition site (y0 x0 r c : nat) : bool :=
  (y0 <=? r)%nat && Nat.even (r - y0) && ((x0 <=? c)%nat && Nat.even (c - x0)).

Lemma scale_sites_spec (img : list (list f32)) (y0 x0 : nat) (k : f32) :
  (y0 <= 1)%nat -> (x0 <= 1)%nat -> rectangular img ->
  exists res,
    scale_sites img (Z.of_nat y0) (Z.of_nat x0) k = Returned res /\
    length res = length img /\
    (forall r, length (nth r res []) = length (nth r img [])) /\
    (forall r c, (r < length img)%nat -> (c < length (nth r img []))%nat ->
                 nth c (nth r res []) S754_nan
                 = if site y0 x0 r c then f32_mul (nth c (nth r img []) S754_nan) k
                   else nth c (nth r img []) S754_nan).
Proof.
  intros Hy0 Hx0 Hrect. unfold scale_sites.
  set (ys := every_other (length img) (Z.of_nat y0)).
  set (xs := every_other (Z.to_nat (shape1 img)) (Z.of_nat x0)).
  destruct (setitem2_same_shape S754_nan img ys xs
              (map2d (fun v => f32_mul v k) (getitem2 S754_nan img ys xs)))
    as (res & Hres & Hlen & Hrows & Hnth).
  exists res. split; [exact Hres|]. split; [exact Hlen|]. split; [exact Hrows|].
  intros r c Hr Hc. etransitivity; [exact (Hnth r c Hr Hc)|].
  pose proof (Hrect r Hr) as Hw.
  unfold ys at 1, xs at 1.
  rewrite (pos_in_every_other (length img) y0 r Hy0 Hr).
  rewrite (pos_in_every_other (Z.to_nat (shape1 img)) x0 c Hx0) by lia.
  unfold site.
  destruct ((y0 <=? r)%nat && Nat.even (r - y0)) eqn:Hy; cbn [andb]; [|reflexivity].
  destruct ((x0 <=? c)%nat && Nat.even (c - x0)) eqn:Hx; [|reflexivity].
  apply andb_true_iff in Hy. destruct Hy as [Hy1 Hy2].
  apply andb_true_iff in Hx. destruct Hx as [Hx1 Hx2].
  apply Nat.leb_le in Hy1. apply Nat.leb_le in Hx1.
  apply Nat.even_spec in Hy2. destruct Hy2 as [ky Hky].
  apply Nat.even_spec in Hx2. destruct Hx2 as [kx Hkx].
  assert (Hiy : ((r - y0) / 2 = ky)%nat)
    by (rewrite Hky, Nat.mul_comm, Nat.div_mul; lia).
  assert (Hix : ((c - x0) / 2 = kx)%nat)
    by (rewrite Hkx, Nat.mul_comm, Nat.div_mul; lia).
  rewrite Hiy, Hix.
  assert (Hfy : first ys = y0).
  { unfold ys, every_other, py_slice, clamp_index. cbn [first].
    destruct (Z.ltb_spec (Z.of_nat y0) 0); lia. }
  assert (Hfx : first xs = x0).
  { unfold xs, every_other, py_slice, clamp_index. cbn [first].
    destruct (Z.ltb_spec (Z.of_nat x0) 0); lia. }
  assert (Hcy : (ky < count ys)%nat).
  { pose proof (pos_in_every_other (length img) y0 r Hy0 Hr) as Hp.
    fold ys in Hp.
    destruct (Nat.leb_spec y0 r); [|lia].
    replace (Nat.even (r - y0)) with true in Hp
      by (symmetry; apply Nat.even_spec; exists ky; assumption).
    cbn [andb] in Hp. apply pos_in_Some in Hp. lia. }
  assert (Hcx : (kx < count xs)%nat).
  { pose proof (pos_in_every_other (Z.to_nat (shape1 img)) x0 c Hx0 ltac:(lia)) as Hp.
    fold xs in Hp.
    destruct (Nat.leb_spec x0 c); [|lia].
    replace (Nat.even (c - x0)) with true in Hp
      by (symmetry; apply Nat.even_spec; exists kx; assumption).
    cbn [andb] in Hp. apply pos_in_Some in Hp. lia. }
  assert (Hgrow : length (nth ky (getitem2 S754_nan img ys xs) []) = count xs).
  { unfold getitem2.
    set (row := fun i0 => map _ (seq 0 (count xs))).
    rewrite (nth_indep _ [] (row 0%nat)) by (rewrite length_map, length_seq; assumption).
    rewrite (map_nth row (seq 0 (count ys)) 0%nat ky). unfold row.
    now rewrite length_map, length_seq. }
  rewrite (nth_map2d _ _ S754_nan S754_nan)
    by (rewrite ?length_getitem2, ?Hgrow; assumption).
  rewrite nth_getitem2 by assumption.
  change (stride ys) with 2. change (stride xs) with 2.
  rewrite Hfy, Hfx.
  replace (y0 + ky * 2) with r by lia.
  replace (x0 + kx * 2) with c by lia.
  reflexivity.
Qed.

Lemma shape1_nth {A} (a : list (list A)) : shape1 a = Z.of_nat (length (nth 0 a [])).
Proof. destruct a; reflexivity. Qed.

(** An array with the row lengths of a rectangular one is rectangular. *)
Lemma rectangular_same_rows {A B} (a : list (list A)) (b : list (list B)) :
  rectangular a -> length b = length a ->
  (forall r, length (nth r b []) = length (nth r a [])) ->
  rectangular b.
Proof.
  intros Hrect Hlen Hrows r Hr.
  rewrite (shape1_nth b), (Hrows 0), <- (shape1_nth a), (Hrows r).
  apply Hrect. lia.
Qed.

Lemma site_red (r c : nat) : site 0 0 r c = Nat.even r && Nat.even c.
Proof. unfold site. cbn [Nat.leb andb]. now rewrite !Nat.sub_0_r. Qed.

Lemma site_blue (r c : nat) : site 1 1 r c = Nat.odd r && Nat.odd c.
Proof.
  unfold site.
  assert (H : forall n, (1 <=? n) && Nat.even (n - 1) = Nat.odd n).
  { intros [|n]; [reflexivity|]. cbn [Nat.leb andb].
    replace (S n - 1) with n by lia.
    now rewrite Nat.odd_succ. }
  now rewrite !H.
Qed.

Section WithExternals.
Variable cvtColor_gray : array3 -> array2.
Variable powf : f32 -> f32 -> f32.

(** The sRGB stage on one sample, as configured. *)
Definition linear (args : Args) (v : f32) : f32 :=
  if src_srgbtolinear args then srgb_to_linear powf v else v.

(** The white-balance stage on the sample at row [r], column [c]: red
    sites on even rows and columns, blue sites on odd rows and columns. *)
Definition wb_at (kr kb : f32) (r c : nat) (v : f32) : f32 :=
  if Nat.even r && Nat.even c then f32_mul v kr
  else if Nat.odd r && Nat.odd c then f32_mul v kb
  else v.

(** C5, as the code has it. A 2-D source passes [src_ConvertToBayer]
    unchanged and then takes every later stage of the bayer phase, the
    inverse white balance included: each site of the final plane is the
    source pixel normalized, made linear if configured, multiplied by
    [1/red] on red sites and by [1/blue] on blue sites, scaled to 14
    bits and biased by the black level. *)
Theorem bayerOps_gray_applies_wb (exif : Exif) (args : Args) (a : array2) (kr kb : f32) :
  rectangular a ->
  inverse_multiplier (red (effective_wb exif args)) = Returned kr ->
  inverse_multiplier (blue (effective_wb exif args)) = Returned kb ->
  exists plane,
    bayerOps cvtColor_gray powf exif args (Gray a) = Returned plane /\
    length plane = length a /\
    (forall r, length (nth r plane []) = length (nth r a [])) /\
    (forall r c, r < length a -> c < length (nth r a []) ->
                 nth c (nth r plane []) 0%Z
                 = add_bias (blackLevel exif)
                     (scale14 (blackLevel exif)
                        (wb_at kr kb r c
                           (linear args (normalize16 (nth c (nth r a []) 0%Z)))))).
Proof.
  intros Hrect Hkr Hkb. unfold bayerOps. cbn [src_ConvertToBayer obind].
  set (f0 := src_ConvertSRGBToLinear powf args (src_Convert16BitToNormalizedFloat a)).
  assert (Hf0 : length f0 = length a /\
                (forall r, length (nth r f0 []) = length (nth r a [])) /\
                (forall r c, r < length a -> c < length (nth r a []) ->
                             nth c (nth r f0 []) S754_nan
                             = linear args (normalize16 (nth c (nth r a []) 0%Z)))).
  { unfold f0, src_ConvertSRGBToLinear, src_Convert16BitToNormalizedFloat, linear.
    destruct (src_srgbtolinear args).
    - rewrite !length_map2d. split; [reflexivity|]. split.
      + intros r. now rewrite !length_nth_map2d.
      + intros r c Hr Hc.
        rewrite (nth_map2d _ _ S754_nan S754_nan)
          by (rewrite ?length_map2d, ?length_nth_map2d; assumption).
        now rewrite (nth_map2d _ _ 0%Z S754_nan) by assumption.
    - rewrite length_map2d. split; [reflexivity|]. split.
      + intros r. now rewrite length_nth_map2d.
      + intros r c Hr Hc. now rewrite (nth_map2d _ _ 0%Z S754_nan) by assumption. }
  destruct Hf0 as (Hf0len & Hf0rows & Hf0nth).
  assert (Hf0rect : rectangular f0)
    by (apply (rectangular_same_rows a f0); assumption).
  unfold src_ApplyInverseWbMultipliers. rewrite Hkr. cbn [obind].
  destruct (scale_sites_spec f0 0 0 kr ltac:(lia) ltac:(lia) Hf0rect)
    as (f1 & Hf1 & Hf1len & Hf1rows & Hf1nth).
  cbn [Z.of_nat] in Hf1. rewrite Hf1. cbn [obind]. rewrite Hkb. cbn [obind].
  assert (Hf1rect : rectangular f1)
    by (apply (rectangular_same_rows f0 f1); assumption).
  destruct (scale_sites_spec f1 1 1 kb ltac:(lia) ltac:(lia) Hf1rect)
    as (f2 & Hf2 & Hf2len & Hf2rows & Hf2nth).
  change (Z.of_nat 1) with 1%Z in Hf2. rewrite Hf2. cbn [obind].
  eexists. split; [reflexivity|].
  unfold src_AddBlackLevelBias, src_ScaleNormalizedFloatTo14Bit.
  split; [|split].
  - rewrite !length_map2d. congruence.
  - intros r. rewrite !length_nth_map2d. now rewrite Hf2rows, Hf1rows, Hf0rows.
  - intros r c Hr Hc.
    assert (Hr1 : r < length f1) by congruence.
    assert (Hr0 : r < length f0) by congruence.
    assert (Hc0 : c < length (nth r f0 [])) by (rewrite Hf0rows; assumption).
    assert (Hc1 : c < length (nth r f1 [])) by (rewrite Hf1rows; assumption).
    assert (Hr2 : r < length f2) by (rewrite Hf2len; exact Hr1).
    assert (Hc2 : c < length (nth r f2 [])) by (rewrite Hf2rows; exact Hc1).
    rewrite (nth_map2d _ _ 0%Z 0%Z)
      by (rewrite ?length_map2d, ?length_nth_map2d; assumption).
    rewrite (nth_map2d (A := f32) _ _ S754_nan 0%Z) by assumption.
    do 2 f_equal.
    rewrite (Hf2nth r c Hr1 Hc1), (Hf1nth r c Hr0 Hc0), (Hf0nth r c Hr Hc).
    rewrite site_red, site_blue. unfold wb_at.
    destruct (Nat.even r && Nat.even c) eqn:Hred; [|reflexivity].
    replace (Nat.odd r && Nat.odd c) with false; [reflexivity|].
    apply andb_true_iff in Hred. destruct Hred as [He _].
    now rewrite <- Nat.negb_even, He.
Qed.

End WithExternals.

(** *** The grayscale scenario *)

Definition two : spec_float := PyFloat.b64_of_int 2.

Definition exif_gray : Exif :=
  {| endian := LITTLE;
     rawDimensions := mkDimensions 2 2;
     bitsPerSample := 14;
     stripOffset := 8;
     stripByteCount := 5;
     fileOffsetToStripByteCount := 2;
     wbMultipliers := mkWhiteBalanceMultipliers two two;
     nefCompressionType := 3;
     blackLevel := 1008;
     predValueNefCompression := 2048;
     cropAreaDimensions := None;
     embeddedJpgs := [] |}.

Definition args_plain : Args :=
  {| re_geometry := FULL;
     re_maintainaspectratio := true;
     re_horzalign := CENTER;
     re_vertalign := CENTER;
     src_srgbtolinear := false;
     src_wbmultipliers := None;
     src_grayscale := true |}.

Definition white2x2 : array2 := [[65535; 65535]; [65535; 65535]]%Z.

(** 0.5 as a float32: [1 / 2.0]. *)
Definition half : f32 := S754_finite false 8388608 (-24).

Definition no_cvtColor (_ : array3) : array2 := [].
Definition no_powf (x _ : f32) : f32 := x.

Lemma bayerOps_gray_applies_wb_witness :
  exists plane,
    bayerOps no_cvtColor no_powf exif_gray args_plain (Gray white2x2) = Returned plane /\
    length plane = length white2x2 /\
    (forall r, length (nth r plane []) = length (nth r white2x2 [])) /\
    (forall r c, r < length white2x2 -> c < length (nth r white2x2 []) ->
                 nth c (nth r plane []) 0%Z
                 = add_bias (blackLevel exif_gray)
                     (scale14 (blackLevel exif_gray)
                        (wb_at half half r c
                           (linear no_powf args_plain
                              (normalize16 (nth c (nth r white2x2 []) 0%Z)))))).
Proof.
  apply (bayerOps_gray_applies_wb no_cvtColor no_powf exif_gray args_plain white2x2 half half).
  - intros [|[|r]] Hr; cbn in Hr |- *; try reflexivity; lia.
  - reflexivity.
  - reflexivity.
Defined.

(** C5 as the specification words it: the source pixel scaled to 14 bits
    plus the black level, with no white balance. *)
Definition scaled_plus_black (blackLevel : Z) (pixel : Z) : Z :=
  add_bias blackLevel (scale14 blackLevel (normalize16 pixel)).

(** A white 2x2 source with multipliers (2, 2) and black level 1008: the
    red and the blue site hold 1008 + 7687, half the scale, where the
    claim expects 1008 + 15375 at every site. *)
Lemma bayerOps_gray_is_white_balanced :
  bayerOps no_cvtColor no_powf exif_gray args_plain (Gray white2x2)
  = Returned [[8695; 16383]; [16383; 8695]]%Z /\
  scaled_plus_black 1008 65535 = 16383%Z /\
  ~ (forall plane,
        bayerOps no_cvtColor no_powf exif_gray args_plain (Gray white2x2) = Returned plane ->
        forall r c, r < 2 -> c < 2 ->
                    nth c (nth r plane []) 0%Z
                    = scaled_plus_black (blackLevel exif_gray)
                                        (nth c (nth r white2x2 []) 0%Z)).
Proof.
  split; [reflexivity|]. split; [reflexivity|].
  intros H. specialize (H _ eq_refl 0 0 ltac:(lia) ltac:(lia)).
  cbv in H. discriminate H.
Qed.

End PixelFacts.

(* ===================================================================== *)
(** ** Pre-bayered Numpy sources                                          *)
(* ===================================================================== *)

Module DriverFacts.
Import PyFloat Np NpFacts PyBytes Driver.
Local Open Scope Z_scope.

(** *** Validation *)

Lemma fold_max_ge (xs : list Z) :
  forall x, x <= fold_left Z.max xs x /\
            forall v, In v xs -> v <= fold_left Z.max xs x.
Proof.
  induction xs as [|y ys IH]; intros x; cbn [fold_left].
  - split; [lia | intros v []].
  - destruct (IH (Z.max x y)) as [H1 H2]. split; [lia|].
    intros v [->|Hin]; [lia | apply H2; assumption].
Qed.

Lemma fold_max_lt (xs : list Z) (b : Z) :
  forall x, x < b -> (forall v, In v xs -> v < b) -> fold_left Z.max xs x < b.
Proof.
  induction xs as [|y ys IH]; intros x Hx Hall; cbn [fold_left]; [assumption|].
  apply IH.
  - pose proof (Hall y (or_introl eq_refl)). lia.
  - intros v Hv. apply Hall. right. assumption.
Qed.

Lemma fold_min_le (xs : list Z) :
  forall x, fold_left Z.min xs x <= x /\
            forall v, In v xs -> fold_left Z.min xs x <= v.
Proof.
  induction xs as [|y ys IH]; intros x; cbn [fold_left].
  - split; [lia | intros v []].
  - destruct (IH (Z.min x y)) as [H1 H2]. split; [lia|].
    intros v [->|Hin]; [lia | apply H2; assumption].
Qed.

Lemma fold_min_ge (xs : list Z) (b : Z) :
  forall x, b <= x -> (forall v, In v xs -> b <= v) -> b <= fold_left Z.min xs x.
Proof.
  induction xs as [|y ys IH]; intros x Hx Hall; cbn [fold_left]; [assumption|].
  apply IH.
  - pose proof (Hall y (or_introl eq_refl)). lia.
  - intros v Hv. apply Hall. right. assumption.
Qed.

Lemma amax_ge (data : ndarray) (v : Z) :
  In v (elements data) -> exists m, amax data = Returned m /\ v <= m.
Proof.
  unfold amax. destruct (elements data) as [|x xs]; [intros []|].
  intros Hin. eexists. split; [reflexivity|].
  destruct (fold_max_ge xs x) as [H1 H2].
  destruct Hin as [->|Hin]; [assumption | apply H2; assumption].
Qed.

Section WithExternals.
Context {F : Type} `{Arith F}.
Variable sourceOps : Pixel.Image16 -> outcome Pixel.Image16.
Variable cvtColor_gray : array3 -> array2.
Variable powf : Pixel.f32 -> Pixel.f32 -> Pixel.f32.
Variable NefEncode : Z -> Z -> Z -> array2 -> option bytes.
Variable imdecode_dimensions : bytes -> option Dimensions.
Variable encode_jpeg : Pixel.Image16 -> Dimensions -> Z -> bytes.
Variable encode_placeholder : Dimensions -> string -> bytes.
Variable to_image8 : Exif -> Pixel.Image16 -> Pixel.Image16.

Local Abbreviation processSourceNumpy :=
  (processSourceNumpy sourceOps cvtColor_gray powf).
Local Abbreviation run :=
  (run sourceOps cvtColor_gray powf NefEncode imdecode_dimensions encode_jpeg
       encode_placeholder to_image8).

Lemma validate_too_large (exif : Exif) (data : ndarray) (v : Z) :
  In v (elements data) -> 2 ^ 14 <= v ->
  validateBayeredNpyData exif data = Returned (true, [E_PixelsTooLarge]).
Proof.
  intros Hin Hv. unfold validateBayeredNpyData.
  destruct (amax_ge data v Hin) as (m & Hm & Hle). rewrite Hm. cbn [obind].
  destruct (Z.geb_spec m (2 ^ 14)); [reflexivity | lia].
Qed.

(** Arrays that [processSourceNumpy] takes for pre-bayered data: a 2-D
    plane, or a 3-D array with four channels. *)
Definition pre_bayered (data : ndarray) : Prop :=
  match data with
  | Nd2 _ => True
  | Nd3 a => shape2 a = 4
  | NdOther _ => False
  end.

(** C8. A pre-bayered uint16 array, 2-D or with four channels, that
    holds a sample of 2^14 or more: [processSourceNumpy] prints the
    error and returns neither image nor bayered image, and the run ends
    with the error flag having only printed that error, before the
    encoder is called or anything is written. *)
Theorem oversized_npy_aborts (exif : Exif) (args : Args) (fs : Assembler.Files)
        (data : ndarray) (v : Z) :
  pre_bayered data ->
  In v (elements data) -> 2 ^ 14 <= v ->
  processSourceNumpy exif args (Some (mkNpy true data))
  = Returned (None, None, [E_PixelsTooLarge]) /\
  run exif args fs (NpyFile (Some (mkNpy true data)))
  = ([Print E_PixelsTooLarge], Returned true).
Proof.
  intros Hpre Hin Hv.
  assert (Hp : processSourceNumpy exif args (Some (mkNpy true data))
               = Returned (None, None, [E_PixelsTooLarge])).
  { unfold Driver.processSourceNumpy. cbn [is_uint16 negb array].
    destruct data as [a|a|n]; cbn [pre_bayered] in Hpre.
    - unfold processBayeredPlane.
      rewrite (validate_too_large exif (Nd2 a) v Hin Hv). reflexivity.
    - rewrite Hpre. cbn [Z.eqb Pos.eqb].
      unfold processBayerChannels.
      rewrite (validate_too_large exif (Nd3 a) v Hin Hv). reflexivity.
    - contradiction. }
  split; [exact Hp|].
  unfold Driver.run, processSourceFile. rewrite Hp. reflexivity.
Qed.

(** *** Placement *)

(** Whatever the planner returns for geometry NONE, the placement is
    [calcAxisPos] and the crop is [calcAxisCrop], axis by axis. *)
Lemma npyPlacement_spec (exif : Exif) (args : Args) (w h : Z) :
  npyPlacement exif args (mkDimensions w h)
  = Returned
      (mkCoordinate
         (Geometry.calcAxisPos w (columns (rawDimensions exif)) (re_horzalign args))
         (Geometry.calcAxisPos h (rows (rawDimensions exif)) (re_vertalign args)),
       mkRect
         (fst (Geometry.calcAxisCrop w (columns (rawDimensions exif)) (re_horzalign args)))
         (fst (Geometry.calcAxisCrop h (rows (rawDimensions exif)) (re_vertalign args)))
         (snd (Geometry.calcAxisCrop w (columns (rawDimensions exif)) (re_horzalign args)))
         (snd (Geometry.calcAxisCrop h (rows (rawDimensions exif)) (re_vertalign args)))).
Proof.
  unfold npyPlacement, Geometry.calcSrcGeomAdjustments.
  destruct (rawDimensions exif) as [C R]. cbn [columns rows].
  unfold Dimensions_eqb. cbn [columns rows].
  destruct (Z.eqb_spec w C) as [->|Hw]; [destruct (Z.eqb_spec h R) as [->|Hh]|];
    cbn [andb].
  - cbn [obind].
    rewrite !GeometryFacts.calcAxisPos_covering, !GeometryFacts.calcAxisCrop_fits by lia.
    reflexivity.
  - assert (Hres : Geometry.calcResizeDimensions (mkDimensions C h) (mkDimensions C R)
                                                  NONE false = Returned None)
      by (unfold Geometry.calcResizeDimensions; destruct (_ && _); reflexivity).
    rewrite Hres. cbn [obind columns rows posInTgt cropRect].
    rewrite Z.leb_refl. cbn [andb].
    destruct (Z.leb_spec h R).
    + rewrite !GeometryFacts.calcAxisCrop_fits by lia. reflexivity.
    + destruct (Geometry.calcAxisCrop C C (re_horzalign args)),
               (Geometry.calcAxisCrop h R (re_vertalign args)). reflexivity.
  - assert (Hres : Geometry.calcResizeDimensions (mkDimensions w h) (mkDimensions C R)
                                                  NONE false = Returned None)
      by (unfold Geometry.calcResizeDimensions; destruct (_ && _); reflexivity).
    rewrite Hres. cbn [obind columns rows posInTgt cropRect].
    destruct (Z.leb_spec w C); destruct (Z.leb_spec h R); cbn [andb].
    + rewrite !GeometryFacts.calcAxisCrop_fits by lia. reflexivity.
    + destruct (Geometry.calcAxisCrop w C (re_horzalign args)),
               (Geometry.calcAxisCrop h R (re_vertalign args)). reflexivity.
    + destruct (Geometry.calcAxisCrop w C (re_horzalign args)),
               (Geometry.calcAxisCrop h R (re_vertalign args)). reflexivity.
    + destruct (Geometry.calcAxisCrop w C (re_horzalign args)),
               (Geometry.calcAxisCrop h R (re_vertalign args)). reflexivity.
Qed.

End WithExternals.

(** *** Placement on exact arithmetic *)

(** Axes on which the planner's crop has the length of what fits: the
    source does not exceed the target, or it is cut from the high side,
    or it is centred with an even surplus. (RIGHT and BOTTOM, and CENTER
    with an odd surplus, give ranges of other lengths.) *)
Definition axis_ok (s t : Z) (al : Alignment) : Prop :=
  s <= t \/ al = LEFT \/ al = TOP \/ (al = CENTER /\ Z.even (s - t) = true).

Lemma axis_plan (s t : Z) (al : Alignment) :
  0 <= s -> 0 <= t -> axis_ok s t al ->
  exists p c0 n,
    Geometry.calcAxisPos (F := Q) s t al = p /\
    Geometry.calcAxisCrop (F := Q) s t al = (c0, c0 + n) /\
    n = Z.min s t /\ 0 <= p /\ p + n <= t /\ 0 <= c0 /\ c0 + n <= s /\
    (c0 = 0 \/ (p = 0 /\ n = t)).
Proof.
  intros Hs Ht Hok.
  destruct (Z.le_gt_cases s t) as [Hle|Hgt].
  - exists (Geometry.calcAxisPos (F := Q) s t al), 0, s.
    pose proof (GeometryFacts.calcAxisPos_range s t al Hs Hle).
    rewrite GeometryFacts.calcAxisCrop_fits by assumption.
    repeat split; lia.
  - rewrite GeometryFacts.calcAxisPos_covering by lia.
    destruct Hok as [Hle|[->|[->|[-> Heven]]]]; [lia| | |].
    + exists 0, 0, t. rewrite GeometryFacts.calcAxisCrop_low by (auto; lia).
      repeat split; lia.
    + exists 0, 0, t. rewrite GeometryFacts.calcAxisCrop_low by (auto; lia).
      repeat split; lia.
    + apply Z.even_spec in Heven. destruct Heven as [k Hk].
      exists 0, k, t.
      rewrite (GeometryFacts.calcAxisCrop_center_even s t k) by lia.
      repeat split; try lia. f_equal. lia.
Qed.

(** A slice of step 1 whose lower bound lies on the axis. *)
Lemma py_slice_unit (n : nat) (lo hi : Z) :
  0 <= lo <= Z.of_nat n -> lo <= hi ->
  py_slice n lo hi 1
  = mk_slice (Z.to_nat lo) (Z.to_nat (Z.min hi (Z.of_nat n) - lo)) 1.
Proof.
  intros Hlo Hhi. unfold py_slice, clamp_index.
  destruct (Z.ltb_spec lo 0); [lia|]. destruct (Z.ltb_spec hi 0); [lia|].
  f_equal.
  - lia.
  - change (Z.of_nat 1) with 1. rewrite Z.div_1_r. lia.
Qed.

Lemma nth_full (R C v : Z) (r c : nat) :
  (r < Z.to_nat R)%nat -> (c < Z.to_nat C)%nat ->
  nth c (nth r (full R C v) []) 0 = v.
Proof.
  intros Hr Hc. unfold full.
  rewrite (nth_indep _ [] (repeat v (Z.to_nat C))) by (rewrite repeat_length; assumption).
  rewrite nth_repeat.
  rewrite (nth_indep _ 0 v) by (rewrite repeat_length; assumption).
  apply nth_repeat.
Qed.

Lemma length_nth_full (R C v : Z) (r : nat) :
  (r < Z.to_nat R)%nat -> length (nth r (full R C v) []) = Z.to_nat C.
Proof.
  intros Hr. unfold full.
  rewrite (nth_indep _ [] (repeat v (Z.to_nat C))) by (rewrite repeat_length; assumption).
  rewrite nth_repeat. apply repeat_length.
Qed.

(** Where the input lands, on one axis: the placement, the first input
    index that is kept, and how many are kept. *)
Definition placed_at (s t : Z) (al : Alignment) : nat :=
  Z.to_nat (Geometry.calcAxisPos (F := Q) s t al).
Definition kept_from (s t : Z) (al : Alignment) : nat :=
  Z.to_nat (fst (Geometry.calcAxisCrop (F := Q) s t al)).
Definition kept (s t : Z) : nat := Z.to_nat (Z.min s t).

(** The window of the plane that the input covers. *)
Definition covered (exif : Exif) (args : Args) (a : array2) (r c : nat) : bool :=
  let rawDims := rawDimensions exif in
  let py := placed_at (shape0 a) (rows rawDims) (re_vertalign args) in
  let px := placed_at (shape1 a) (columns rawDims) (re_horzalign args) in
  (py <=? r)%nat && (r <? py + kept (shape0 a) (rows rawDims))%nat
  && ((px <=? c)%nat && (c <? px + kept (shape1 a) (columns rawDims))%nat).

(** The input sample that lands on a covered site. *)
Definition source_sample (exif : Exif) (args : Args) (a : array2) (r c : nat) : Z :=
  let rawDims := rawDimensions exif in
  let py := placed_at (shape0 a) (rows rawDims) (re_vertalign args) in
  let px := placed_at (shape1 a) (columns rawDims) (re_horzalign args) in
  let sy := kept_from (shape0 a) (rows rawDims) (re_vertalign args) in
  let sx := kept_from (shape1 a) (columns rawDims) (re_horzalign args) in
  nth (sx + (c - px)) (nth (sy + (r - py)) a []) 0.

(** The plane built from a validated 2-D input: the input samples as
    they are on the covered sites, the black level elsewhere. *)
Lemma processBayeredPlane_places (exif : Exif) (args : Args) (a : array2)
      (log : list LogMsg) :
  0 <= columns (rawDimensions exif) -> 0 <= rows (rawDimensions exif) ->
  axis_ok (shape1 a) (columns (rawDimensions exif)) (re_horzalign args) ->
  axis_ok (shape0 a) (rows (rawDimensions exif)) (re_vertalign args) ->
  validateBayeredNpyData exif (Nd2 a) = Returned (false, log) ->
  exists plane log',
    processBayeredPlane (F := Q) exif args a = Returned (None, Some plane, log ++ log') /\
    length plane = Z.to_nat (rows (rawDimensions exif)) /\
    (forall r, (r < Z.to_nat (rows (rawDimensions exif)))%nat ->
               length (nth r plane []) = Z.to_nat (columns (rawDimensions exif))) /\
    (forall r c,
        (r < Z.to_nat (rows (rawDimensions exif)))%nat ->
        (c < Z.to_nat (columns (rawDimensions exif)))%nat ->
        nth c (nth r plane []) 0
        = if covered exif args a r c then source_sample exif args a r c
          else blackLevel exif).
Proof.
  intros HC HR Hokx Hoky Hval.
  unfold processBayeredPlane. rewrite Hval. cbn [obind].
  rewrite npyPlacement_spec. cbn [obind pos_x pos_y startx starty endx endy].
  unfold covered, source_sample, placed_at, kept_from, kept.
  destruct (rawDimensions exif) as [C R]. cbn [columns rows] in *.
  assert (Hw : 0 <= shape1 a) by (unfold shape1; destruct a; lia).
  assert (Hh : 0 <= shape0 a) by (unfold shape0; lia).
  destruct (axis_plan _ _ _ Hw HC Hokx) as (px & sx & nx & Hpx & Hcx & Hnx & ? & ? & ? & ? & Hxa).
  destruct (axis_plan _ _ _ Hh HR Hoky) as (py & sy & ny & Hpy & Hcy & Hny & ? & ? & ? & ? & Hya).
  rewrite Hpx, Hpy, Hcx, Hcy. cbn [fst snd]. rewrite <- Hnx, <- Hny.
  assert (Hlen_a : Z.of_nat (length a) = shape0 a) by reflexivity.
  rewrite (py_slice_unit (length a) sy (sy + ny)) by lia.
  rewrite (py_slice_unit (Z.to_nat (shape1 a)) sx (sx + nx)) by lia.
  rewrite (py_slice_unit (Z.to_nat R) py (py + (sy + ny))) by lia.
  rewrite (py_slice_unit (Z.to_nat C) px (px + (sx + nx))) by lia.
  replace (Z.to_nat (Z.min (sy + ny) (Z.of_nat (length a)) - sy)) with (Z.to_nat ny) by lia.
  replace (Z.to_nat (Z.min (sx + nx) (Z.of_nat (Z.to_nat (shape1 a))) - sx))
    with (Z.to_nat nx) by lia.
  replace (Z.to_nat (Z.min (py + (sy + ny)) (Z.of_nat (Z.to_nat R)) - py))
    with (Z.to_nat ny) by lia.
  replace (Z.to_nat (Z.min (px + (sx + nx)) (Z.of_nat (Z.to_nat C)) - px))
    with (Z.to_nat nx) by lia.
  cbn [count].
  set (ys := mk_slice (Z.to_nat py) (Z.to_nat ny) 1).
  set (xs := mk_slice (Z.to_nat px) (Z.to_nat nx) 1).
  set (v := getitem2 0 a (mk_slice (Z.to_nat sy) (Z.to_nat ny) 1)
                     (mk_slice (Z.to_nat sx) (Z.to_nat nx) 1)).
  destruct (setitem2_same_shape 0 (full R C (blackLevel exif)) ys xs v)
    as (plane & Hplane & Hlen & Hrows & Hnth).
  cbn [count ys xs] in Hplane. rewrite Hplane. cbn [obind].
  assert (Hfull : length (full R C (blackLevel exif)) = Z.to_nat R)
    by (unfold full; apply repeat_length).
  eexists plane, _. split; [reflexivity|].
  split; [congruence|]. split.
  - intros r Hr. rewrite Hrows. apply length_nth_full. assumption.
  - intros r c Hr Hc.
    rewrite Hnth by (rewrite ?Hfull, ?length_nth_full; assumption).
    unfold ys, xs. rewrite !pos_in_unit.
    destruct ((Z.to_nat py <=? r)%nat && (r <? Z.to_nat py + Z.to_nat ny)%nat) eqn:Hy;
      cbn [andb]; [|apply nth_full; assumption].
    destruct ((Z.to_nat px <=? c)%nat && (c <? Z.to_nat px + Z.to_nat nx)%nat) eqn:Hx;
      [|apply nth_full; assumption].
    apply andb_true_iff in Hy. destruct Hy as [Hy1 Hy2].
    apply andb_true_iff in Hx. destruct Hx as [Hx1 Hx2].
    apply Nat.leb_le in Hy1, Hx1. apply Nat.ltb_lt in Hy2, Hx2.
    unfold v. rewrite nth_getitem2 by (cbn [count]; clear - Hy1 Hy2 Hx1 Hx2; lia).
    cbn [first stride]. rewrite !Nat.mul_1_r. reflexivity.
Qed.

Lemma amin_le (data : ndarray) (v : Z) :
  In v (elements data) -> exists m, amin data = Returned m /\ m <= v.
Proof.
  unfold amin. destruct (elements data) as [|x xs]; [intros []|].
  intros Hin. eexists. split; [reflexivity|].
  destruct (fold_min_le xs x) as [H1 H2].
  destruct Hin as [->|Hin]; [assumption | apply H2; assumption].
Qed.

Lemma amax_lt (data : ndarray) (v b : Z) :
  In v (elements data) -> (forall x, In x (elements data) -> x < b) ->
  exists m, amax data = Returned m /\ m < b.
Proof.
  unfold amax. destruct (elements data) as [|x xs]; [intros []|].
  intros _ Hall. eexists. split; [reflexivity|].
  apply fold_max_lt.
  - apply Hall. left. reflexivity.
  - intros y Hy. apply Hall. right. assumption.
Qed.

(** Data below 2^14 pass the validation; the only thing it may print
    then is the warning about samples below the black level. *)
Lemma validate_accepts (exif : Exif) (data : ndarray) (v : Z) :
  In v (elements data) -> (forall x, In x (elements data) -> x < 2 ^ 14) ->
  exists log,
    validateBayeredNpyData exif data = Returned (false, log) /\
    (log = [] \/ log = [W_PixelsBelowBlackLevel (blackLevel exif)]).
Proof.
  intros Hin Hall. unfold validateBayeredNpyData.
  destruct (amax_lt data v _ Hin Hall) as (m & Hm & Hlt). rewrite Hm. cbn [obind].
  destruct (Z.geb_spec m (2 ^ 14)); [lia|].
  destruct (blackLevel exif >? 0).
  - destruct (amin_le data v Hin) as (mn & Hmn & _). rewrite Hmn. cbn [obind].
    destruct (mn <? blackLevel exif); eexists; split; try reflexivity; auto.
  - eexists. split; [reflexivity|]. left. reflexivity.
Qed.

Lemma validate_warns (exif : Exif) (data : ndarray) (v : Z) :
  In v (elements data) -> v < blackLevel exif -> 0 < blackLevel exif ->
  (forall x, In x (elements data) -> x < 2 ^ 14) ->
  validateBayeredNpyData exif data
  = Returned (false, [W_PixelsBelowBlackLevel (blackLevel exif)]).
Proof.
  intros Hin Hv Hbl Hall. unfold validateBayeredNpyData.
  destruct (amax_lt data v _ Hin Hall) as (m & Hm & Hlt). rewrite Hm. cbn [obind].
  destruct (Z.geb_spec m (2 ^ 14)); [lia|].
  destruct (Z.gtb_spec (blackLevel exif) 0); [|lia].
  destruct (amin_le data v Hin) as (mn & Hmn & Hle). rewrite Hmn. cbn [obind].
  destruct (Z.ltb_spec mn (blackLevel exif)); [reflexivity | lia].
Qed.

(** *** The four-channel form *)

(** A slice of step 2 from [d + p] that stops where [2m] kept indices
    end: [m] indices, from [p + d] on when there are any. *)
Lemma py_slice_step2 (n : nat) (p m d hi : Z) :
  0 <= p -> 0 <= m -> 0 <= d <= 1 -> 0 <= hi ->
  p + 2 * m <= Z.of_nat n -> Z.min hi (Z.of_nat n) = p + 2 * m ->
  exists f,
    py_slice n (d + p) hi 2 = mk_slice f (Z.to_nat m) 2 /\
    (0 < m -> f = (Z.to_nat p + Z.to_nat d)%nat).
Proof.
  intros Hp Hm Hd Hhi Hfit Hstop. unfold py_slice, clamp_index.
  destruct (Z.ltb_spec (d + p) 0); [lia|]. destruct (Z.ltb_spec hi 0); [lia|].
  rewrite Hstop. exists (Z.to_nat (Z.min (d + p) (Z.of_nat n))).
  split; [|intros Hpos; lia].
  f_equal. change (Z.of_nat 2) with 2. f_equal.
  Z.to_euclidean_division_equations. lia.
Qed.

(** Axes on which the four channel planes, taken as a bayered image of
    twice their size, are placed whole or cropped to a target of even
    extent. *)
Definition channel_axis_ok (s t : Z) (al : Alignment) : Prop :=
  axis_ok (s * 2) t al /\ (s * 2 <= t \/ Z.even t = true).

Lemma channel_axis_kept (s t : Z) (al : Alignment) :
  0 <= s -> 0 <= t -> channel_axis_ok s t al ->
  exists m, Z.min (s * 2) t = 2 * m /\ 0 <= m.
Proof.
  intros Hs Ht [_ [Hle|Hev]].
  - exists s. lia.
  - apply Z.even_spec in Hev. destruct Hev as [k Hk].
    destruct (Z.le_gt_cases (s * 2) t); [exists s | exists k]; lia.
Qed.

(** The plane built from a validated four-channel input: cell [(i, j)]
    of the kept window lands on the 2x2 block at [(py + 2i, px + 2j)],
    channel [2 dy + dx] at offset [(dy, dx)], each sample as it is. *)
Lemma processBayerChannels_places (exif : Exif) (args : Args) (a : array3)
      (log : list LogMsg) :
  0 <= columns (rawDimensions exif) -> 0 <= rows (rawDimensions exif) ->
  channel_axis_ok (shape1 a) (columns (rawDimensions exif)) (re_horzalign args) ->
  channel_axis_ok (shape0 a) (rows (rawDimensions exif)) (re_vertalign args) ->
  validateBayeredNpyData exif (Nd3 a) = Returned (false, log) ->
  exists plane log',
    processBayerChannels (F := Q) exif args a = Returned (None, Some plane, log ++ log') /\
    length plane = Z.to_nat (rows (rawDimensions exif)) /\
    (forall r, (r < Z.to_nat (rows (rawDimensions exif)))%nat ->
               length (nth r plane []) = Z.to_nat (columns (rawDimensions exif))) /\
    (forall i j dy dx,
        let rawDims := rawDimensions exif in
        let py := placed_at (shape0 a * 2) (rows rawDims) (re_vertalign args) in
        let px := placed_at (shape1 a * 2) (columns rawDims) (re_horzalign args) in
        let sy := (kept_from (shape0 a * 2) (rows rawDims) (re_vertalign args) / 2)%nat in
        let sx := (kept_from (shape1 a * 2) (columns rawDims) (re_horzalign args) / 2)%nat in
        (dy <= 1)%nat -> (dx <= 1)%nat ->
        (i < kept (shape0 a * 2) (rows rawDims) / 2)%nat ->
        (j < kept (shape1 a * 2) (columns rawDims) / 2)%nat ->
        nth (px + 2 * j + dx) (nth (py + 2 * i + dy) plane []) 0
        = nth (2 * dy + dx) (nth (sx + j) (nth (sy + i) a []) []) 0).
Proof.
  intros HC HR Hchx Hchy Hval.
  assert (Hw : 0 <= shape1 a) by (unfold shape1; destruct a; lia).
  assert (Hh : 0 <= shape0 a) by (unfold shape0; lia).
  destruct (channel_axis_kept _ _ _ Hw HC Hchx) as (mx & Hmx & Hmx0).
  destruct (channel_axis_kept _ _ _ Hh HR Hchy) as (my & Hmy & Hmy0).
  destruct Hchx as [Hokx _]. destruct Hchy as [Hoky _].
  unfold processBayerChannels. rewrite Hval. cbn [obind].
  rewrite npyPlacement_spec. cbn [obind pos_x pos_y startx starty endx endy].
  unfold placed_at, kept_from, kept.
  destruct (rawDimensions exif) as [C R]. cbn [columns rows] in *.
  assert (Hw2 : 0 <= shape1 a * 2) by lia.
  assert (Hh2 : 0 <= shape0 a * 2) by lia.
  destruct (axis_plan _ _ _ Hw2 HC Hokx)
    as (px & sx & nx & Hpx & Hcx & Hnx & Hpx0 & Hpxn & Hsx0 & Hsxn & Hxa).
  destruct (axis_plan _ _ _ Hh2 HR Hoky)
    as (py & sy & ny & Hpy & Hcy & Hny & Hpy0 & Hpyn & Hsy0 & Hsyn & Hya).
  rewrite Hpx, Hpy, Hcx, Hcy. cbn [fst snd]. rewrite Hmx, Hmy.
  rewrite Hmx in Hnx. rewrite Hmy in Hny. subst nx ny.
  clear Hpx Hpy Hcx Hcy Hmx Hmy Hokx Hoky Hval.
  assert (Hlen_a : Z.of_nat (length a) = shape0 a) by reflexivity.
  cbv beta zeta.
  (* the source slices: [m] cells from [s / 2] on *)
  assert (Hsrc : forall s m n : Z,
             0 <= s -> 0 <= m -> s + 2 * m <= n * 2 ->
             0 <= s / 2 <= n /\ s / 2 <= (s + 2 * m) / 2 /\
             Z.min ((s + 2 * m) / 2) n - s / 2 = m).
  { clear. intros s m n Hs Hm Hn. Z.to_euclidean_division_equations. lia. }
  destruct (Hsrc sy my (shape0 a) Hsy0 Hmy0 Hsyn) as (Hy1 & Hy2 & Hy3).
  destruct (Hsrc sx mx (shape1 a) Hsx0 Hmx0 Hsxn) as (Hx1 & Hx2 & Hx3).
  rewrite (py_slice_unit (length a) (sy / 2) ((sy + 2 * my) / 2))
    by (rewrite ?Hlen_a; assumption).
  rewrite (py_slice_unit (Z.to_nat (shape1 a)) (sx / 2) ((sx + 2 * mx) / 2))
    by (rewrite ?Z2Nat.id by assumption; assumption).
  rewrite Hlen_a, (Z2Nat.id (shape1 a)) by assumption.
  rewrite Hy3, Hx3.
  (* the destination slices: [m] sites from [p + d] on, two apart *)
  assert (Hdst : forall p s m t : Z,
             0 <= t -> 0 <= p -> 0 <= s -> 0 <= m -> p + 2 * m <= t ->
             s = 0 \/ (p = 0 /\ 2 * m = t) ->
             0 <= p + (s + 2 * m) /\ p + 2 * m <= Z.of_nat (Z.to_nat t) /\
             Z.min (p + (s + 2 * m)) (Z.of_nat (Z.to_nat t)) = p + 2 * m).
  { clear. intros p s m t Ht Hp Hs Hm Hfit Hor. lia. }
  destruct (Hdst py sy my R HR Hpy0 Hsy0 Hmy0 Hpyn Hya) as (Hty1 & Hty2 & Hty3).
  destruct (Hdst px sx mx C HC Hpx0 Hsx0 Hmx0 Hpxn Hxa) as (Htx1 & Htx2 & Htx3).
  assert (H01 : 0 <= 0 <= 1) by (clear; lia).
  assert (H11 : 0 <= 1 <= 1) by (clear; lia).
  destruct (py_slice_step2 (Z.to_nat R) py my 0 (py + (sy + 2 * my))
                           Hpy0 Hmy0 H01 Hty1 Hty2 Hty3) as (fy0 & Hy0 & Hfy0).
  destruct (py_slice_step2 (Z.to_nat R) py my 1 (py + (sy + 2 * my))
                           Hpy0 Hmy0 H11 Hty1 Hty2 Hty3) as (fy1 & Hy1' & Hfy1).
  destruct (py_slice_step2 (Z.to_nat C) px mx 0 (px + (sx + 2 * mx))
                           Hpx0 Hmx0 H01 Htx1 Htx2 Htx3) as (fx0 & Hx0 & Hfx0).
  destruct (py_slice_step2 (Z.to_nat C) px mx 1 (px + (sx + 2 * mx))
                           Hpx0 Hmx0 H11 Htx1 Htx2 Htx3) as (fx1 & Hx1' & Hfx1).
  rewrite Hy0, Hy1', Hx0, Hx1'. cbn [count].
  clear Hy0 Hy1' Hx0 Hx1' Hsrc Hdst Hy1 Hy2 Hy3 Hx1 Hx2 Hx3 Hty1 Hty3 Htx1 Htx3.
  set (src_ys := mk_slice (Z.to_nat (sy / 2)) (Z.to_nat my) 1).
  set (src_xs := mk_slice (Z.to_nat (sx / 2)) (Z.to_nat mx) 1).
  set (p0 := full R C (blackLevel exif)).
  destruct (setitem2_same_shape 0 p0 (mk_slice fy0 (Z.to_nat my) 2)
              (mk_slice fx0 (Z.to_nat mx) 2) (getitem3 a src_ys src_xs 0))
    as (p1 & E1 & L1 & W1 & N1).
  cbn [count] in E1. rewrite E1. cbn [obind].
  destruct (setitem2_same_shape 0 p1 (mk_slice fy0 (Z.to_nat my) 2)
              (mk_slice fx1 (Z.to_nat mx) 2) (getitem3 a src_ys src_xs 1))
    as (p2 & E2 & L2 & W2 & N2).
  cbn [count] in E2. rewrite E2. cbn [obind].
  destruct (setitem2_same_shape 0 p2 (mk_slice fy1 (Z.to_nat my) 2)
              (mk_slice fx0 (Z.to_nat mx) 2) (getitem3 a src_ys src_xs 2))
    as (p3 & E3 & L3 & W3 & N3).
  cbn [count] in E3. rewrite E3. cbn [obind].
  destruct (setitem2_same_shape 0 p3 (mk_slice fy1 (Z.to_nat my) 2)
              (mk_slice fx1 (Z.to_nat mx) 2) (getitem3 a src_ys src_xs 3))
    as (p4 & E4 & L4 & W4 & N4).
  cbn [count] in E4. rewrite E4. cbn [obind].
  clear E1 E2 E3 E4.
  assert (L0 : length p0 = Z.to_nat R) by (unfold p0, full; apply repeat_length).
  assert (W0 : forall r, (r < Z.to_nat R)%nat -> length (nth r p0 []) = Z.to_nat C)
    by (intros r Hr; apply length_nth_full; assumption).
  eexists p4, _. split; [reflexivity|].
  split; [congruence|]. split.
  - intros r Hr. rewrite W4, W3, W2, W1. apply W0. assumption.
  - intros i j dy dx Hdy Hdx Hi Hj.
    assert (Hhalf : forall m, 0 <= m -> (Z.to_nat (2 * m) / 2 = Z.to_nat m)%nat).
    { clear. intros m Hm.
      replace (Z.to_nat (2 * m)) with (Z.to_nat m * 2)%nat by lia.
      apply Nat.div_mul. discriminate. }
    rewrite (Hhalf my Hmy0) in Hi. rewrite (Hhalf mx Hmx0) in Hj.
    assert (Hfrom : forall s, 0 <= s -> (Z.to_nat s / 2)%nat = Z.to_nat (s / 2)).
    { clear. intros s Hs. apply Nat2Z.inj.
      rewrite Nat2Z.inj_div, !Z2Nat.id; try lia. apply Z.div_pos; lia. }
    rewrite (Hfrom sy Hsy0), (Hfrom sx Hsx0).
    assert (Hmy1 : 0 < my) by (clear - Hi; lia).
    assert (Hmx1 : 0 < mx) by (clear - Hj; lia).
    rewrite (Hfy0 Hmy1), (Hfx0 Hmx1) in N1.
    rewrite (Hfy0 Hmy1), (Hfx1 Hmx1) in N2.
    rewrite (Hfy1 Hmy1), (Hfx0 Hmx1) in N3.
    rewrite (Hfy1 Hmy1), (Hfx1 Hmx1) in N4.
    change (Z.to_nat 0) with 0%nat in *. change (Z.to_nat 1) with 1%nat in *.
    set (r := (Z.to_nat py + 2 * i + dy)%nat).
    set (c := (Z.to_nat px + 2 * j + dx)%nat).
    assert (Hr : (r < Z.to_nat R)%nat) by (unfold r; clear - Hi Hdy Hpy0 Hmy0 Hpyn; lia).
    assert (Hc : (c < Z.to_nat C)%nat) by (unfold c; clear - Hj Hdx Hpx0 Hmx0 Hpxn; lia).
    assert (Hc0 : (c < length (nth r p0 []))%nat) by (rewrite W0; assumption).
    rewrite N4 by (rewrite ?W3, ?W2, ?W1; congruence).
    rewrite N3 by (rewrite ?W2, ?W1; congruence).
    rewrite N2 by (rewrite ?W1; congruence).
    rewrite N1 by congruence.
    unfold r, c.
    rewrite !(pos_in_step2 (Z.to_nat py) (Z.to_nat my) i dy)
      by (first [assumption | clear; lia]).
    rewrite !(pos_in_step2 (Z.to_nat px) (Z.to_nat mx) j dx)
      by (first [assumption | clear; lia]).
    destruct dy as [|[|dy]]; [| |clear - Hdy; lia];
      (destruct dx as [|[|dx]]; [| |clear - Hdx; lia]);
      cbn [Nat.eqb]; rewrite nth_getitem3 by (cbn [count]; assumption);
      cbn [first stride src_ys src_xs]; rewrite !Nat.mul_1_r; reflexivity.
Qed.

(** *** What the validation lets through *)

Lemma fold_max_in (xs : list Z) :
  forall x, In (fold_left Z.max xs x) (x :: xs).
Proof.
  induction xs as [|y ys IH]; intros x; cbn [fold_left]; [left; reflexivity|].
  destruct (IH (Z.max x y)) as [Heq|Hin].
  - destruct (Z.max_spec x y) as [[_ Hm]|[_ Hm]]; rewrite Hm in *.
    + right. left. exact Heq.
    + left. exact Heq.
  - right. right. assumption.
Qed.

(** The validation fails only on the error about samples of 2^14 or
    more, and then the data hold such a sample. *)
Lemma validate_rejects_only_large (exif : Exif) (data : ndarray) (log : list LogMsg) :
  validateBayeredNpyData exif data = Returned (true, log) ->
  log = [E_PixelsTooLarge] /\ exists x, In x (elements data) /\ 2 ^ 14 <= x.
Proof.
  unfold validateBayeredNpyData, amax.
  destruct (elements data) as [|x xs] eqn:Hel; [discriminate|]. cbn [obind].
  destruct (Z.geb_spec (fold_left Z.max xs x) (2 ^ 14)) as [Hge|Hlt].
  - intros Heq. inversion Heq. split; [reflexivity|].
    exists (fold_left Z.max xs x). split; [apply fold_max_in | assumption].
  - destruct (blackLevel exif >? 0); [|discriminate].
    destruct (amin data) as [mn|e]; cbn [obind]; [|discriminate].
    destruct (mn <? blackLevel exif); discriminate.
Qed.

(** The pre-bayered inputs whose placement is worked out above: a plane
    on axes where it fits or is cropped to the target, four channels on
    axes where they fit or are cropped to an even target. *)
Definition placeable (exif : Exif) (args : Args) (data : ndarray) : Prop :=
  let rawDims := rawDimensions exif in
  match data with
  | Nd2 a =>
      axis_ok (shape1 a) (columns rawDims) (re_horzalign args) /\
      axis_ok (shape0 a) (rows rawDims) (re_vertalign args)
  | Nd3 a =>
      shape2 a = 4 /\
      channel_axis_ok (shape1 a) (columns rawDims) (re_horzalign args) /\
      channel_axis_ok (shape0 a) (rows rawDims) (re_vertalign args)
  | NdOther _ => False
  end.

(** Every input sample that is kept stands in the plane as it is: cell
    [(i, j)] of the kept window of a plane at [(py + i, px + j)], and
    channel [2 dy + dx] of cell [(i, j)] of the kept window of a
    four-channel input at [(py + 2i + dy, px + 2j + dx)]. *)
Definition unmodified_in (exif : Exif) (args : Args) (data : ndarray) (plane : array2)
  : Prop :=
  match data with
  | Nd2 a =>
      forall i j,
        let rawDims := rawDimensions exif in
        let py := placed_at (shape0 a) (rows rawDims) (re_vertalign args) in
        let px := placed_at (shape1 a) (columns rawDims) (re_horzalign args) in
        let sy := kept_from (shape0 a) (rows rawDims) (re_vertalign args) in
        let sx := kept_from (shape1 a) (columns rawDims) (re_horzalign args) in
        (i < kept (shape0 a) (rows rawDims))%nat ->
        (j < kept (shape1 a) (columns rawDims))%nat ->
        nth (px + j) (nth (py + i) plane []) 0 = nth (sx + j) (nth (sy + i) a []) 0
  | Nd3 a =>
      forall i j dy dx,
        let rawDims := rawDimensions exif in
        let py := placed_at (shape0 a * 2) (rows rawDims) (re_vertalign args) in
        let px := placed_at (shape1 a * 2) (columns rawDims) (re_horzalign args) in
        let sy := (kept_from (shape0 a * 2) (rows rawDims) (re_vertalign args) / 2)%nat in
        let sx := (kept_from (shape1 a * 2) (columns rawDims) (re_horzalign args) / 2)%nat in
        (dy <= 1)%nat -> (dx <= 1)%nat ->
        (i < kept (shape0 a * 2) (rows rawDims) / 2)%nat ->
        (j < kept (shape1 a * 2) (columns rawDims) / 2)%nat ->
        nth (px + 2 * j + dx) (nth (py + 2 * i + dy) plane []) 0
        = nth (2 * dy + dx) (nth (sx + j) (nth (sy + i) a []) []) 0
  | NdOther _ => True
  end.

Lemma processBayeredPlane_unmodified (exif : Exif) (args : Args) (a : array2)
      (log : list LogMsg) :
  0 <= columns (rawDimensions exif) -> 0 <= rows (rawDimensions exif) ->
  axis_ok (shape1 a) (columns (rawDimensions exif)) (re_horzalign args) ->
  axis_ok (shape0 a) (rows (rawDimensions exif)) (re_vertalign args) ->
  validateBayeredNpyData exif (Nd2 a) = Returned (false, log) ->
  exists plane log',
    processBayeredPlane (F := Q) exif args a = Returned (None, Some plane, log ++ log') /\
    unmodified_in exif args (Nd2 a) plane.
Proof.
  intros HC HR Hokx Hoky Hval.
  destruct (processBayeredPlane_places exif args a log HC HR Hokx Hoky Hval)
    as (plane & log' & Hrun & _ & _ & Hnth).
  exists plane, log'. split; [exact Hrun|].
  assert (Hw : 0 <= shape1 a) by (unfold shape1; destruct a; lia).
  assert (Hh : 0 <= shape0 a) by (unfold shape0; lia).
  intros i j rawDims py px sy sx Hi Hj. subst rawDims.
  destruct (axis_plan _ _ _ Hw HC Hokx) as (px' & sx' & nx & Hpx & Hcx & Hnx & ? & ? & ? & ? & _).
  destruct (axis_plan _ _ _ Hh HR Hoky) as (py' & sy' & ny & Hpy & Hcy & Hny & ? & ? & ? & ? & _).
  assert (Epy : py = Z.to_nat py') by (unfold py, placed_at; now rewrite Hpy).
  assert (Epx : px = Z.to_nat px') by (unfold px, placed_at; now rewrite Hpx).
  unfold kept in Hi, Hj. rewrite <- Hny in Hi. rewrite <- Hnx in Hj.
  rewrite Hnth by lia.
  unfold covered, source_sample. fold py px sy sx.
  unfold kept. rewrite <- Hny, <- Hnx.
  replace ((py <=? py + i)%nat && (py + i <? py + Z.to_nat ny)%nat
           && ((px <=? px + j)%nat && (px + j <? px + Z.to_nat nx)%nat))
    with true.
  - f_equal; [|f_equal]; lia.
  - symmetry. rewrite !andb_true_iff, !Nat.leb_le, !Nat.ltb_lt. lia.
Qed.

Section OnExactArithmetic.
Variable sourceOps : Pixel.Image16 -> outcome Pixel.Image16.
Variable cvtColor_gray : array3 -> array2.
Variable powf : Pixel.f32 -> Pixel.f32 -> Pixel.f32.
Variable NefEncode : Z -> Z -> Z -> array2 -> option bytes.
Variable imdecode_dimensions : bytes -> option Dimensions.
Variable encode_jpeg : Pixel.Image16 -> Dimensions -> Z -> bytes.
Variable encode_placeholder : Dimensions -> string -> bytes.
Variable to_image8 : Exif -> Pixel.Image16 -> Pixel.Image16.

Local Abbreviation processSourceNumpy :=
  (processSourceNumpy (F := Q) sourceOps cvtColor_gray powf).
Local Abbreviation run :=
  (run (F := Q) sourceOps cvtColor_gray powf NefEncode imdecode_dimensions encode_jpeg
       encode_placeholder to_image8).

(** C2, as the code has it. An accepted 2-D uint16 input (all samples
    below 2^14) on axes where it fits or is cropped to the target: the
    pixel pipeline is skipped and no black level is added to the
    samples. The plane has the raw dimensions; a site covered by the
    input holds the input sample unchanged, and every other site holds
    the black level. *)
Theorem prebayered_plane_keeps_samples (exif : Exif) (args : Args) (a : array2) (v : Z) :
  In v (concat a) ->
  (forall x, In x (concat a) -> x < 2 ^ 14) ->
  0 <= columns (rawDimensions exif) -> 0 <= rows (rawDimensions exif) ->
  axis_ok (shape1 a) (columns (rawDimensions exif)) (re_horzalign args) ->
  axis_ok (shape0 a) (rows (rawDimensions exif)) (re_vertalign args) ->
  exists plane log,
    processSourceNumpy exif args (Some (mkNpy true (Nd2 a)))
    = Returned (None, Some plane, log) /\
    length plane = Z.to_nat (rows (rawDimensions exif)) /\
    (forall r, (r < Z.to_nat (rows (rawDimensions exif)))%nat ->
               length (nth r plane []) = Z.to_nat (columns (rawDimensions exif))) /\
    (forall r c,
        (r < Z.to_nat (rows (rawDimensions exif)))%nat ->
        (c < Z.to_nat (columns (rawDimensions exif)))%nat ->
        nth c (nth r plane []) 0
        = if covered exif args a r c then source_sample exif args a r c
          else blackLevel exif).
Proof.
  intros Hin Hall HC HR Hokx Hoky.
  destruct (validate_accepts exif (Nd2 a) v Hin Hall) as (log & Hval & _).
  destruct (processBayeredPlane_places exif args a log HC HR Hokx Hoky Hval)
    as (plane & log' & Hrun & Hlen & Hrows & Hnth).
  exists plane, (log ++ log').
  split; [exact Hrun|]. split; [exact Hlen|]. split; [exact Hrows | exact Hnth].
Qed.

(** Whatever the source processing hands over is what the encoder is
    called with, after the messages of the processing. *)
Lemma run_calls_encoder (exif : Exif) (args : Args) (fs : Assembler.Files)
      (file : SourceFile) (image : option Pixel.Image16) (plane : array2)
      (log : list LogMsg) :
  processSourceFile (F := Q) sourceOps cvtColor_gray powf exif args file
  = Returned (image, Some plane, log) ->
  exists rest ending,
    run exif args fs file = (map Print log ++ CallNefEncode plane :: rest, ending).
Proof.
  intros Hp. unfold Driver.run. rewrite Hp.
  destruct (src_EncodeToNikonLossless NefEncode exif plane) as [enc|].
  - destruct (Z.quot _ 8 =? 0).
    + exists [], (Raised ZeroDivisionError). reflexivity.
    + destruct (Assembler.writeOutputNEF _ _ _ _ _ _ _ _ _) as [[[fail written] log2]|e].
      * destruct fail; eexists _, _; rewrite <- !app_assoc; reflexivity.
      * exists [], (Raised e). reflexivity.
  - eexists _, _. rewrite <- !app_assoc. reflexivity.
Qed.


End OnExactArithmetic.

(** *** A small donor and a 2x2 pre-bayered input *)

Definition exif_npy (C R : Z) : Exif :=
  {| endian := LITTLE;
     rawDimensions := mkDimensions C R;
     bitsPerSample := 14;
     stripOffset := 8;
     stripByteCount := 5;
     fileOffsetToStripByteCount := 2;
     wbMultipliers := mkWhiteBalanceMultipliers PixelFacts.two PixelFacts.two;
     nefCompressionType := 3;
     blackLevel := 1008;
     predValueNefCompression := 2048;
     cropAreaDimensions := None;
     embeddedJpgs := [] |}.

Definition args_npy : Args :=
  {| re_geometry := FULL;
     re_maintainaspectratio := true;
     re_horzalign := CENTER;
     re_vertalign := CENTER;
     src_srgbtolinear := true;
     src_wbmultipliers := None;
     src_grayscale := false |}.

Definition files_npy : Assembler.Files :=
  {| Assembler.templatenef := Some AssemblerFacts.donor_small;
     Assembler.outputFilename := Some "out.NEF"%string;
     Assembler.writable := true |}.

Definition plane_npy : array2 := [[0; 16383]; [1200; 2000]].

Definition id_sourceOps (image : Pixel.Image16) : outcome Pixel.Image16 := Returned image.
(** A stand-in for the encoder: one byte per row. *)
Definition demo_NefEncode (_ _ _ : Z) (plane : array2) : option bytes :=
  Some (map (fun _ => x5a) plane).
Definition demo_imdecode (_ : bytes) : option Dimensions := None.
Definition demo_encode_jpeg (_ : Pixel.Image16) (_ : Dimensions) (_ : Z) : bytes := [].
Definition demo_encode_placeholder (_ : Dimensions) (_ : string) : bytes := [].
Definition demo_to_image8 (_ : Exif) (i : Pixel.Image16) : Pixel.Image16 := i.

(** The run of the source on binary64: same size, then padded. *)
Example run_npy_same_size :
  run (F := spec_float) id_sourceOps PixelFacts.no_cvtColor PixelFacts.no_powf demo_NefEncode
      demo_imdecode demo_encode_jpeg demo_encode_placeholder demo_to_image8
      (exif_npy 2 2) args_npy files_npy (NpyFile (Some (mkNpy true (Nd2 plane_npy))))
  = ([Print (W_PixelsBelowBlackLevel 1008);
      CallNefEncode [[0; 16383]; [1200; 2000]];
      Print W_NoImageForEmbeddedJpgs;
      WriteFile [x49; x49; x02; x00; x00; x00; x2a; x00; x5a; x5a]],
     Returned false).
Proof. reflexivity. Qed.

Example processSourceNumpy_padded :
  processSourceNumpy (F := spec_float) id_sourceOps PixelFacts.no_cvtColor PixelFacts.no_powf
                     (exif_npy 4 4) args_npy (Some (mkNpy true (Nd2 plane_npy)))
  = Returned (None,
              Some [[1008; 1008; 1008; 1008];
                    [1008; 0; 16383; 1008];
                    [1008; 1200; 2000; 1008];
                    [1008; 1008; 1008; 1008]],
              [W_PixelsBelowBlackLevel 1008; V_ResizedNumpyInput]).
Proof. reflexivity. Qed.

(** Four channels of one cell, centred on a 4x4 raw frame: the cell
    becomes a 2x2 block of the plane. *)
Example processSourceNumpy_channels :
  processSourceNumpy (F := spec_float) id_sourceOps PixelFacts.no_cvtColor PixelFacts.no_powf
                     (exif_npy 4 4) args_npy
                     (Some (mkNpy true (Nd3 [[[100; 200; 300; 400]]])))
  = Returned (None,
              Some [[1008; 1008; 1008; 1008];
                    [1008; 100; 200; 1008];
                    [1008; 300; 400; 1008];
                    [1008; 1008; 1008; 1008]],
              [W_PixelsBelowBlackLevel 1008]).
Proof. reflexivity. Qed.

(** C2 as stated fails on the scenario of the specification: samples in
    [0, 16383], black level 1008, input of the raw size. The plane is
    the input; 1008 is added nowhere. *)
Lemma prebayered_samples_are_not_biased :
  processSourceNumpy (F := spec_float) id_sourceOps PixelFacts.no_cvtColor PixelFacts.no_powf
                     (exif_npy 2 2) args_npy (Some (mkNpy true (Nd2 plane_npy)))
  = Returned (None, Some plane_npy, [W_PixelsBelowBlackLevel 1008]) /\
  processSourceNumpy (F := Q) id_sourceOps PixelFacts.no_cvtColor PixelFacts.no_powf
                     (exif_npy 2 2) args_npy (Some (mkNpy true (Nd2 plane_npy)))
  = Returned (None, Some plane_npy, [W_PixelsBelowBlackLevel 1008]) /\
  ~ (forall plane log,
        processSourceNumpy (F := spec_float) id_sourceOps PixelFacts.no_cvtColor
                           PixelFacts.no_powf (exif_npy 2 2) args_npy
                           (Some (mkNpy true (Nd2 plane_npy)))
        = Returned (None, Some plane, log) ->
        forall r c, (r < 2)%nat -> (c < 2)%nat ->
                    nth c (nth r plane []) 0
                    = nth c (nth r plane_npy []) 0 + blackLevel (exif_npy 2 2)).
Proof.
  split; [reflexivity|]. split; [reflexivity|].
  intros Hclaim.
  specialize (Hclaim _ _ eq_refl 0%nat 1%nat ltac:(lia) ltac:(lia)).
  cbn in Hclaim. discriminate Hclaim.
Qed.

Lemma prebayered_plane_keeps_samples_witness :
  exists plane log,
    processSourceNumpy (F := Q) id_sourceOps PixelFacts.no_cvtColor PixelFacts.no_powf
                       (exif_npy 4 4) args_npy (Some (mkNpy true (Nd2 plane_npy)))
    = Returned (None, Some plane, log) /\
    length plane = Z.to_nat (rows (rawDimensions (exif_npy 4 4))) /\
    (forall r, (r < Z.to_nat (rows (rawDimensions (exif_npy 4 4))))%nat ->
               length (nth r plane []) = Z.to_nat (columns (rawDimensions (exif_npy 4 4)))) /\
    (forall r c,
        (r < Z.to_nat (rows (rawDimensions (exif_npy 4 4))))%nat ->
        (c < Z.to_nat (columns (rawDimensions (exif_npy 4 4))))%nat ->
        nth c (nth r plane []) 0
        = if covered (exif_npy 4 4) args_npy plane_npy r c
          then source_sample (exif_npy 4 4) args_npy plane_npy r c
          else blackLevel (exif_npy 4 4)).
Proof.
  apply (prebayered_plane_keeps_samples id_sourceOps PixelFacts.no_cvtColor PixelFacts.no_powf
           (exif_npy 4 4) args_npy plane_npy 0).
  - cbn. left. reflexivity.
  - cbn. intros x Hx. repeat (destruct Hx as [<-|Hx]; [lia|]). destruct Hx.
  - cbn. lia.
  - cbn. lia.
  - left. cbn. lia.
  - left. cbn. lia.
Defined.


Lemma oversized_npy_aborts_witness :
  processSourceNumpy (F := spec_float) id_sourceOps PixelFacts.no_cvtColor PixelFacts.no_powf
                     (exif_npy 2 2) args_npy
                     (Some (mkNpy true (Nd2 [[5; 16384]; [7; 8]])))
  = Returned (None, None, [E_PixelsTooLarge]) /\
  run (F := spec_float) id_sourceOps PixelFacts.no_cvtColor PixelFacts.no_powf demo_NefEncode
      demo_imdecode demo_encode_jpeg demo_encode_placeholder demo_to_image8
      (exif_npy 2 2) args_npy files_npy
      (NpyFile (Some (mkNpy true (Nd2 [[5; 16384]; [7; 8]]))))
  = ([Print E_PixelsTooLarge], Returned true).
Proof.
  apply (oversized_npy_aborts id_sourceOps PixelFacts.no_cvtColor PixelFacts.no_powf
           demo_NefEncode demo_imdecode demo_encode_jpeg demo_encode_placeholder
           demo_to_image8 (exif_npy 2 2) args_npy files_npy
           (Nd2 [[5; 16384]; [7; 8]]) 16384).
  - exact I.
  - cbn. right. left. reflexivity.
  - lia.
Defined.

(** The four-channel form is refused in the same way. *)
Example oversized_channels_abort :
  run (F := spec_float) id_sourceOps PixelFacts.no_cvtColor PixelFacts.no_powf demo_NefEncode
      demo_imdecode demo_encode_jpeg demo_encode_placeholder demo_to_image8
      (exif_npy 2 2) args_npy files_npy
      (NpyFile (Some (mkNpy true (Nd3 [[[1; 2; 3; 20000]]]))))
  = ([Print E_PixelsTooLarge], Returned true).
Proof. reflexivity. Qed.

End DriverFacts.

(* ===================================================================== *)
(** ** The bayer phase: the range of the samples                          *)
(* ===================================================================== *)

Module RangeFacts.
Import Np NpFacts Pixel PixelFacts.
Local Open Scope Z_scope.

(** *** Rounding below a bound *)

(** Iterating [n] times a step that moves an invariant from [k] to
    [k + 1]. *)
Lemma iter_pos_invariant {A} (f : A -> A) (P : Z -> A -> Prop) :
  (forall k x, 0 <= k -> P k x -> P (k + 1) (f x)) ->
  forall n k x, 0 <= k -> P k x -> P (k + Zpos n) (iter_pos f n x).
Proof.
  intros Hstep. induction n as [n IH|n IH|]; intros k x Hk HP; cbn [iter_pos].
  - replace (k + Z.pos n~1) with (k + 1 + Z.pos n + Z.pos n) by lia.
    apply IH; [lia|]. apply IH; [lia|]. apply Hstep; assumption.
  - replace (k + Z.pos n~0) with (k + Z.pos n + Z.pos n) by lia.
    apply IH; [lia|]. apply IH; assumption.
  - apply Hstep; assumption.
Qed.

(** After [k] shifts of the record of [M] at location [l]: the mantissa
    is [M / 2^k], and the flags are clear if the location was exact and
    no bit was lost. *)
Definition shifted (M : Z) (l : location) (k : Z) (mrs : shr_record) : Prop :=
  shr_m mrs = M / 2 ^ k /\
  (l = loc_Exact -> M mod 2 ^ k = 0 -> shr_r mrs = false /\ shr_s mrs = false).

Lemma shifted_shr_1 (M : Z) (l : location) (k : Z) (mrs : shr_record) :
  0 <= M -> 0 <= k -> shifted M l k mrs -> shifted M l (k + 1) (shr_1 mrs).
Proof.
  intros HM Hk [Hm Hflags].
  assert (Hpow : 0 < 2 ^ k) by (apply Z.pow_pos_nonneg; lia).
  assert (Hpow1 : 2 ^ (k + 1) = 2 * 2 ^ k) by (rewrite Z.pow_add_r by lia; lia).
  assert (Hmpos : 0 <= shr_m mrs) by (rewrite Hm; apply Z.div_pos; lia).
  split.
  - rewrite shr_m_shr_1 by assumption. rewrite Hm, Hpow1.
    rewrite Z.div_div by lia. f_equal. lia.
  - intros Hl Hmod. rewrite Hpow1 in Hmod.
    assert (Hk0 : M mod 2 ^ k = 0).
    { apply Z.mod_divide in Hmod; [|lia]. destruct Hmod as [q Hq].
      apply Z.mod_divide; [lia|]. exists (q * 2). lia. }
    destruct (Hflags Hl Hk0) as [Hr Hs].
    assert (Heven : shr_m mrs mod 2 = 0).
    { apply Z.mod_divide in Hmod; [|lia]. destruct Hmod as [q Hq].
      rewrite Hm, Hq. replace (q * (2 * 2 ^ k)) with (q * 2 * 2 ^ k) by lia.
      rewrite Z.div_mul by lia. apply Z.mod_mul. lia. }
    destruct mrs as [m r s]. cbn [shr_m shr_r shr_s] in *. subst r s.
    destruct m as [|[p|p|]|p]; cbn [shr_1 shr_r shr_s orb]; try (split; reflexivity).
    + exfalso. rewrite Pos2Z.inj_xI in Heven.
      replace (2 * Z.pos p + 1) with (1 + Z.pos p * 2) in Heven by lia.
      rewrite Z.mod_add in Heven by lia. discriminate Heven.
    + discriminate Heven.
    + lia.
Qed.

Lemma shifted_shr (M : Z) (l : location) (e n : Z) :
  0 <= M ->
  shifted M l (Z.max n 0) (fst (shr (shr_record_of_loc M l) e n)) /\
  snd (shr (shr_record_of_loc M l) e n) = e + Z.max n 0.
Proof.
  intros HM.
  assert (H0 : shifted M l 0 (shr_record_of_loc M l)).
  { split.
    - destruct l as [|[| |]]; cbn; now rewrite Z.div_1_r.
    - intros -> _. split; reflexivity. }
  destruct n as [|p|p]; cbn [shr fst snd].
  - split; [exact H0 | lia].
  - replace (Z.max (Z.pos p) 0) with (0 + Z.pos p) by lia. split; [|lia].
    apply (iter_pos_invariant shr_1 (shifted M l)); [|lia|exact H0].
    intros k x Hk Hx. apply shifted_shr_1; assumption.
  - replace (Z.max (Z.neg p) 0) with 0 by lia. split; [exact H0 | lia].
Qed.

(** Rounding never passes an integer bound [Y] of the exact value, when
    an inexact location means that the value is strictly below it. *)
Lemma round_below (M : Z) (l : location) (k Y : Z) (mrs : shr_record) :
  0 <= M -> 0 <= k -> shifted M l k mrs ->
  M <= Y * 2 ^ k -> (l <> loc_Exact -> M < Y * 2 ^ k) ->
  0 <= round_nearest_even (shr_m mrs) (loc_of_shr_record mrs) <= Y.
Proof.
  intros HM Hk [Hm Hflags] HY HYl.
  assert (Hpow : 0 < 2 ^ k) by (apply Z.pow_pos_nonneg; lia).
  assert (Hm0 : 0 <= shr_m mrs) by (rewrite Hm; apply Z.div_pos; lia).
  pose proof (round_nearest_even_range (shr_m mrs) (loc_of_shr_record mrs)) as Hr.
  split; [lia|].
  pose proof (Z.div_mod M (2 ^ k) ltac:(lia)) as Hdm.
  pose proof (Z.mod_pos_bound M (2 ^ k) Hpow) as Hb.
  destruct (Z.eq_dec (M mod 2 ^ k) 0) as [Hex|Hin].
  - assert (Hl : l = loc_Exact \/ l <> loc_Exact)
      by (destruct l; [left; reflexivity | right; discriminate]).
    destruct Hl as [Hl|Hl].
    + destruct (Hflags Hl Hex) as [Hfr Hfs].
      destruct mrs as [m r s]. cbn [shr_r shr_s shr_m] in *. subst r s.
      cbn [loc_of_shr_record round_nearest_even].
      rewrite Hm. apply Z.div_le_upper_bound; lia.
    + specialize (HYl Hl).
      assert (Hlt : shr_m mrs < Y) by (rewrite Hm; nia).
      lia.
  - assert (Hlt : shr_m mrs < Y).
    { rewrite Hm. assert (2 ^ k * (M / 2 ^ k) < Y * 2 ^ k) by lia. nia. }
    lia.
Qed.

(** Digits: a number below [q * 2^j] has at most [j] digits more than [q]. *)
Lemma digits_le (p q : positive) (j : Z) :
  0 <= j -> Zpos p <= Zpos q * 2 ^ j ->
  Zpos (digits2_pos p) <= Zpos (digits2_pos q) + j.
Proof.
  intros Hj Hle.
  destruct (digits2_pos_spec p) as [Hlo _]. destruct (digits2_pos_spec q) as [_ Hhi].
  assert (Hpow : 0 < 2 ^ j) by (apply Z.pow_pos_nonneg; lia).
  assert (H : 2 ^ (Zpos (digits2_pos p) - 1) < 2 ^ (Zpos (digits2_pos q) + j)).
  { rewrite (Z.pow_add_r 2 (Zpos (digits2_pos q)) j) by lia. nia. }
  apply Z.pow_lt_mono_r_iff in H; lia.
Qed.

Lemma QZ_scale (m e k : Z) : 0 <= k -> (QZ (m * 2 ^ k) e == QZ m (e + k))%Q.
Proof.
  intros Hk. unfold QZ.
  rewrite inject_Z_mult, Zpower_Qpower, Qpower_plus by (assumption || discriminate).
  change (inject_Z 2) with 2%Q. ring.
Qed.

(** A non-negative number of value at most 1: its mantissa is at most
    [2^-e]. *)
Lemma at_most_one (m : positive) (e : Z) :
  (SF2Q (S754_finite false m e) <= 1)%Q -> e <= 0 /\ Zpos m <= 2 ^ (- e).
Proof.
  cbn [SF2Q]. destruct e as [|p|p]; intros H.
  - unfold Qle in H. cbn in H. cbn. lia.
  - exfalso. change 1%Q with (inject_Z 1) in H. rewrite <- Zle_Qle in H.
    assert (2 <= 2 ^ Z.pos p).
    { change 2 with (2 ^ 1) at 1. apply Z.pow_le_mono_r; lia. }
    nia.
  - split; [lia|]. unfold Qle in H. cbn [Qnum Qden] in H.
    change (- Z.neg p) with (Z.pos p). rewrite Pos2Z.inj_pow in H. lia.
Qed.


(** Zero or a positive finite number that is at most 1. *)
Definition in_unit (x : spec_float) : Prop :=
  nonneg_finite x = true /\ (SF2Q x <= 1)%Q.

Lemma in_unit_zero (s : bool) : in_unit (S754_zero s).
Proof. split; [reflexivity | discriminate]. Qed.

Lemma QZ_le_inv (a b e : Z) : (QZ a e <= QZ b e)%Q -> a <= b.
Proof.
  unfold QZ. intros H. pose proof (two_pow_pos e) as Hp.
  rewrite Zle_Qle.
  apply Qmult_lt_0_le_reg_r with (2 ^ e)%Q; assumption.
Qed.

Lemma QZ_unit (e : Z) : e <= 0 -> (QZ (2 ^ (- e)) e == 1)%Q.
Proof.
  intros He. replace (2 ^ (- e)) with (1 * 2 ^ (- e)) by lia.
  rewrite QZ_scale by lia. replace (e + - e) with 0 by lia. reflexivity.
Qed.

Lemma Zpos_iter_xO (m d : positive) : Zpos (Pos.iter xO m d) = Zpos m * 2 ^ Zpos d.
Proof.
  revert m. induction d as [d IH|d IH|]; intros m; cbn [Pos.iter].
  - rewrite Pos2Z.inj_xO, IH, IH.
    replace (Z.pos d~1) with (1 + Z.pos d + Z.pos d) by lia.
    rewrite !Z.pow_add_r by lia. change (2 ^ 1) with 2. lia.
  - rewrite IH, IH.
    replace (Z.pos d~0) with (Z.pos d + Z.pos d) by lia.
    rewrite Z.pow_add_r by lia. lia.
  - rewrite Pos2Z.inj_xO. change (2 ^ 1) with 2. lia.
Qed.

Lemma digits2_iter_xO (m d : positive) :
  Zpos (digits2_pos (Pos.iter xO m d)) = Zpos (digits2_pos m) + Zpos d.
Proof.
  revert m. induction d as [d IH|d IH|]; intros m; cbn [Pos.iter digits2_pos].
  - rewrite Pos2Z.inj_succ, IH, IH. lia.
  - rewrite IH, IH. lia.
  - lia.
Qed.

Section Rounding.
Variables prec emax : Z.

Lemma fexp_mono (a b : Z) : a <= b -> fexp prec emax a <= fexp prec emax b.
Proof. unfold fexp. lia. Qed.

(** Rounding [mz * 2^ez] at location [lz] stays below a
    float [my * 2^ey] that the exact value does not pass, an
    inexact location meaning that the value is strictly below it. *)
Lemma binary_round_aux_le (mz : Z) (ez : Z) (lz : location) (my : positive) (ey : Z) :
  bounded prec emax my ey = true ->
  0 <= mz -> ez <= ey -> mz <= Zpos my * 2 ^ (ey - ez) ->
  (lz <> loc_Exact -> mz < Zpos my * 2 ^ (ey - ez)) ->
  let r := binary_round_aux prec emax false mz ez lz in
  nonneg_finite r = true /\ (SF2Q r <= QZ (Zpos my) ey)%Q.
Proof.
  intros Hb Hmz He Hle Hlt r. unfold r, binary_round_aux, shr_fexp.
  apply andb_true_iff in Hb. destruct Hb as [Hcan Hemax].
  apply Z.eqb_eq in Hcan. apply Z.leb_le in Hemax.
  set (dy := Z.pos (digits2_pos my)) in *.
  assert (Hd : Zdigits2 mz <= dy + (ey - ez)).
  { destruct mz as [|p|p]; [cbn [Zdigits2]; clear - He; unfold dy; lia | | lia].
    apply digits_le; [lia | assumption]. }
  set (n1 := fexp prec emax (Zdigits2 mz + ez) - ez).
  pose proof (fexp_mono (Zdigits2 mz + ez) (dy + ey) ltac:(lia)) as Hf1.
  destruct (shifted_shr mz lz ez n1 Hmz) as [Hsh1 He1].
  destruct (shr (shr_record_of_loc mz lz) ez n1) as [mrs1 e1].
  cbn [fst snd] in Hsh1, He1.
  set (k1 := Z.max n1 0) in *.
  assert (Hk1 : 0 <= k1) by (unfold k1; lia).
  assert (He1y : e1 <= ey) by (unfold k1, n1 in *; lia).
  set (Y1 := Zpos my * 2 ^ (ey - e1)).
  assert (HY1 : Zpos my * 2 ^ (ey - ez) = Y1 * 2 ^ k1).
  { unfold Y1. rewrite <- Z.mul_assoc, <- Z.pow_add_r by lia. do 2 f_equal. lia. }
  set (mr := round_nearest_even (shr_m mrs1) (loc_of_shr_record mrs1)).
  assert (Hmr : 0 <= mr <= Y1).
  { apply (round_below mz lz k1 Y1 mrs1); try assumption; [lia|].
    intros Hl. specialize (Hlt Hl). lia. }
  set (n2 := fexp prec emax (Zdigits2 mr + e1) - e1).
  destruct (shr_spec (Build_shr_record mr false false) e1 n2 ltac:(cbn; lia))
    as [Hm2 He2].
  change (shr_record_of_loc mr loc_Exact) with (Build_shr_record mr false false).
  destruct (shr (Build_shr_record mr false false) e1 n2) as [mrs2 e2].
  cbn [fst snd shr_m] in Hm2, He2.
  set (k2 := Z.max n2 0) in *.
  assert (Hk2 : 0 <= k2) by (unfold k2; lia).
  assert (Hpow2 : 0 < 2 ^ k2) by (apply Z.pow_pos_nonneg; lia).
  destruct (shr_m mrs2) as [|m2|m2] eqn:Hsm.
  - split; [reflexivity|]. cbn [SF2Q]. apply QZ_nonneg. lia.
  - assert (Hmrpos : 0 < mr).
    { destruct (Z.eq_dec mr 0) as [Hz|Hz]; [|lia].
      rewrite Hz, Z.div_0_l in Hm2 by lia. discriminate. }
    assert (He2y : e2 <= ey).
    { destruct mr as [|pr|pr]; try lia.
      assert (Hdr : Z.pos (digits2_pos pr) <= dy + (ey - e1))
        by (apply digits_le; [lia | exact (proj2 Hmr)]).
      cbn [Zdigits2] in n2.
      pose proof (fexp_mono (Z.pos (digits2_pos pr) + e1) (dy + ey) ltac:(lia)).
      unfold k2, n2 in *. lia. }
    assert (Hfin : (e2 <=? emax - prec) = true) by (apply Z.leb_le; lia).
    rewrite Hfin. split; [reflexivity|].
    rewrite SF2Q_finite.
    assert (Hm2Y : Z.pos m2 * 2 ^ k2 <= Y1).
    { rewrite Hm2. pose proof (Z.mul_div_le mr (2 ^ k2) Hpow2). lia. }
    apply Qle_trans with (QZ (Z.pos m2 * 2 ^ k2) e1).
    + rewrite QZ_scale by assumption. rewrite <- He2. apply Qle_refl.
    + apply Qle_trans with (QZ Y1 e1); [apply QZ_le; assumption|].
      unfold Y1. rewrite QZ_scale by lia.
      replace (e1 + (ey - e1)) with ey by lia. apply Qle_refl.
  - exfalso.
    assert (0 <= mr / 2 ^ k2) by (apply Z.div_pos; lia).
    lia.
Qed.

(** The product of a number in [0, 1] and a non-negative
    float is zero or positive, finite, and not above that
    number. *)
Lemma SFmul_le (x y : spec_float) :
  nonneg_finite x = true -> (SF2Q x <= 1)%Q ->
  nonneg_finite y = true -> valid_binary prec emax y = true ->
  nonneg_finite (SFmul prec emax x y) = true /\ (SF2Q (SFmul prec emax x y) <= SF2Q y)%Q.
Proof.
  intros Hx Hx1 Hy Hvy.
  destruct x as [sx|sx| |sx mx ex]; cbn [nonneg_finite] in Hx; try discriminate Hx;
    destruct y as [sy|sy| |sy my ey]; cbn [nonneg_finite] in Hy; try discriminate Hy.
  - split; [reflexivity | apply Qle_refl].
  - destruct sy; [discriminate Hy|]. split; [reflexivity|].
    cbn [SFmul]. rewrite SF2Q_finite. apply QZ_nonneg. lia.
  - destruct sx; [discriminate Hx|]. split; [reflexivity | apply Qle_refl].
  - destruct sx; [discriminate Hx|]. destruct sy; [discriminate Hy|].
    destruct (at_most_one mx ex Hx1) as [Hex Hmx].
    unfold SFmul. cbn [xorb]. rewrite (SF2Q_finite my ey).
    assert (Hprod : Z.pos (mx * my) <= Z.pos my * 2 ^ (ey - (ex + ey))).
    { replace (ey - (ex + ey)) with (- ex) by lia. rewrite Pos2Z.inj_mul. nia. }
    apply (binary_round_aux_le (Z.pos (mx * my)) (ex + ey) loc_Exact my ey Hvy);
      [lia | lia | exact Hprod | intros H; now elim H].
Qed.

(** An exact mantissa that needs no shift is kept as it is. *)
Lemma binary_round_aux_exact (m : positive) (e : Z) :
  fexp prec emax (Zpos (digits2_pos m) + e) <= e -> e <= emax - prec ->
  binary_round_aux prec emax false (Zpos m) e loc_Exact = S754_finite false m e.
Proof.
  intros Hf He. unfold binary_round_aux, shr_fexp. cbn [Zdigits2 shr_record_of_loc].
  assert (Hshr : forall mrs,
             shr mrs e (fexp prec emax (Zpos (digits2_pos m) + e) - e) = (mrs, e)).
  { intros mrs.
    destruct (fexp prec emax (Z.pos (digits2_pos m) + e) - e) eqn:Hn;
      [reflexivity | lia | reflexivity]. }
  rewrite Hshr. cbn [shr_m loc_of_shr_record round_nearest_even Zdigits2 shr_record_of_loc].
  rewrite Hshr. cbn [shr_m].
  apply Z.leb_le in He. rewrite He. reflexivity.
Qed.

(** An integer of at most [prec] digits is a float of the format. *)
Lemma binary_normalize_exact (k : positive) :
  Zpos (digits2_pos k) <= prec -> emin prec emax <= Zpos (digits2_pos k) - prec ->
  0 <= emax - prec ->
  exists m e,
    binary_normalize prec emax (Zpos k) 0 false = S754_finite false m e /\
    e <= 0 /\ Zpos m = Zpos k * 2 ^ (- e) /\ bounded prec emax m e = true.
Proof.
  intros Hd Hmin Hmax. unfold binary_normalize, binary_round, shl_align.
  set (d := Zpos (digits2_pos k)) in *.
  assert (Hf : fexp prec emax (d + 0) = d - prec) by (unfold fexp; lia).
  rewrite Hf.
  destruct (d - prec - 0) as [|n|n] eqn:Hn; try lia.
  - exists k, 0. rewrite binary_round_aux_exact by (fold d; lia).
    split; [reflexivity|]. split; [lia|]. split; [cbn; lia|].
    unfold bounded, canonical_mantissa. fold d. rewrite Hf.
    apply andb_true_iff. split; [apply Z.eqb_eq | apply Z.leb_le]; lia.
  - assert (Hdig : Zpos (digits2_pos (Pos.iter xO k n)) = prec)
      by (rewrite digits2_iter_xO; fold d; lia).
    assert (Hfe : fexp prec emax (prec + (d - prec)) = d - prec)
      by (unfold fexp in *; lia).
    exists (Pos.iter xO k n), (d - prec).
    rewrite binary_round_aux_exact by (rewrite ?Hdig, ?Hfe; lia).
    split; [reflexivity|]. split; [lia|]. split.
    + rewrite Zpos_iter_xO. do 2 f_equal. lia.
    + unfold bounded, canonical_mantissa. rewrite Hdig, Hfe.
      apply andb_true_iff. split; [apply Z.eqb_eq | apply Z.leb_le]; lia.
Qed.

Section Unit.
(** The float 1.0 of the format. *)
Variable one_m : positive.
Variable one_e : Z.
Hypothesis one_bounded : bounded prec emax one_m one_e = true.
Hypothesis one_value : Zpos one_m = 2 ^ (- one_e).
Hypothesis one_exponent : one_e <= 0.
Hypothesis one_fexp : fexp prec emax 1 <= one_e.
Hypothesis emax_prec : 0 <= emax - prec.

Lemma binary_round_aux_unit (mz ez : Z) (lz : location) :
  0 <= mz -> ez <= one_e -> mz <= 2 ^ (- ez) ->
  (lz <> loc_Exact -> mz < 2 ^ (- ez)) ->
  in_unit (binary_round_aux prec emax false mz ez lz).
Proof.
  intros Hmz He Hle Hlt.
  assert (Hpow : Zpos one_m * 2 ^ (one_e - ez) = 2 ^ (- ez)).
  { rewrite one_value, <- Z.pow_add_r by lia. f_equal. lia. }
  pose proof (binary_round_aux_le mz ez lz one_m one_e one_bounded Hmz He) as H.
  cbv zeta in H. rewrite Hpow in H. destruct (H Hle Hlt) as [Hfin Hval].
  split; [exact Hfin|].
  rewrite one_value, (QZ_unit one_e one_exponent) in Hval. exact Hval.
Qed.

Lemma binary_round_aux_unit_exact (m : positive) (e : Z) :
  e <= 0 -> Zpos m <= 2 ^ (- e) ->
  in_unit (binary_round_aux prec emax false (Zpos m) e loc_Exact).
Proof.
  intros He Hle.
  destruct (Z.le_gt_cases e one_e) as [Hlow|Hhigh].
  - apply binary_round_aux_unit; [lia | assumption | assumption | intros H; now elim H].
  - rewrite binary_round_aux_exact.
    + split; [reflexivity|]. rewrite SF2Q_finite.
      apply Qle_trans with (QZ (2 ^ (- e)) e); [apply QZ_le; assumption|].
      rewrite QZ_unit by assumption. apply Qle_refl.
    + assert (Hd : Zpos (digits2_pos m) <= Zpos (digits2_pos 1) + - e)
        by (apply digits_le; lia).
      cbn [digits2_pos] in Hd.
      pose proof (fexp_mono (Zpos (digits2_pos m) + e) 1 ltac:(lia)). lia.
    + lia.
Qed.

(** The product of two numbers of [0, 1] is in [0, 1]. *)
Lemma SFmul_unit (x y : spec_float) :
  in_unit x -> in_unit y -> in_unit (SFmul prec emax x y).
Proof.
  intros [Hx Hx1] [Hy Hy1].
  destruct x as [sx|sx| |sx mx ex]; cbn [nonneg_finite] in Hx; try discriminate Hx;
    destruct y as [sy|sy| |sy my ey]; cbn [nonneg_finite] in Hy; try discriminate Hy;
    try apply in_unit_zero.
  destruct sx; [discriminate Hx|]. destruct sy; [discriminate Hy|].
  destruct (at_most_one mx ex Hx1) as [Hex Hmx].
  destruct (at_most_one my ey Hy1) as [Hey Hmy].
  unfold SFmul. cbn [xorb].
  apply binary_round_aux_unit_exact; [lia|].
  replace (- (ex + ey)) with (- ex + - ey) by lia.
  rewrite Z.pow_add_r, Pos2Z.inj_mul by lia.
  apply Z.mul_le_mono_nonneg; lia.
Qed.

(** Rounding a number of (0, 1] to the format gives a number of [0, 1]. *)
Lemma binary_round_unit (m : positive) (e : Z) :
  e <= 0 -> Zpos m <= 2 ^ (- e) -> in_unit (binary_round prec emax false m e).
Proof.
  intros He Hle. unfold binary_round, shl_align.
  set (f := fexp prec emax (Z.pos (digits2_pos m) + e)).
  destruct (f - e) as [|d|d] eqn:Hd.
  - apply binary_round_aux_unit_exact; assumption.
  - apply binary_round_aux_unit_exact; assumption.
  - apply binary_round_aux_unit_exact; [lia|].
    rewrite Zpos_iter_xO. replace (- f) with (- e + Zpos d) by lia.
    rewrite Z.pow_add_r by lia.
    apply Z.mul_le_mono_nonneg_r; [apply Z.pow_nonneg; lia | assumption].
Qed.

Lemma new_location_inexact (nb_steps k : Z) :
  new_location nb_steps k <> loc_Exact -> k <> 0.
Proof.
  intros H ->. apply H. unfold new_location, new_location_even, new_location_odd.
  destruct (Z.even nb_steps); reflexivity.
Qed.

(** A quotient whose dividend does not exceed the divisor is in [0, 1]. *)
Lemma SFdiv_unit (x : spec_float) (my : positive) (ey : Z) :
  nonneg_finite x = true -> (SF2Q x <= QZ (Zpos my) ey)%Q ->
  in_unit (SFdiv prec emax x (S754_finite false my ey)).
Proof.
  intros Hx Hle.
  destruct x as [sx|sx| |sx mx ex]; cbn [nonneg_finite] in Hx; try discriminate Hx.
  - apply in_unit_zero.
  - destruct sx; [discriminate Hx|]. rewrite SF2Q_finite in Hle.
    unfold SFdiv, SFdiv_core_binary. cbn [xorb Zdigits2].
    set (d1 := Zpos (digits2_pos mx)). set (d2 := Zpos (digits2_pos my)).
    set (e' := Z.min (fexp prec emax (d1 + ex - (d2 + ey))) (ex - ey)).
    set (s := ex - ey - e').
    assert (Hs : 0 <= s) by (unfold s, e'; lia).
    assert (Hdig : d1 + ex <= d2 + ey).
    { apply digits_bound.
      eapply Qle_lt_trans; [exact Hle|].
      destruct (digits2_pos_spec my) as [_ Hhi]. fold d2 in Hhi.
      apply Qlt_le_trans with (QZ (2 ^ d2) ey).
      - unfold QZ. apply Qmult_lt_compat_r; [apply two_pow_pos|].
        rewrite <- Zlt_Qlt. exact Hhi.
      - replace (2 ^ d2) with (1 * 2 ^ d2) by lia.
        rewrite QZ_scale by (unfold d2; lia).
        unfold QZ. rewrite Z.add_comm. change (inject_Z 1) with 1%Q.
        rewrite Qmult_1_l. apply Qle_refl. }
    assert (He' : e' <= one_e).
    { pose proof (fexp_mono (d1 + ex - (d2 + ey)) 1 ltac:(lia)). unfold e'. lia. }
    assert (Hm' : match s with
                  | 0 => Z.pos mx
                  | Z.pos _ => Z.shiftl (Z.pos mx) s
                  | Z.neg _ => 0
                  end = Zpos mx * 2 ^ s).
    { destruct s as [|p|p] eqn:Hsp; [cbn; lia | | lia].
      rewrite Z.shiftl_mul_pow2 by lia. reflexivity. }
    rewrite Hm'.
    assert (Hint : Zpos mx * 2 ^ s <= Zpos my * 2 ^ (- e')).
    { apply (QZ_le_inv _ _ (ey + e')).
      rewrite !QZ_scale by lia.
      replace (ey + e' + s) with ex by (unfold s; lia).
      replace (ey + e' + - e') with ey by lia. exact Hle. }
    pose proof (Z_div_mod (Zpos mx * 2 ^ s) (Zpos my) ltac:(lia)) as Hdm.
    destruct (Z.div_eucl (Zpos mx * 2 ^ s) (Zpos my)) as [q r].
    destruct Hdm as [Heq Hr].
    assert (Hpow : 0 < 2 ^ s) by (apply Z.pow_pos_nonneg; lia).
    assert (Hpow' : 0 < 2 ^ (- e')) by (apply Z.pow_pos_nonneg; lia).
    assert (Hq0 : 0 <= q) by nia.
    apply binary_round_aux_unit; [exact Hq0 | exact He' | nia |].
    intros Hloc. apply new_location_inexact in Hloc. nia.
Qed.

End Unit.
End Rounding.

(** *** The float32 and binary64 formats *)

Lemma f32_mul_unit (x y : f32) : in_unit x -> in_unit y -> in_unit (f32_mul x y).
Proof.
  apply (SFmul_unit prec32 emax32 8388608 (-23)); first [reflexivity | cbv; discriminate].
Qed.

(** The integers below [2^24] are float32 numbers. *)
Lemma f32_of_int_exact (k : Z) :
  0 <= k < 2 ^ 24 ->
  nonneg_finite (f32_of_int k) = true /\
  (SF2Q (f32_of_int k) == inject_Z k)%Q /\
  valid_binary prec32 emax32 (f32_of_int k) = true.
Proof.
  intros Hk. destruct k as [|p|p]; [repeat split; reflexivity | | lia].
  assert (Hd : Zpos (digits2_pos p) <= 24).
  { destruct (digits2_pos_spec p) as [Hlo _].
    assert (H : 2 ^ (Zpos (digits2_pos p) - 1) < 2 ^ 24) by lia.
    apply Z.pow_lt_mono_r_iff in H; lia. }
  destruct (binary_normalize_exact prec32 emax32 p) as (m & e & Heq & He & Hm & Hb).
  - exact Hd.
  - unfold emin, prec32, emax32. lia.
  - cbv; discriminate.
  - unfold f32_of_int. rewrite Heq. split; [reflexivity|]. split; [|exact Hb].
    rewrite SF2Q_finite, Hm, QZ_scale by lia.
    replace (e + - e) with 0 by lia. unfold QZ.
    change (2 ^ 0)%Q with 1%Q. ring.
Qed.

(** *** The stages on one sample *)

Lemma normalize16_unit (x : Z) : 0 <= x <= 65535 -> in_unit (normalize16 x).
Proof.
  intros Hx. destruct (f32_of_int_exact x ltac:(lia)) as (Hfin & Hval & _).
  unfold normalize16, f32_div.
  change (f32_of_int 65535) with (S754_finite false 16776960 (-8)).
  apply (SFdiv_unit prec32 emax32 8388608 (-23));
    [reflexivity | reflexivity | cbv; discriminate | cbv; discriminate | exact Hfin |].
  rewrite Hval.
  assert (Hq : (QZ 16776960 (-8) == inject_Z 65535)%Q) by reflexivity.
  rewrite Hq, <- Zle_Qle. lia.
Qed.

Lemma quantize_unit (blackLevel : Z) (v : f32) :
  in_unit v -> 0 <= blackLevel <= 16383 ->
  0 <= scale14 blackLevel v <= 16383 - blackLevel /\
  add_bias blackLevel (scale14 blackLevel v) = scale14 blackLevel v + blackLevel.
Proof.
  intros [Hv Hv1] Hbl.
  destruct (f32_of_int_exact (16383 - blackLevel) ltac:(lia)) as (Hk & Hkv & Hkb).
  destruct (SFmul_le prec32 emax32 v (f32_of_int (16383 - blackLevel)) Hv Hv1 Hk Hkb)
    as [Hfin Hle].
  fold (f32_mul v (f32_of_int (16383 - blackLevel))) in Hfin, Hle.
  rewrite Hkv in Hle.
  assert (Hlt : (SF2Q (f32_mul v (f32_of_int (16383 - blackLevel))) < 65536)%Q).
  { eapply Qle_lt_trans; [exact Hle|].
    change 65536%Q with (inject_Z 65536). rewrite <- Zlt_Qlt. lia. }
  assert (Hs : 0 <= scale14 blackLevel v <= 16383 - blackLevel).
  { unfold scale14. rewrite (astype_uint16_floor _ Hfin Hlt). split.
    - rewrite <- (Qfloor_Z 0). apply Qfloor_resp_le, SF2Q_nonneg, Hfin.
    - pose proof (Qfloor_resp_le _ _ Hle) as H. rewrite Qfloor_Z in H. exact H. }
  split; [exact Hs|]. unfold add_bias. apply Z.mod_small. lia.
Qed.

(** X1. Normalization keeps to the unit interval: every 16-bit sample
    becomes zero or a positive finite float32 number that is at most
    1.0; 0 becomes 0.0 and 65535 becomes exactly 1.0. *)
Theorem normalize16_in_unit_interval (x : Z) :
  0 <= x <= 65535 ->
  nonneg_finite (normalize16 x) = true /\
  (0 <= SF2Q (normalize16 x) <= 1)%Q /\
  normalize16 0 = S754_zero false /\
  normalize16 65535 = S754_finite false 8388608 (-23).
Proof.
  intros Hx. destruct (normalize16_unit x Hx) as [H1 H2].
  split; [exact H1|]. split; [split; [apply SF2Q_nonneg; exact H1 | exact H2]|].
  split; reflexivity.
Qed.

Lemma normalize16_in_unit_interval_witness :
  nonneg_finite (normalize16 32768) = true /\
  (0 <= SF2Q (normalize16 32768) <= 1)%Q /\
  normalize16 0 = S754_zero false /\
  normalize16 65535 = S754_finite false 8388608 (-23).
Proof. apply (normalize16_in_unit_interval 32768). lia. Defined.

(** X2. Quantization and bias keep to 14 bits: for a sample of the unit
    interval and a black level from 0 to 16383, the scaled sample lies
    in [0, 16383 - blackLevel], and after the bias in
    [blackLevel, 16383]; the 16-bit addition does not wrap. *)
Theorem quantized_sample_in_range (blackLevel : Z) (v : f32) :
  nonneg_finite v = true -> (SF2Q v <= 1)%Q -> 0 <= blackLevel <= 16383 ->
  0 <= scale14 blackLevel v <= 16383 - blackLevel /\
  add_bias blackLevel (scale14 blackLevel v) = scale14 blackLevel v + blackLevel /\
  blackLevel <= add_bias blackLevel (scale14 blackLevel v) <= 16383.
Proof.
  intros Hv Hv1 Hbl.
  destruct (quantize_unit blackLevel v (conj Hv Hv1) Hbl) as [Hs Hb].
  split; [exact Hs|]. split; [exact Hb|]. rewrite Hb. lia.
Qed.

Lemma quantized_sample_in_range_witness :
  0 <= scale14 1008 quarter <= 16383 - 1008 /\
  add_bias 1008 (scale14 1008 quarter) = scale14 1008 quarter + 1008 /\
  1008 <= add_bias 1008 (scale14 1008 quarter) <= 16383.
Proof.
  apply (quantized_sample_in_range 1008 quarter).
  - reflexivity.
  - discriminate.
  - lia.
Defined.

End RangeFacts.

(* ===================================================================== *)
(** ** The bayer phase on colour sources                                  *)
(* ===================================================================== *)

Module BayerFacts.
Import Np NpFacts Pixel PixelFacts DriverFacts RangeFacts.
Local Open Scope nat_scope.

(** An index of the parity of [from] falls in [from::2], at half its
    distance from [from]. *)
Lemma every_other_hit (n from r : nat) :
  from <= 1 -> r < n -> from <= r -> Nat.even (r - from) = true ->
  pos_in (every_other n (Z.of_nat from)) r = Some ((r - from) / 2) /\
  (r - from) / 2 < count (every_other n (Z.of_nat from)) /\
  first (every_other n (Z.of_nat from))
  + (r - from) / 2 * stride (every_other n (Z.of_nat from)) = r.
Proof.
  intros Hfrom Hr Hle Hev.
  pose proof (pos_in_every_other n from r Hfrom Hr) as Hp.
  apply Nat.leb_le in Hle as Hle'. rewrite Hle', Hev in Hp. cbn [andb] in Hp.
  split; [exact Hp|].
  destruct (pos_in_Some _ _ _ Hp) as (Hc & _).
  split; [exact Hc|].
  assert (Hfirst : first (every_other n (Z.of_nat from)) = from).
  { unfold every_other, py_slice, clamp_index. cbn [first].
    destruct (Z.ltb_spec (Z.of_nat from) 0); lia. }
  change (stride (every_other n (Z.of_nat from))) with 2. rewrite Hfirst.
  apply Nat.even_spec in Hev. destruct Hev as [k Hk].
  assert (Hdiv : (r - from) / 2 = k) by (rewrite Hk, Nat.mul_comm, Nat.div_mul; lia).
  rewrite Hdiv. lia.
Qed.

(** One assignment of [colorToBayer]: the sites of the slice take the
    channel, the others keep what the plane held. *)
Lemma put_channel_spec (image : array3) (bayer : array2) (y0 x0 ch : nat) :
  y0 <= 1 -> x0 <= 1 -> rectangular image ->
  length bayer = length image ->
  (forall r, length (nth r bayer []) = length (nth r image [])) ->
  exists res,
    setitem2 0%Z bayer (every_other (length image) (Z.of_nat y0))
             (every_other (Z.to_nat (shape1 image)) (Z.of_nat x0))
             (count (every_other (length image) (Z.of_nat y0)),
              count (every_other (Z.to_nat (shape1 image)) (Z.of_nat x0)))
             (getitem3 image (every_other (length image) (Z.of_nat y0))
                       (every_other (Z.to_nat (shape1 image)) (Z.of_nat x0)) ch)
    = Returned res /\
    length res = length image /\
    (forall r, length (nth r res []) = length (nth r image [])) /\
    (forall r c, r < length image -> c < length (nth r image []) ->
                 nth c (nth r res []) 0%Z
                 = if site y0 x0 r c then nth ch (nth c (nth r image []) []) 0%Z
                   else nth c (nth r bayer []) 0%Z).
Proof.
  intros Hy0 Hx0 Hrect Hlen Hrows.
  set (ys := every_other (length image) (Z.of_nat y0)).
  set (xs := every_other (Z.to_nat (shape1 image)) (Z.of_nat x0)).
  destruct (setitem2_same_shape 0%Z bayer ys xs (getitem3 image ys xs ch))
    as (res & Hres & Hl & Hr & Hnth).
  exists res. split; [exact Hres|]. split; [congruence|].
  split; [intros r; rewrite Hr; apply Hrows|].
  intros r c Hr' Hc'.
  rewrite (Hnth r c) by (rewrite ?Hlen, ?Hrows; assumption).
  pose proof (Hrect r Hr') as Hw.
  unfold site.
  destruct ((y0 <=? r) && Nat.even (r - y0)) eqn:Hy; cbn [andb].
  2:{ unfold ys. rewrite (pos_in_every_other _ y0 r Hy0 Hr'), Hy. reflexivity. }
  destruct ((x0 <=? c) && Nat.even (c - x0)) eqn:Hx.
  2:{ unfold xs. rewrite (pos_in_every_other _ x0 c Hx0) by lia. rewrite Hx.
      destruct (pos_in ys r); reflexivity. }
  apply andb_true_iff in Hy. destruct Hy as [Hy1 Hy2]. apply Nat.leb_le in Hy1.
  apply andb_true_iff in Hx. destruct Hx as [Hx1 Hx2]. apply Nat.leb_le in Hx1.
  destruct (every_other_hit (length image) y0 r Hy0 Hr' Hy1 Hy2) as (Hpy & Hcy & Hiy).
  destruct (every_other_hit (Z.to_nat (shape1 image)) x0 c Hx0 ltac:(lia) Hx1 Hx2)
    as (Hpx & Hcx & Hix).
  fold ys in Hpy, Hcy, Hiy. fold xs in Hpx, Hcx, Hix.
  rewrite Hpy, Hpx. rewrite nth_getitem3 by assumption. rewrite Hiy, Hix. reflexivity.
Qed.

Lemma site_parity (y0 x0 r c : nat) :
  y0 <= 1 -> x0 <= 1 ->
  site y0 x0 r c
  = (if y0 =? 0 then Nat.even r else Nat.odd r)
    && (if x0 =? 0 then Nat.even c else Nat.odd c).
Proof.
  intros Hy0 Hx0. unfold site.
  assert (H : forall n, (1 <=? n) && Nat.even (n - 1) = Nat.odd n).
  { intros [|n]; [reflexivity|]. cbn [Nat.leb andb].
    replace (S n - 1) with n by lia.
    now rewrite Nat.odd_succ. }
  assert (H0 : forall n, (0 <=? n) && Nat.even (n - 0) = Nat.even n)
    by (intros n; now rewrite Nat.sub_0_r).
  destruct y0 as [|[|y0]]; [| |lia]; (destruct x0 as [|[|x0]]; [| |lia]);
    cbn [Nat.eqb]; rewrite ?H0, ?H; reflexivity.
Qed.

(** The BGR channel that the RGGB site at row [r] and column [c] takes:
    red (2) on even rows and columns, blue (0) on odd rows and columns,
    green (1) elsewhere. *)
Definition bayer_channel (r c : nat) : nat :=
  if Nat.even r then (if Nat.even c then 2 else 1)
  else (if Nat.even c then 1 else 0).

(** [colorToBayer] fills every site of the plane, each with the channel
    of its colour of the pixel at the same position. *)
Lemma colorToBayer_spec (image : array3) :
  rectangular image ->
  exists bayer,
    colorToBayer image = Returned bayer /\
    length bayer = length image /\
    (forall r, length (nth r bayer []) = length (nth r image [])) /\
    (forall r c, r < length image -> c < length (nth r image []) ->
                 nth c (nth r bayer []) 0%Z
                 = nth (bayer_channel r c) (nth c (nth r image []) []) 0%Z).
Proof.
  intros Hrect. unfold colorToBayer. cbv zeta beta.
  set (b0 := full (Z.of_nat (length image)) (Z.of_nat (Z.to_nat (shape1 image))) 0).
  assert (Hb0 : length b0 = length image)
    by (unfold b0, full; rewrite repeat_length; lia).
  assert (Hb0r : forall r, length (nth r b0 []) = length (nth r image [])).
  { intros r. destruct (Nat.lt_ge_cases r (length image)).
    - unfold b0. rewrite length_nth_full by lia. rewrite (Hrect r); lia.
    - rewrite !nth_overflow by lia. reflexivity. }
  destruct (put_channel_spec image b0 0 0 2 ltac:(lia) ltac:(lia) Hrect Hb0 Hb0r)
    as (b1 & H1 & L1 & R1 & N1).
  change (Z.of_nat 0) with 0%Z in H1. rewrite H1. cbn [obind].
  destruct (put_channel_spec image b1 0 1 1 ltac:(lia) ltac:(lia) Hrect L1 R1)
    as (b2 & H2 & L2 & R2 & N2).
  change (Z.of_nat 0) with 0%Z in H2. change (Z.of_nat 1) with 1%Z in H2.
  rewrite H2. cbn [obind].
  destruct (put_channel_spec image b2 1 0 1 ltac:(lia) ltac:(lia) Hrect L2 R2)
    as (b3 & H3 & L3 & R3 & N3).
  change (Z.of_nat 0) with 0%Z in H3. change (Z.of_nat 1) with 1%Z in H3.
  rewrite H3. cbn [obind].
  destruct (put_channel_spec image b3 1 1 0 ltac:(lia) ltac:(lia) Hrect L3 R3)
    as (b4 & H4 & L4 & R4 & N4).
  change (Z.of_nat 1) with 1%Z in H4. rewrite H4.
  exists b4. split; [reflexivity|]. split; [exact L4|]. split; [exact R4|].
  intros r c Hr Hc.
  rewrite (N4 r c Hr Hc), (N3 r c Hr Hc), (N2 r c Hr Hc), (N1 r c Hr Hc).
  rewrite !site_parity by lia. cbn [Nat.eqb]. unfold bayer_channel.
  rewrite <- !Nat.negb_even.
  destruct (Nat.even r), (Nat.even c); reflexivity.
Qed.

(** X3. On a colour image every site of the bayer plane is written, with
    the red channel (BGR index 2) on even rows and columns, the blue
    channel (index 0) on odd rows and columns and the green channel
    (index 1) on the other sites, each taken from the pixel at the same
    row and column. *)
Theorem colorToBayer_layout (image : array3) :
  rectangular image ->
  exists bayer,
    colorToBayer image = Returned bayer /\
    length bayer = length image /\
    (forall r, length (nth r bayer []) = length (nth r image [])) /\
    (forall r c, r < length image -> c < length (nth r image []) ->
                 nth c (nth r bayer []) 0%Z
                 = nth (if Nat.even r && Nat.even c then 2
                        else if Nat.odd r && Nat.odd c then 0
                        else 1)
                       (nth c (nth r image []) []) 0%Z).
Proof.
  intros Hrect.
  destruct (colorToBayer_spec image Hrect) as (bayer & Hrun & Hlen & Hrows & Hnth).
  exists bayer. split; [exact Hrun|]. split; [exact Hlen|]. split; [exact Hrows|].
  intros r c Hr Hc.
  rewrite (Hnth r c Hr Hc). unfold bayer_channel.
  rewrite <- !Nat.negb_even.
  destruct (Nat.even r), (Nat.even c); reflexivity.
Qed.

Definition bgr2x2 : array3 :=
  [[[10; 20; 30]; [11; 21; 31]];
   [[12; 22; 32]; [13; 23; 33]]]%Z.

Lemma rectangular_bgr2x2 : rectangular bgr2x2.
Proof. intros [|[|r]] Hr; cbn in Hr |- *; try reflexivity; lia. Qed.

Lemma colorToBayer_layout_witness :
  exists bayer,
    colorToBayer bgr2x2 = Returned bayer /\
    length bayer = length bgr2x2 /\
    (forall r, length (nth r bayer []) = length (nth r bgr2x2 [])) /\
    (forall r c, r < length bgr2x2 -> c < length (nth r bgr2x2 []) ->
                 nth c (nth r bayer []) 0%Z
                 = nth (if Nat.even r && Nat.even c then 2
                        else if Nat.odd r && Nat.odd c then 0
                        else 1)
                       (nth c (nth r bgr2x2 []) []) 0%Z).
Proof. apply (colorToBayer_layout bgr2x2). exact rectangular_bgr2x2. Defined.

Example colorToBayer_bgr2x2 :
  colorToBayer bgr2x2 = Returned [[30; 21]; [22; 13]]%Z.
Proof. reflexivity. Qed.

(** *** The stages after the bayer conversion *)

Section WithExternals.
Variable cvtColor_gray : array3 -> array2.
Variable powf : f32 -> f32 -> f32.

(** Whatever plane [src_ConvertToBayer] yields, the later stages work on
    it sample by sample. *)
Lemma bayer_phase_spec (exif : Exif) (args : Args) (image : Image16) (b : array2)
      (kr kb : f32) :
  src_ConvertToBayer cvtColor_gray args image = Returned b ->
  rectangular b ->
  inverse_multiplier (red (effective_wb exif args)) = Returned kr ->
  inverse_multiplier (blue (effective_wb exif args)) = Returned kb ->
  exists plane,
    bayerOps cvtColor_gray powf exif args image = Returned plane /\
    length plane = length b /\
    (forall r, length (nth r plane []) = length (nth r b [])) /\
    (forall r c, r < length b -> c < length (nth r b []) ->
                 nth c (nth r plane []) 0%Z
                 = add_bias (blackLevel exif)
                     (scale14 (blackLevel exif)
                        (wb_at kr kb r c
                           (linear powf args (normalize16 (nth c (nth r b []) 0%Z)))))).
Proof.
  intros Hb Hrect Hkr Hkb. unfold bayerOps. rewrite Hb. cbn [obind].
  set (f0 := src_ConvertSRGBToLinear powf args (src_Convert16BitToNormalizedFloat b)).
  assert (Hf0 : length f0 = length b /\
                (forall r, length (nth r f0 []) = length (nth r b [])) /\
                (forall r c, r < length b -> c < length (nth r b []) ->
                             nth c (nth r f0 []) S754_nan
                             = linear powf args (normalize16 (nth c (nth r b []) 0%Z)))).
  { unfold f0, src_ConvertSRGBToLinear, src_Convert16BitToNormalizedFloat, linear.
    destruct (src_srgbtolinear args).
    - rewrite !length_map2d. split; [reflexivity|]. split.
      + intros r. now rewrite !length_nth_map2d.
      + intros r c Hr Hc.
        rewrite (nth_map2d _ _ S754_nan S754_nan)
          by (rewrite ?length_map2d, ?length_nth_map2d; assumption).
        now rewrite (nth_map2d _ _ 0%Z S754_nan) by assumption.
    - rewrite length_map2d. split; [reflexivity|]. split.
      + intros r. now rewrite length_nth_map2d.
      + intros r c Hr Hc. now rewrite (nth_map2d _ _ 0%Z S754_nan) by assumption. }
  destruct Hf0 as (Hf0len & Hf0rows & Hf0nth).
  assert (Hf0rect : rectangular f0)
    by (apply (rectangular_same_rows b f0); assumption).
  unfold src_ApplyInverseWbMultipliers. rewrite Hkr. cbn [obind].
  destruct (scale_sites_spec f0 0 0 kr ltac:(lia) ltac:(lia) Hf0rect)
    as (f1 & Hf1 & Hf1len & Hf1rows & Hf1nth).
  cbn [Z.of_nat] in Hf1. rewrite Hf1. cbn [obind]. rewrite Hkb. cbn [obind].
  assert (Hf1rect : rectangular f1)
    by (apply (rectangular_same_rows f0 f1); assumption).
  destruct (scale_sites_spec f1 1 1 kb ltac:(lia) ltac:(lia) Hf1rect)
    as (f2 & Hf2 & Hf2len & Hf2rows & Hf2nth).
  change (Z.of_nat 1) with 1%Z in Hf2. rewrite Hf2. cbn [obind].
  eexists. split; [reflexivity|].
  unfold src_AddBlackLevelBias, src_ScaleNormalizedFloatTo14Bit.
  split; [|split].
  - rewrite !length_map2d. congruence.
  - intros r. rewrite !length_nth_map2d. now rewrite Hf2rows, Hf1rows, Hf0rows.
  - intros r c Hr Hc.
    assert (Hr1 : r < length f1) by congruence.
    assert (Hr0 : r < length f0) by congruence.
    assert (Hc0 : c < length (nth r f0 [])) by (rewrite Hf0rows; assumption).
    assert (Hc1 : c < length (nth r f1 [])) by (rewrite Hf1rows; assumption).
    assert (Hr2 : r < length f2) by (rewrite Hf2len; exact Hr1).
    assert (Hc2 : c < length (nth r f2 [])) by (rewrite Hf2rows; exact Hc1).
    rewrite (nth_map2d _ _ 0%Z 0%Z)
      by (rewrite ?length_map2d, ?length_nth_map2d; assumption).
    rewrite (nth_map2d (A := f32) _ _ S754_nan 0%Z) by assumption.
    do 2 f_equal.
    rewrite (Hf2nth r c Hr1 Hc1), (Hf1nth r c Hr0 Hc0), (Hf0nth r c Hr Hc).
    rewrite site_red, site_blue. unfold wb_at.
    destruct (Nat.even r && Nat.even c) eqn:Hred; [|reflexivity].
    replace (Nat.odd r && Nat.odd c) with false; [reflexivity|].
    apply andb_true_iff in Hred. destruct Hred as [He _].
    now rewrite <- Nat.negb_even, He.
Qed.

(** X4. A colour source that is not turned to grey: every site of the
    final plane is the channel of its RGGB colour of the pixel at the
    same position, normalized, made linear if configured, multiplied by
    [1/red] on red sites and by [1/blue] on blue sites, scaled to 14
    bits and biased by the black level. *)
Theorem bayerOps_color_sites (exif : Exif) (args : Args) (a : array3) (kr kb : f32) :
  src_grayscale args = false ->
  rectangular a ->
  inverse_multiplier (red (effective_wb exif args)) = Returned kr ->
  inverse_multiplier (blue (effective_wb exif args)) = Returned kb ->
  exists plane,
    bayerOps cvtColor_gray powf exif args (Color a) = Returned plane /\
    length plane = length a /\
    (forall r, length (nth r plane []) = length (nth r a [])) /\
    (forall r c, r < length a -> c < length (nth r a []) ->
                 nth c (nth r plane []) 0%Z
                 = add_bias (blackLevel exif)
                     (scale14 (blackLevel exif)
                        (wb_at kr kb r c
                           (linear powf args
                              (normalize16
                                 (nth (bayer_channel r c) (nth c (nth r a []) []) 0%Z)))))).
Proof.
  intros Hgray Hrect Hkr Hkb.
  destruct (colorToBayer_spec a Hrect) as (b & Hrun & Hlen & Hrows & Hnth).
  assert (Hb : src_ConvertToBayer cvtColor_gray args (Color a) = Returned b)
    by (cbn [src_ConvertToBayer]; rewrite Hgray; exact Hrun).
  assert (Hbrect : rectangular b)
    by (apply (rectangular_same_rows a b); assumption).
  destruct (bayer_phase_spec exif args (Color a) b kr kb Hb Hbrect Hkr Hkb)
    as (plane & Hplane & Hplen & Hprows & Hpnth).
  exists plane. split; [exact Hplane|]. split; [congruence|].
  split; [intros r; rewrite Hprows; apply Hrows|].
  intros r c Hr Hc.
  rewrite (Hpnth r c) by (rewrite ?Hlen, ?Hrows; assumption).
  rewrite (Hnth r c Hr Hc). reflexivity.
Qed.

(** The inverse of a multiplier that is at least 1 is a float32 number of
    the unit interval. *)
Lemma inverse_multiplier_unit (m : spec_float) :
  nonneg_finite m = true -> (1 <= SF2Q m)%Q ->
  exists k, inverse_multiplier m = Returned k /\ in_unit k.
Proof.
  intros Hm H1.
  destruct m as [s|s| |s mm me]; cbn [nonneg_finite] in Hm; try discriminate Hm.
  - exfalso. cbn [SF2Q] in H1. apply (Qle_not_lt _ _ H1). reflexivity.
  - destruct s; [discriminate Hm|].
    unfold inverse_multiplier. cbn [PyFloat.SF_is_zero]. eexists. split; [reflexivity|].
    change (PyFloat.b64_of_int 1) with (S754_finite false 4503599627370496 (-52)).
    assert (Hq : in_unit (SFdiv PyFloat.prec64 PyFloat.emax64
                                (S754_finite false 4503599627370496 (-52))
                                (S754_finite false mm me))).
    { apply (SFdiv_unit PyFloat.prec64 PyFloat.emax64 4503599627370496 (-52));
        [reflexivity | reflexivity | cbv; discriminate | cbv; discriminate | reflexivity |].
      rewrite SF2Q_finite in H1.
      assert (Hone : (SF2Q (S754_finite false 4503599627370496 (-52)) == 1)%Q)
        by reflexivity.
      rewrite Hone. exact H1. }
    destruct (SFdiv PyFloat.prec64 PyFloat.emax64 _ _) as [sq|sq| |sq mq eq];
      destruct Hq as [Hfin Hle]; cbn [nonneg_finite] in Hfin; try discriminate Hfin.
    + apply in_unit_zero.
    + destruct sq; [discriminate Hfin|]. cbn [f32_of_b64].
      destruct (at_most_one mq eq Hle) as [He Hmq].
      apply (binary_round_unit prec32 emax32 8388608 (-23));
        first [reflexivity | cbv; discriminate | assumption].
Qed.

(** X5. With sRGB linearization off, white-balance multipliers that are
    at least 1 and a black level from 0 to 16383, every sample of the
    final plane lies in [blackLevel, 16383], whatever 16-bit plane the
    bayer conversion yields: the pipeline never hands the encoder a
    sample that needs more than 14 bits, nor one below the black level. *)
Theorem bayerOps_within_14_bits (exif : Exif) (args : Args) (image : Image16) (b : array2) :
  src_ConvertToBayer cvtColor_gray args image = Returned b ->
  rectangular b ->
  (forall r c, r < length b -> c < length (nth r b []) ->
               (0 <= nth c (nth r b []) 0 <= 65535)%Z) ->
  src_srgbtolinear args = false ->
  nonneg_finite (red (effective_wb exif args)) = true ->
  (1 <= SF2Q (red (effective_wb exif args)))%Q ->
  nonneg_finite (blue (effective_wb exif args)) = true ->
  (1 <= SF2Q (blue (effective_wb exif args)))%Q ->
  (0 <= blackLevel exif <= 16383)%Z ->
  exists plane,
    bayerOps cvtColor_gray powf exif args image = Returned plane /\
    length plane = length b /\
    (forall r, length (nth r plane []) = length (nth r b [])) /\
    (forall r c, r < length b -> c < length (nth r b []) ->
                 (blackLevel exif <= nth c (nth r plane []) 0 <= 16383)%Z).
Proof.
  intros Hb Hrect H16 Hsrgb Hred Hred1 Hblue Hblue1 Hbl.
  destruct (inverse_multiplier_unit _ Hred Hred1) as (kr & Hkr & Ukr).
  destruct (inverse_multiplier_unit _ Hblue Hblue1) as (kb & Hkb & Ukb).
  destruct (bayer_phase_spec exif args image b kr kb Hb Hrect Hkr Hkb)
    as (plane & Hplane & Hplen & Hprows & Hpnth).
  exists plane. split; [exact Hplane|]. split; [exact Hplen|]. split; [exact Hprows|].
  intros r c Hr Hc. rewrite (Hpnth r c Hr Hc).
  assert (Hv : in_unit (wb_at kr kb r c
                          (linear powf args (normalize16 (nth c (nth r b []) 0%Z))))).
  { pose proof (normalize16_unit _ (H16 r c Hr Hc)) as Hn.
    unfold linear. rewrite Hsrgb. unfold wb_at.
    destruct (Nat.even r && Nat.even c); [apply f32_mul_unit; assumption|].
    destruct (Nat.odd r && Nat.odd c); [apply f32_mul_unit; assumption | exact Hn]. }
  destruct (quantize_unit (blackLevel exif) _ Hv Hbl) as [Hs Hbias].
  rewrite Hbias. lia.
Qed.

(** X6. A white-balance multiplier of zero, red or blue, ends the bayer
    phase with [ZeroDivisionError]: the source computes [1/red] and
    [1/blue] with no check. *)
Theorem zero_wb_multiplier_raises (exif : Exif) (args : Args) (image : Image16) (b : array2) :
  src_ConvertToBayer cvtColor_gray args image = Returned b ->
  rectangular b ->
  PyFloat.SF_is_zero (red (effective_wb exif args)) = true
  \/ PyFloat.SF_is_zero (blue (effective_wb exif args)) = true ->
  bayerOps cvtColor_gray powf exif args image = Raised ZeroDivisionError.
Proof.
  intros Hb Hrect Hzero. unfold bayerOps. rewrite Hb. cbn [obind].
  unfold src_ApplyInverseWbMultipliers, inverse_multiplier.
  destruct (PyFloat.SF_is_zero (red (effective_wb exif args))) eqn:Hr; [reflexivity|].
  cbn [obind].
  set (f0 := src_ConvertSRGBToLinear powf args (src_Convert16BitToNormalizedFloat b)).
  assert (Hf0rect : rectangular f0).
  { unfold f0, src_ConvertSRGBToLinear, src_Convert16BitToNormalizedFloat.
    destruct (src_srgbtolinear args); repeat apply rectangular_map2d; exact Hrect. }
  destruct (scale_sites_spec f0 0 0
              (f32_of_b64 (SFdiv PyFloat.prec64 PyFloat.emax64 (PyFloat.b64_of_int 1)
                                 (red (effective_wb exif args))))
              ltac:(lia) ltac:(lia) Hf0rect) as (f1 & Hf1 & _).
  cbn [Z.of_nat] in Hf1. rewrite Hf1. cbn [obind].
  destruct Hzero as [Hz|Hz]; [congruence|]. rewrite Hz. reflexivity.
Qed.

End WithExternals.

(** *** A colour scenario *)

Definition args_color : Args :=
  {| re_geometry := FULL;
     re_maintainaspectratio := true;
     re_horzalign := CENTER;
     re_vertalign := CENTER;
     src_srgbtolinear := false;
     src_wbmultipliers := None;
     src_grayscale := false |}.

(** No red and no blue multiplier in the donor's EXIF. *)
Definition exif_no_wb : Exif :=
  {| endian := LITTLE;
     rawDimensions := mkDimensions 2 2;
     bitsPerSample := 14;
     stripOffset := 8;
     stripByteCount := 5;
     fileOffsetToStripByteCount := 2;
     wbMultipliers := mkWhiteBalanceMultipliers (S754_zero false) two;
     nefCompressionType := 3;
     blackLevel := 1008;
     predValueNefCompression := 2048;
     cropAreaDimensions := None;
     embeddedJpgs := [] |}.

Lemma bayerOps_color_sites_witness :
  exists plane,
    bayerOps no_cvtColor no_powf exif_gray args_color (Color bgr2x2) = Returned plane /\
    length plane = length bgr2x2 /\
    (forall r, length (nth r plane []) = length (nth r bgr2x2 [])) /\
    (forall r c, r < length bgr2x2 -> c < length (nth r bgr2x2 []) ->
                 nth c (nth r plane []) 0%Z
                 = add_bias (blackLevel exif_gray)
                     (scale14 (blackLevel exif_gray)
                        (wb_at half half r c
                           (linear no_powf args_color
                              (normalize16
                                 (nth (bayer_channel r c)
                                      (nth c (nth r bgr2x2 []) []) 0%Z)))))).
Proof.
  apply (bayerOps_color_sites no_cvtColor no_powf exif_gray args_color bgr2x2 half half).
  - reflexivity.
  - exact rectangular_bgr2x2.
  - reflexivity.
  - reflexivity.
Defined.

Lemma rectangular_white2x2 : rectangular white2x2.
Proof. intros [|[|r]] Hr; cbn in Hr |- *; try reflexivity; lia. Qed.

Lemma bayerOps_within_14_bits_witness :
  exists plane,
    bayerOps no_cvtColor no_powf exif_gray args_plain (Gray white2x2) = Returned plane /\
    length plane = length white2x2 /\
    (forall r, length (nth r plane []) = length (nth r white2x2 [])) /\
    (forall r c, r < length white2x2 -> c < length (nth r white2x2 []) ->
                 (blackLevel exif_gray <= nth c (nth r plane []) 0 <= 16383)%Z).
Proof.
  apply (bayerOps_within_14_bits no_cvtColor no_powf exif_gray args_plain
                                 (Gray white2x2) white2x2).
  - reflexivity.
  - exact rectangular_white2x2.
  - intros [|[|r]] [|[|c]] Hr Hc; cbn in Hr, Hc |- *; lia.
  - reflexivity.
  - reflexivity.
  - discriminate.
  - reflexivity.
  - discriminate.
  - cbn. lia.
Defined.

Lemma zero_wb_multiplier_raises_witness :
  bayerOps no_cvtColor no_powf exif_no_wb args_plain (Gray white2x2)
  = Raised ZeroDivisionError.
Proof.
  apply (zero_wb_multiplier_raises no_cvtColor no_powf exif_no_wb args_plain
                                   (Gray white2x2) white2x2).
  - reflexivity.
  - exact rectangular_white2x2.
  - left. reflexivity.
Defined.

End BayerFacts.

(* ===================================================================== *)
(** ** The preview regenerator: the choice of a replacement               *)
(* ===================================================================== *)

Module PreviewChoiceFacts.
Import PyBytes PyBytesFacts Preview PreviewFacts.

Section WithCodecs.
Variable Image : Type.
Variable imdecode_dimensions : bytes -> option Dimensions.
Variable encode_jpeg : Image -> Dimensions -> Z -> bytes.
Variable encode_placeholder : Dimensions -> string -> bytes.
Variable to_image8 : Exif -> Image -> Image.

Local Abbreviation qualityLoop := (qualityLoop Image encode_jpeg).
Local Abbreviation generateEmbeddedJpg := (generateEmbeddedJpg Image encode_jpeg).
Local Abbreviation generatePlaceholderEmbeddedJpg :=
  (generatePlaceholderEmbeddedJpg encode_placeholder).
Local Abbreviation produceEmbeddedJpg :=
  (produceEmbeddedJpg Image encode_jpeg encode_placeholder).
Local Abbreviation insertLoop :=
  (insertLoop Image imdecode_dimensions encode_jpeg encode_placeholder).
Local Abbreviation generateAndInsertEmbeddedJpgs :=
  (generateAndInsertEmbeddedJpgs Image imdecode_dimensions encode_jpeg
                                 encode_placeholder to_image8).

(** The encoding of the image at a quality fits the budget. *)
Definition fits (image : Image) (dims : Dimensions) (maxSizeBytes : nat) (q : Z) : Prop :=
  length (encode_jpeg image dims q) <= maxSizeBytes.

(** The loop entered at quality [20 + 10 n] tries the qualities downwards
    in steps of 10 and stops at the first that fits, or after 20. *)
Lemma qualityLoop_spec image dims maxSizeBytes name quality :
  forall n : nat, quality = (20 + 10 * Z.of_nat n)%Z ->
  match qualityLoop image dims maxSizeBytes name quality with
  | (Some jpg, log) =>
      log = [] /\
      exists j, j <= n /\
                jpg = encode_jpeg image dims (quality - 10 * Z.of_nat j)%Z /\
                fits image dims maxSizeBytes (quality - 10 * Z.of_nat j)%Z /\
                forall i, i < j -> ~ fits image dims maxSizeBytes (quality - 10 * Z.of_nat i)%Z
  | (None, log) =>
      log = [W_UnableToGenerateEmbeddedJpg name maxSizeBytes
               (length (encode_jpeg image dims 20%Z)) 20%Z] /\
      forall i, i <= n -> ~ fits image dims maxSizeBytes (quality - 10 * Z.of_nat i)%Z
  end.
Proof.
  funelim (qualityLoop image dims maxSizeBytes name quality); intros n Hn.
  - apply Nat.leb_le in Heq. split; [reflexivity|].
    exists 0. split; [lia|]. cbn [Z.of_nat]. rewrite Z.mul_0_r, Z.sub_0_r.
    split; [reflexivity|]. split; [exact Heq | intros i Hi; lia].
  - match goal with Hf : (_ <=? _) = false |- _ => apply Nat.leb_gt in Hf end.
    assert (n = 0) by lia. subst n. cbn [Z.of_nat] in Hn. rewrite Z.mul_0_r, Z.add_0_r in Hn.
    subst quality. split; [reflexivity|].
    intros i Hi. assert (i = 0) by lia. subst i. unfold fits. cbn [Z.of_nat].
    rewrite Z.mul_0_r, Z.sub_0_r. lia.
  - match goal with Hf : (_ <=? _) = false |- _ => apply Nat.leb_gt in Hf end.
    destruct n as [|n]; [lia|].
    match goal with IH : forall _ : nat, _ -> _ |- _ =>
      specialize (IH n ltac:(lia)) end.
    destruct (qualityLoop image dims maxSizeBytes name (quality - 10)) as [[jpg|] log].
    + destruct H as (Hlog & j & Hj & Hjpg & Hfit & Hmin).
      split; [exact Hlog|]. exists (S j). split; [lia|].
      replace (quality - 10 * Z.of_nat (S j))%Z with (quality - 10 - 10 * Z.of_nat j)%Z by lia.
      split; [exact Hjpg|]. split; [exact Hfit|].
      intros [|i] Hi.
      * unfold fits. cbn [Z.of_nat]. rewrite Z.mul_0_r, Z.sub_0_r. lia.
      * replace (quality - 10 * Z.of_nat (S i))%Z with (quality - 10 - 10 * Z.of_nat i)%Z by lia.
        apply Hmin. lia.
    + destruct H as (Hlog & Hnone). split; [exact Hlog|].
      intros [|i] Hi.
      * unfold fits. cbn [Z.of_nat]. rewrite Z.mul_0_r, Z.sub_0_r. lia.
      * replace (quality - 10 * Z.of_nat (S i))%Z with (quality - 10 - 10 * Z.of_nat i)%Z by lia.
        apply Hnone. lia.
Qed.

(** X7. [generateEmbeddedJpg] returns the encoding at the highest of
    the qualities 100, 90, ..., 20 that fits in [maxSizeBytes], and
    prints nothing; it returns nothing, with one warning that names
    quality 20, exactly when none of the nine encodings fits. *)
Theorem generateEmbeddedJpg_best_quality (image : Image) (dims : Dimensions)
        (maxSizeBytes : nat) (name : string) :
  match generateEmbeddedJpg image dims maxSizeBytes name with
  | (Some jpg, log) =>
      log = [] /\
      exists j, j <= 8 /\
                jpg = encode_jpeg image dims (100 - 10 * Z.of_nat j)%Z /\
                length jpg <= maxSizeBytes /\
                forall i, i < j ->
                          maxSizeBytes
                          < length (encode_jpeg image dims (100 - 10 * Z.of_nat i)%Z)
  | (None, log) =>
      log = [W_UnableToGenerateEmbeddedJpg name maxSizeBytes
               (length (encode_jpeg image dims 20%Z)) 20%Z] /\
      forall i, i <= 8 ->
                maxSizeBytes < length (encode_jpeg image dims (100 - 10 * Z.of_nat i)%Z)
  end.
Proof.
  unfold Preview.generateEmbeddedJpg.
  pose proof (qualityLoop_spec image dims maxSizeBytes name 100%Z 8 eq_refl) as H.
  destruct (qualityLoop image dims maxSizeBytes name 100) as [[jpg|] log].
  - destruct H as (Hlog & j & Hj & Hjpg & Hfit & Hmin).
    split; [exact Hlog|]. exists j. split; [exact Hj|]. split; [exact Hjpg|].
    split; [rewrite Hjpg; exact Hfit|].
    intros i Hi. specialize (Hmin i Hi). unfold fits in Hmin. lia.
  - destruct H as (Hlog & Hnone). split; [exact Hlog|].
    intros i Hi. specialize (Hnone i Hi). unfold fits in Hnone. lia.
Qed.

(** X8. The loop over the preview records stops at the first record whose
    JPEG cannot be decoded: the records before it are processed, the
    buffer is returned as they left it with the error flag set and the
    decode error printed last, and no later record is looked at. *)
Theorem insertLoop_stops_at_undecodable (image8 : option Image)
        (pre : list EmbeddedJpgExifInfo) (e : EmbeddedJpgExifInfo)
        (rest : list EmbeddedJpgExifInfo) (buf b1 : bytes) (log1 : list LogMsg) :
  insertLoop image8 pre buf = Returned (false, b1, log1) ->
  imdecode_dimensions
    (slice b1 (EmbeddedJpg.start e) (EmbeddedJpg.start e + EmbeddedJpg.length e)) = None ->
  insertLoop image8 (pre ++ e :: rest) buf
  = Returned (true, b1, log1 ++ [E_UnableToDecodeEmbeddedJpg (EmbeddedJpg.exifName e)]).
Proof.
  revert buf b1 log1. induction pre as [|p pre IH]; intros buf b1 log1 Hpre Hdec.
  - cbn [Preview.insertLoop] in Hpre. inversion Hpre; subst.
    cbn [app]. apply insertLoop_undecodable. exact Hdec.
  - cbn [app Preview.insertLoop] in Hpre |- *.
    destruct (Preview.getEmbeddedJpgDimensions imdecode_dimensions buf
                (EmbeddedJpg.exifName p) (EmbeddedJpg.start p) (EmbeddedJpg.length p))
      as [[dims|] log0]; [|discriminate Hpre].
    destruct (produceEmbeddedJpg image8 dims (EmbeddedJpg.length p)
                                 (EmbeddedJpg.exifName p)) as [oj logp].
    destruct (match oj with
              | Some jpg => overwriteEmbeddedJpg buf p jpg
              | None => Returned (buf, [])
              end) as [[b log2]|ex]; [|discriminate Hpre].
    cbn [obind] in Hpre |- *.
    destruct (insertLoop image8 pre b) as [[[err b'] log3]|ex] eqn:Hrest;
      [|discriminate Hpre].
    cbn [obind] in Hpre. inversion Hpre; subst.
    rewrite (IH b b1 log3 Hrest Hdec). cbn [obind].
    now rewrite <- !app_assoc.
Qed.

(** X9. A record for which neither the image at any quality nor the
    placeholder fits is skipped: two warnings are printed, the buffer is
    not touched, and the loop goes on with the next record. *)
Theorem insertLoop_skips_unfit (image : Image) (e : EmbeddedJpgExifInfo)
        (rest : list EmbeddedJpgExifInfo) (buf : bytes) (dims : Dimensions) :
  imdecode_dimensions
    (slice buf (EmbeddedJpg.start e) (EmbeddedJpg.start e + EmbeddedJpg.length e))
  = Some dims ->
  (forall i, i <= 8 ->
             EmbeddedJpg.length e
             < length (encode_jpeg image dims (100 - 10 * Z.of_nat i)%Z)) ->
  EmbeddedJpg.length e < length (encode_placeholder dims (EmbeddedJpg.exifName e)) ->
  insertLoop (Some image) (e :: rest) buf
  = ('(err, b', log3) <- insertLoop (Some image) rest buf ;;
     Returned (err, b',
               [W_UnableToGenerateEmbeddedJpg (EmbeddedJpg.exifName e) (EmbeddedJpg.length e)
                  (length (encode_jpeg image dims 20%Z)) 20%Z;
                W_UnableToGeneratePlaceholder (EmbeddedJpg.exifName e) (EmbeddedJpg.length e)
                  (length (encode_placeholder dims (EmbeddedJpg.exifName e)))]
               ++ log3)).
Proof.
  intros Hdec Hjpg Hph.
  assert (Hprod : produceEmbeddedJpg (Some image) dims (EmbeddedJpg.length e)
                                     (EmbeddedJpg.exifName e)
                  = (None,
                     [W_UnableToGenerateEmbeddedJpg (EmbeddedJpg.exifName e)
                        (EmbeddedJpg.length e)
                        (length (encode_jpeg image dims 20%Z)) 20%Z]
                     ++ [W_UnableToGeneratePlaceholder (EmbeddedJpg.exifName e)
                           (EmbeddedJpg.length e)
                           (length (encode_placeholder dims (EmbeddedJpg.exifName e)))])).
  { unfold Preview.produceEmbeddedJpg, Preview.generateEmbeddedJpg.
    pose proof (qualityLoop_spec image dims (EmbeddedJpg.length e) (EmbeddedJpg.exifName e)
                                 100%Z 8 eq_refl) as H.
    destruct (qualityLoop image dims (EmbeddedJpg.length e) (EmbeddedJpg.exifName e) 100)
      as [[jpg|] log].
    - exfalso. destruct H as (_ & j & Hj & _ & Hfit & _).
      specialize (Hjpg j Hj). unfold fits in Hfit. lia.
    - destruct H as (Hlog & _). subst log.
      unfold Preview.generatePlaceholderEmbeddedJpg.
      apply Nat.ltb_lt in Hph. rewrite Hph. reflexivity. }
  rewrite (insertLoop_cons Image imdecode_dimensions encode_jpeg encode_placeholder
             (Some image) e rest buf dims None _ Hdec Hprod).
  cbn [obind app]. reflexivity.
Qed.

End WithCodecs.

(** *** A donor whose second preview is damaged *)

(** A stand-in decoder that knows a JPEG by its first byte. *)
Definition soi_decode (b : bytes) : option Dimensions :=
  match b with
  | xff :: _ => Some (mkDimensions 2 1)
  | _ => None
  end.

Definition buffer_damaged : bytes :=
  [x02; x00; x00; x00;  x04; x00; x00; x00;  xff; xa2; x77; x77;
   xb1; xb2; xb3; xb4;  xc1; xc2; xc3; xc4].

Lemma insertLoop_stops_at_undecodable_witness :
  Preview.insertLoop unit soi_decode demo_encode demo_placeholder (Some tt)
    ([jpgFromRaw] ++ previewImage :: []) buffer_damaged
  = Returned (true,
              [x02; x00; x00; x00;  x04; x00; x00; x00;  xff; xff; x77; x77;
               xb1; xb2; xb3; xb4;  xc1; xc2; xc3; xc4],
              [V_Overwriting "JpgFromRaw" 8 2 2]
              ++ [E_UnableToDecodeEmbeddedJpg (EmbeddedJpg.exifName previewImage)]).
Proof.
  apply (insertLoop_stops_at_undecodable unit soi_decode demo_encode demo_placeholder
           (Some tt) [jpgFromRaw] previewImage [] buffer_damaged).
  - reflexivity.
  - reflexivity.
Defined.

(** A stand-in encoder and a placeholder that never get below 3 bytes. *)
Definition big_encode (_ : unit) (_ : Dimensions) (_ : Z) : bytes := [xff; xd8; xd9].
Definition big_placeholder (_ : Dimensions) (_ : string) : bytes := [xff; xd8; xd9].

Lemma insertLoop_skips_unfit_witness :
  Preview.insertLoop unit soi_decode big_encode big_placeholder (Some tt)
    (jpgFromRaw :: []) buffer_damaged
  = ('(err, b', log3) <-
       Preview.insertLoop unit soi_decode big_encode big_placeholder (Some tt) []
         buffer_damaged ;;
     Returned (err, b',
               [W_UnableToGenerateEmbeddedJpg (EmbeddedJpg.exifName jpgFromRaw)
                  (EmbeddedJpg.length jpgFromRaw)
                  (length (big_encode tt (mkDimensions 2 1) 20%Z)) 20%Z;
                W_UnableToGeneratePlaceholder (EmbeddedJpg.exifName jpgFromRaw)
                  (EmbeddedJpg.length jpgFromRaw)
                  (length (big_placeholder (mkDimensions 2 1)
                                           (EmbeddedJpg.exifName jpgFromRaw)))]
               ++ log3)).
Proof.
  apply (insertLoop_skips_unfit unit soi_decode big_encode big_placeholder tt jpgFromRaw []
           buffer_damaged (mkDimensions 2 1)).
  - reflexivity.
  - intros i _. cbn. lia.
  - cbn. lia.
Defined.

End PreviewChoiceFacts.

(* ===================================================================== *)
(** ** The driver: what a run writes, and inputs that end it              *)
(* ===================================================================== *)

Module RunFacts.
Import PyFloat Np NpFacts PyBytes Driver DriverFacts.
Local Open Scope Z_scope.

Lemma no_write_in_prints (log : list LogMsg) (b : bytes) :
  ~ In (WriteFile b) (map Print log).
Proof.
  induction log as [|m log IH]; cbn; [tauto|].
  intros [H|H]; [discriminate H | exact (IH H)].
Qed.

(** An assignment that succeeds keeps the shape of the array. *)
Lemma setitem2_shape {A} (d : A) (dst : list (list A)) (ys xs : axis_slice)
      (vshape : nat * nat) (v res : list (list A)) :
  setitem2 d dst ys xs vshape v = Returned res ->
  length res = length dst /\
  forall r, length (nth r res []) = length (nth r dst []).
Proof.
  unfold setitem2. destruct vshape as [vh vw].
  destruct (broadcasts vh (count ys) && broadcasts vw (count xs)); [|discriminate].
  intros Hres. inversion Hres; subst. clear Hres.
  set (frow := fun r row => match pos_in ys r with Some i => _ | None => row end).
  split; [apply length_mapi|].
  intros r. destruct (Nat.lt_ge_cases r (length dst)) as [Hr|Hr].
  - rewrite (nth_mapi frow dst [] [] r Hr). unfold frow.
    destruct (pos_in ys r); [apply length_mapi | reflexivity].
  - rewrite !nth_overflow by (try rewrite length_mapi; assumption). reflexivity.
Qed.

Lemma obind_Returned_inv {A B} (m : outcome A) (k : A -> outcome B) (b : B) :
  obind m k = Returned b -> exists a, m = Returned a /\ k a = Returned b.
Proof.
  destruct m as [a|e]; cbn [obind]; [|discriminate].
  intros Hk. exists a. split; [reflexivity | exact Hk].
Qed.

(** An assignment whose value cannot be broadcast on an axis raises. *)
Lemma setitem2_mismatch {A} (d : A) (dst : list (list A)) (ys xs : axis_slice)
      (vh vw : nat) (v : list (list A)) :
  broadcasts vh (count ys) = false \/ broadcasts vw (count xs) = false ->
  setitem2 d dst ys xs (vh, vw) v = Raised ValueError.
Proof.
  intros Hbad. unfold setitem2.
  destruct Hbad as [Hb|Hb]; rewrite Hb; [|rewrite andb_false_r]; reflexivity.
Qed.

Lemma shape_full (R C v : Z) :
  length (full R C v) = Z.to_nat R /\
  forall r, (r < Z.to_nat R)%nat -> length (nth r (full R C v) []) = Z.to_nat C.
Proof.
  split; [unfold full; apply repeat_length|].
  intros r Hr. apply length_nth_full. exact Hr.
Qed.

Section WithExternals.
Context {F : Type} `{PyFloat.Arith F}.
Variable sourceOps : Pixel.Image16 -> outcome Pixel.Image16.
Variable cvtColor_gray : array3 -> array2.
Variable powf : Pixel.f32 -> Pixel.f32 -> Pixel.f32.
Variable NefEncode : Z -> Z -> Z -> array2 -> option bytes.
Variable imdecode_dimensions : bytes -> option Dimensions.
Variable encode_jpeg : Pixel.Image16 -> Dimensions -> Z -> bytes.
Variable encode_placeholder : Dimensions -> string -> bytes.
Variable to_image8 : Exif -> Pixel.Image16 -> Pixel.Image16.

Local Abbreviation processSourceNumpy :=
  (processSourceNumpy sourceOps cvtColor_gray powf).
Local Abbreviation run :=
  (run sourceOps cvtColor_gray powf NefEncode imdecode_dimensions encode_jpeg
       encode_placeholder to_image8).
Local Abbreviation writeOutputNEF :=
  (Assembler.writeOutputNEF Pixel.Image16 imdecode_dimensions encode_jpeg
                            encode_placeholder to_image8).

(** [writeOutputNEF] reports success exactly when it wrote the file. *)
Lemma writeOutputNEF_result (exif : Exif) (fs : Assembler.Files)
      (image : option Pixel.Image16) (strip : bytes) (fail : bool)
      (written : option bytes) (log : list LogMsg) :
  writeOutputNEF exif fs image strip = Returned (fail, written, log) ->
  (fail = true /\ written = None) \/ (fail = false /\ exists b, written = Some b).
Proof.
  unfold Assembler.writeOutputNEF.
  destruct (Assembler.templatenef fs) as [file|].
  2:{ intros Hr. inversion Hr. left. split; reflexivity. }
  destruct (Assembler.buildNefBuffer exif _ strip) as [buf|e]; cbn [obind]; [|discriminate].
  destruct (Preview.generateAndInsertEmbeddedJpgs _ _ _ _ _ _ _ _)
    as [[[err buf'] log1]|e]; cbn [obind]; [|discriminate].
  destruct (Assembler.outputFilename fs) as [name|].
  2:{ intros Hr. inversion Hr. left. split; reflexivity. }
  destruct (Assembler.writable fs); intros Hr; inversion Hr.
  - right. split; [reflexivity|]. eexists. reflexivity.
  - left. split; reflexivity.
Qed.


(** X11. Whatever the alignment and the size of a pre-bayered input, a
    plane or four channels: when the source processing returns a plane
    for the encoder, that plane has the raw dimensions of the donor,
    and no image for the previews comes with it. *)
Theorem prebayered_plane_has_raw_dimensions (exif : Exif) (args : Args) (data : ndarray)
        (image : option Pixel.Image16) (plane : array2) (log : list LogMsg) :
  pre_bayered data ->
  processSourceNumpy exif args (Some (mkNpy true data)) = Returned (image, Some plane, log) ->
  image = None /\
  length plane = Z.to_nat (rows (rawDimensions exif)) /\
  (forall r, (r < Z.to_nat (rows (rawDimensions exif)))%nat ->
             length (nth r plane []) = Z.to_nat (columns (rawDimensions exif))).
Proof.
  intros Hpre. unfold Driver.processSourceNumpy. cbn [is_uint16 negb array].
  destruct (shape_full (rows (rawDimensions exif)) (columns (rawDimensions exif))
                       (blackLevel exif)) as [Hf0 Hf1].
  destruct data as [a|a|n]; cbn [pre_bayered] in Hpre; [| |contradiction].
  - unfold processBayeredPlane.
    destruct (validateBayeredNpyData exif (Nd2 a)) as [[invalid log0]|e];
      cbn [obind]; [|discriminate].
    destruct invalid; [discriminate|].
    rewrite npyPlacement_spec. cbn [obind]. intros Hr.
    apply obind_Returned_inv in Hr. destruct Hr as (b1 & H1 & Hr).
    inversion Hr; subst. clear Hr.
    destruct (setitem2_shape _ _ _ _ _ _ _ H1) as [L1 R1].
    split; [reflexivity|]. split; [congruence|].
    intros r Hr. rewrite R1. apply Hf1. exact Hr.
  - rewrite Hpre. cbn [Z.eqb Pos.eqb].
    unfold processBayerChannels.
    destruct (validateBayeredNpyData exif (Nd3 a)) as [[invalid log0]|e];
      cbn [obind]; [|discriminate].
    destruct invalid; [discriminate|].
    rewrite npyPlacement_spec. cbn [obind]. cbv zeta beta. intros Hr.
    apply obind_Returned_inv in Hr. destruct Hr as (b1 & H1 & Hr).
    apply obind_Returned_inv in Hr. destruct Hr as (b2 & H2 & Hr).
    apply obind_Returned_inv in Hr. destruct Hr as (b3 & H3 & Hr).
    apply obind_Returned_inv in Hr. destruct Hr as (b4 & H4 & Hr).
    inversion Hr; subst. clear Hr.
    destruct (setitem2_shape _ _ _ _ _ _ _ H1) as [L1 R1].
    destruct (setitem2_shape _ _ _ _ _ _ _ H2) as [L2 R2].
    destruct (setitem2_shape _ _ _ _ _ _ _ H3) as [L3 R3].
    destruct (setitem2_shape _ _ _ _ _ _ _ H4) as [L4 R4].
    split; [reflexivity|]. split; [congruence|].
    intros r Hr. rewrite R4, R3, R2, R1. apply Hf1. exact Hr.
Qed.

(** The number of indices of a slice of step 1 with non-negative bounds. *)
Lemma count_py_slice_unit (n : nat) (lo hi : Z) :
  0 <= lo -> 0 <= hi ->
  count (py_slice n lo hi 1) = Z.to_nat (Z.min hi (Z.of_nat n) - Z.min lo (Z.of_nat n)).
Proof.
  intros Hlo Hhi. unfold py_slice, clamp_index. cbn [count].
  destruct (Z.ltb_spec lo 0); [lia|]. destruct (Z.ltb_spec hi 0); [lia|].
  change (Z.of_nat 1) with 1. rewrite Z.div_1_r. f_equal. lia.
Qed.

(** X12. A validated 2-D input that is larger than the raw frame on an
    axis aligned RIGHT or BOTTOM is not cropped: the planner's crop range
    [src - tgt, tgt) is shorter than the target, Numpy cannot broadcast
    it onto the frame, and the source processing ends with [ValueError]
    (unless exactly one row or column is left, which Numpy repeats). *)
Theorem oversized_plane_high_alignment_raises (exif : Exif) (args : Args) (a : array2)
        (log : list LogMsg) :
  validateBayeredNpyData exif (Nd2 a) = Returned (false, log) ->
  (0 < rows (rawDimensions exif) < shape0 a /\
   (re_vertalign args = BOTTOM \/ re_vertalign args = RIGHT) /\
   2 * rows (rawDimensions exif) - shape0 a <> 1)
  \/ (0 < columns (rawDimensions exif) < shape1 a /\
      (re_horzalign args = RIGHT \/ re_horzalign args = BOTTOM) /\
      2 * columns (rawDimensions exif) - shape1 a <> 1) ->
  processBayeredPlane exif args a = Raised ValueError /\
  processSourceNumpy exif args (Some (mkNpy true (Nd2 a))) = Raised ValueError.
Proof.
  intros Hval Hbad.
  assert (Hp : processBayeredPlane exif args a = Raised ValueError).
  { unfold processBayeredPlane. rewrite Hval. cbn [obind].
    rewrite npyPlacement_spec. cbn [obind pos_x pos_y startx starty endx endy].
    destruct (rawDimensions exif) as [C R]. cbn [columns rows] in *.
    assert (Hw : 0 <= shape1 a) by (unfold shape1; destruct a; lia).
    rewrite setitem2_mismatch; [reflexivity|].
    destruct Hbad as [(HR & Hal & Hone)|(HC & Hal & Hone)]; [left | right].
    - rewrite GeometryFacts.calcAxisPos_covering by lia.
      assert (Hcrop : Geometry.calcAxisCrop (shape0 a) R (re_vertalign args)
                      = (shape0 a - R, R)).
      { unfold Geometry.calcAxisCrop. destruct (Z.leb_spec (shape0 a) R); [lia|].
        destruct Hal as [->| ->]; reflexivity. }
      rewrite Hcrop. cbn [fst snd].
      rewrite !count_py_slice_unit by lia.
      unfold shape0 in *. unfold broadcasts.
      apply orb_false_intro; apply Nat.eqb_neq; lia.
    - rewrite GeometryFacts.calcAxisPos_covering by lia.
      assert (Hcrop : Geometry.calcAxisCrop (shape1 a) C (re_horzalign args)
                      = (shape1 a - C, C)).
      { unfold Geometry.calcAxisCrop. destruct (Z.leb_spec (shape1 a) C); [lia|].
        destruct Hal as [->| ->]; reflexivity. }
      rewrite Hcrop. cbn [fst snd].
      rewrite !count_py_slice_unit by lia.
      unfold broadcasts.
      apply orb_false_intro; apply Nat.eqb_neq; lia. }
  split; [exact Hp|].
  unfold Driver.processSourceNumpy. cbn [is_uint16 negb array]. exact Hp.
Qed.

(** X13. A 2-D input without elements (no rows, or rows without columns)
    ends the run with [ValueError]: the validation takes the maximum of
    the array before anything else looks at its shape. *)
Theorem empty_plane_raises (exif : Exif) (args : Args) (fs : Assembler.Files) (a : array2) :
  concat a = [] ->
  processSourceNumpy exif args (Some (mkNpy true (Nd2 a))) = Raised ValueError /\
  run exif args fs (NpyFile (Some (mkNpy true (Nd2 a)))) = ([], Raised ValueError).
Proof.
  intros Hempty.
  assert (Hp : processSourceNumpy exif args (Some (mkNpy true (Nd2 a))) = Raised ValueError).
  { unfold Driver.processSourceNumpy. cbn [is_uint16 negb array].
    unfold processBayeredPlane, validateBayeredNpyData, amax. cbn [elements].
    rewrite Hempty. reflexivity. }
  split; [exact Hp|].
  unfold Driver.run, processSourceFile. rewrite Hp. reflexivity.
Qed.

End WithExternals.

(** *** Scenarios *)

Definition padded_npy : array2 :=
  [[1008; 1008; 1008; 1008];
   [1008; 0; 16383; 1008];
   [1008; 1200; 2000; 1008];
   [1008; 1008; 1008; 1008]].

Lemma prebayered_plane_has_raw_dimensions_witness :
  @None Pixel.Image16 = None /\
  length padded_npy = Z.to_nat (rows (rawDimensions (exif_npy 4 4))) /\
  (forall r, (r < Z.to_nat (rows (rawDimensions (exif_npy 4 4))))%nat ->
             length (nth r padded_npy [])
             = Z.to_nat (columns (rawDimensions (exif_npy 4 4)))).
Proof.
  apply (prebayered_plane_has_raw_dimensions (F := spec_float) id_sourceOps
           PixelFacts.no_cvtColor PixelFacts.no_powf (exif_npy 4 4) args_npy
           (Nd2 plane_npy) None padded_npy
           [W_PixelsBelowBlackLevel 1008; V_ResizedNumpyInput]).
  - exact I.
  - reflexivity.
Defined.

Definition args_bottom : Args :=
  {| re_geometry := FULL;
     re_maintainaspectratio := true;
     re_horzalign := CENTER;
     re_vertalign := BOTTOM;
     src_srgbtolinear := true;
     src_wbmultipliers := None;
     src_grayscale := false |}.

(** Four rows for a frame of two. *)
Definition tall_npy : array2 := [[1; 2]; [3; 4]; [5; 6]; [7; 8]].

Lemma oversized_plane_high_alignment_raises_witness :
  processBayeredPlane (F := spec_float) (exif_npy 2 2) args_bottom tall_npy
  = Raised ValueError /\
  processSourceNumpy (F := spec_float) id_sourceOps PixelFacts.no_cvtColor PixelFacts.no_powf
                     (exif_npy 2 2) args_bottom (Some (mkNpy true (Nd2 tall_npy)))
  = Raised ValueError.
Proof.
  apply (oversized_plane_high_alignment_raises (F := spec_float) id_sourceOps
           PixelFacts.no_cvtColor PixelFacts.no_powf (exif_npy 2 2) args_bottom tall_npy
           [W_PixelsBelowBlackLevel 1008]).
  - reflexivity.
  - left. cbn. split; [lia|]. split; [left; reflexivity | lia].
Defined.

Lemma empty_plane_raises_witness :
  processSourceNumpy (F := spec_float) id_sourceOps PixelFacts.no_cvtColor PixelFacts.no_powf
                     (exif_npy 2 2) args_npy (Some (mkNpy true (Nd2 [])))
  = Raised ValueError /\
  run (F := spec_float) id_sourceOps PixelFacts.no_cvtColor PixelFacts.no_powf demo_NefEncode
      demo_imdecode demo_encode_jpeg demo_encode_placeholder demo_to_image8
      (exif_npy 2 2) args_npy files_npy (NpyFile (Some (mkNpy true (Nd2 []))))
  = ([], Raised ValueError).
Proof.
  apply (empty_plane_raises (F := spec_float) id_sourceOps PixelFacts.no_cvtColor
           PixelFacts.no_powf demo_NefEncode demo_imdecode demo_encode_jpeg
           demo_encode_placeholder demo_to_image8 (exif_npy 2 2) args_npy files_npy []).
  reflexivity.
Defined.

(** Centred, an input of four rows is cropped to the two in the middle. *)
Example tall_npy_centre_is_cropped :
  processBayeredPlane (F := spec_float) (exif_npy 2 2) args_npy [[1; 2]; [3; 4]; [5; 6]; [7; 9]]
  = Returned (None, Some [[3; 4]; [5; 6]],
              [W_PixelsBelowBlackLevel 1008; V_ResizedNumpyInput]).
Proof. reflexivity. Qed.

End RunFacts.

(* ===================================================================== *)
(** ** The geometry planner: placement, centred crops and MINIMUM         *)
(* ===================================================================== *)

Module PlanFacts.
Import PyFloat Geometry GeometryFacts.
Local Open Scope Z_scope.

(** Rounding never passes an integer that the argument does not pass. *)
Lemma Qround_half_even_le (t : Z) (q : Q) :
  (q <= inject_Z t)%Q -> Qround_half_even q <= t.
Proof.
  intros Hle. unfold Qround_half_even.
  pose proof (Qfloor_le q) as Hfl. pose proof (Qlt_floor q) as Hlt.
  assert (Hft : Qfloor q <= t).
  { rewrite <- (Qfloor_Z t). apply Qfloor_resp_le. exact Hle. }
  destruct (Z.eq_dec (Qfloor q) t) as [Heq|Hne].
  - assert (Hc : Qcompare (q - inject_Z (Qfloor q)) (1 # 2) = Lt).
    { apply -> Qlt_alt. rewrite Heq. lra. }
    rewrite Hc. lia.
  - destruct (Qcompare _ _); [destruct (Z.even _)| |]; lia.
Qed.

Lemma Qround_half_even_nonneg (q : Q) : (0 <= q)%Q -> 0 <= Qround_half_even q.
Proof. intros Hq. apply Qround_half_even_ge. exact Hq. Qed.

(** X14. Placement on an axis where the source is not larger than the
    target, on exact arithmetic: whatever the alignment, the source lies
    inside the target; LEFT and TOP put it at 0, RIGHT and BOTTOM at the
    far end, and CENTER at half the gap rounded down, so that the odd
    pixel of the gap is on the high side. *)
Theorem calcAxisPos_inside (s t : Z) (al : Alignment) :
  0 <= s -> s <= t ->
  0 <= calcAxisPos (F := Q) s t al /\
  calcAxisPos (F := Q) s t al + s <= t /\
  calcAxisPos (F := Q) s t al
  = match al with
    | LEFT | TOP => 0
    | CENTER => (t - s) / 2
    | RIGHT | BOTTOM => t - s
    end.
Proof.
  intros Hs Hle.
  pose proof (calcAxisPos_range s t al Hs Hle) as Hrange.
  split; [lia|]. split; [lia|].
  destruct (Z.eq_dec s t) as [->|Hne].
  - rewrite calcAxisPos_covering by lia.
    rewrite Z.sub_diag. destruct al; reflexivity.
  - destruct al.
    + apply calcAxisPos_center. lia.
    + unfold calcAxisPos. destruct (Z.geb_spec s t); [lia | reflexivity].
    + unfold calcAxisPos. destruct (Z.geb_spec s t); [lia | reflexivity].
    + unfold calcAxisPos. destruct (Z.geb_spec s t); [lia | reflexivity].
    + unfold calcAxisPos. destruct (Z.geb_spec s t); [lia | reflexivity].
Qed.

Lemma calcAxisPos_inside_witness :
  0 <= calcAxisPos (F := Q) 2001 6000 CENTER /\
  calcAxisPos (F := Q) 2001 6000 CENTER + 2001 <= 6000 /\
  calcAxisPos (F := Q) 2001 6000 CENTER
  = match CENTER with
    | LEFT | TOP => 0
    | CENTER => (6000 - 2001) / 2
    | RIGHT | BOTTOM => 6000 - 2001
    end.
Proof. apply (calcAxisPos_inside 2001 6000 CENTER); lia. Defined.

(** A CENTER crop lies inside the source and is at most two shorter than
    the target. *)
Lemma calcAxisCrop_center_range (s t : Z) :
  0 <= t -> t < s ->
  0 <= fst (calcAxisCrop (F := Q) s t CENTER) /\
  snd (calcAxisCrop (F := Q) s t CENTER) <= s /\
  t - 2 <= snd (calcAxisCrop (F := Q) s t CENTER) - fst (calcAxisCrop (F := Q) s t CENTER)
        <= t.
Proof.
  intros Ht Hlt.
  destruct (Z.even (s - t)) eqn:Hev.
  - apply Z.even_spec in Hev. destruct Hev as [k Hk].
    rewrite (calcAxisCrop_center_even s t k Hlt Hk). cbn [fst snd]. lia.
  - assert (Hodd : Z.odd (s - t) = true) by (rewrite <- Z.negb_even, Hev; reflexivity).
    apply Z.odd_spec in Hodd. destruct Hodd as [k Hk].
    rewrite (calcAxisCrop_center_odd s t k Hlt Hk). cbn [fst snd].
    destruct (Z.even k), (Z.even (s - k - 2)); lia.
Qed.

(** X15. The CENTER crop of an axis that is larger than the target, on
    exact arithmetic: the range lies inside the source and is never
    longer than the target; it has the length of the target when the
    surplus is even, and is up to two shorter when the surplus is odd,
    because both bounds are halves that [round] takes to the even
    neighbour. *)
Theorem calcAxisCrop_center_bounds (s t : Z) :
  0 <= t -> t < s ->
  0 <= fst (calcAxisCrop (F := Q) s t CENTER) /\
  snd (calcAxisCrop (F := Q) s t CENTER) <= s /\
  t - 2 <= snd (calcAxisCrop (F := Q) s t CENTER) - fst (calcAxisCrop (F := Q) s t CENTER)
        <= t /\
  (Z.even (s - t) = true ->
   calcAxisCrop (F := Q) s t CENTER = ((s - t) / 2, (s - t) / 2 + t)).
Proof.
  intros Ht Hlt.
  destruct (calcAxisCrop_center_range s t Ht Hlt) as (H1 & H2 & H3).
  split; [exact H1|]. split; [exact H2|]. split; [exact H3|].
  intros Hev. apply Z.even_spec in Hev. destruct Hev as [k Hk].
  rewrite (calcAxisCrop_center_even s t k Hlt Hk).
  assert (Hdiv : (s - t) / 2 = k) by (rewrite Hk, Z.mul_comm; apply Z.div_mul; lia).
  rewrite Hdiv. f_equal. lia.
Qed.

Lemma calcAxisCrop_center_bounds_witness :
  0 <= fst (calcAxisCrop (F := Q) 6051 6048 CENTER) /\
  snd (calcAxisCrop (F := Q) 6051 6048 CENTER) <= 6051 /\
  6048 - 2 <= snd (calcAxisCrop (F := Q) 6051 6048 CENTER)
              - fst (calcAxisCrop (F := Q) 6051 6048 CENTER)
           <= 6048 /\
  (Z.even (6051 - 6048) = true ->
   calcAxisCrop (F := Q) 6051 6048 CENTER = ((6051 - 6048) / 2, (6051 - 6048) / 2 + 6048)).
Proof. apply (calcAxisCrop_center_bounds 6051 6048); lia. Defined.

(** The MINIMUM resize with the aspect ratio kept: the smaller of the two
    ratios of target to source is applied, so the result fits in the
    target and meets it on one axis. *)
Lemma minimum_resize_fits (c r tc tr : Z) :
  0 < c -> 0 < r -> 0 < tc -> 0 < tr -> c < tc \/ r < tr ->
  exists rd,
    calcResizeDimensions (F := Q) (mkDimensions c r) (mkDimensions tc tr) MINIMUM true
    = Returned (Some rd) /\
    0 <= columns rd <= tc /\ 0 <= rows rd <= tr /\
    (columns rd = tc \/ rows rd = tr).
Proof.
  intros Hc Hr Htc Htr Hdef.
  pose proof (inject_Z_pos c Hc) as HC. pose proof (inject_Z_pos r Hr) as HR.
  pose proof (inject_Z_pos tc Htc) as HTC. pose proof (inject_Z_pos tr Htr) as HTR.
  unfold calcResizeDimensions. cbn [columns rows].
  replace ((c >=? tc) && (r >=? tr))%bool with false
    by (symmetry; apply andb_false_iff; rewrite !Z.geb_leb, !Z.leb_gt; lia).
  cbn [negb of_int fmul fltb fround Exact].
  rewrite !py_div_nonzero by lra. cbn [obind].
  set (cm := (inject_Z tc / inject_Z c)%Q).
  set (rm := (inject_Z tr / inject_Z r)%Q).
  assert (Hcm : (inject_Z c * cm == inject_Z tc)%Q) by (unfold cm; field; lra).
  assert (Hrm : (inject_Z r * rm == inject_Z tr)%Q) by (unfold rm; field; lra).
  assert (Hcmpos : (0 < cm)%Q) by (unfold cm; apply Qlt_shift_div_l; lra).
  assert (Hrmpos : (0 < rm)%Q) by (unfold rm; apply Qlt_shift_div_l; lra).
  destruct (Qltb cm rm) eqn:Hcmp.
  - apply Qltb_lt in Hcmp.
    eexists. split; [reflexivity|]. cbn [columns rows].
    split; [lia|]. split; [|left; reflexivity]. split.
    + apply Qround_half_even_nonneg. nra.
    + apply Qround_half_even_le. nra.
  - apply Qltb_ge in Hcmp.
    eexists. split; [reflexivity|]. cbn [columns rows].
    split; [|split; [lia | right; reflexivity]]. split.
    + apply Qround_half_even_nonneg. nra.
    + apply Qround_half_even_le. nra.
Qed.



(** *** The window an axis keeps *)

(** Alignments that keep the low end or the middle of an axis. *)
Definition low_or_centre (al : Alignment) : Prop :=
  al = LEFT \/ al = TOP \/ al = CENTER.

(** On such an axis, with a target of at least 3: the crop range is a
    non-empty part of the source, and placed where the planner says it
    lies inside the target. *)
Lemma axis_window (s t : Z) (al : Alignment) :
  0 < s -> 3 <= t -> low_or_centre al ->
  exists p lo hi,
    calcAxisPos (F := Q) s t al = p /\
    calcAxisCrop (F := Q) s t al = (lo, hi) /\
    0 <= lo /\ lo < hi /\ hi <= s /\
    0 <= p /\ p + (hi - lo) <= t /\
    (s <= t -> lo = 0 /\ hi = s) /\
    (t <= s -> p = 0).
Proof.
  intros Hs Ht Hal.
  destruct (Z.le_gt_cases s t) as [Hle|Hgt].
  - exists (calcAxisPos (F := Q) s t al), 0, s.
    pose proof (calcAxisPos_range s t al ltac:(lia) Hle) as Hr.
    rewrite calcAxisCrop_fits by assumption.
    split; [reflexivity|]. split; [reflexivity|].
    split; [lia|]. split; [lia|]. split; [lia|]. split; [lia|]. split; [lia|].
    split; [intros _; split; reflexivity|].
    intros Hts. apply calcAxisPos_covering. exact Hts.
  - exists 0.
    rewrite calcAxisPos_covering by lia.
    destruct Hal as [->|[->| ->]].
    + exists 0, t. rewrite calcAxisCrop_low by (auto; lia). repeat split; lia.
    + exists 0, t. rewrite calcAxisCrop_low by (auto; lia). repeat split; lia.
    + destruct (calcAxisCrop_center_range s t ltac:(lia) Hgt) as (H1 & H2 & H3).
      destruct (calcAxisCrop (F := Q) s t CENTER) as [lo hi]. cbn [fst snd] in *.
      exists lo, hi. repeat split; lia.
Qed.

End PlanFacts.

(* ===================================================================== *)
(** ** Conversions between the sample types                               *)
(* ===================================================================== *)

Module ConvertFacts.
Import Pixel PixelFacts RangeFacts Convert.
Local Open Scope Z_scope.

(** On 16-bit samples the conversion to float is the normalization of the
    bayer phase. *)
Lemma int_to_float_uint16 (x : Z) : int_to_float uint16 x = normalize16 x.
Proof. reflexivity. Qed.

Lemma int_to_int_up (x : Z) : 0 <= x <= 255 -> int_to_int uint8 uint16 x = x * 256.
Proof.
  intros Hx. unfold int_to_int, int_astype. cbn [itemsize Z.leb Z.compare].
  change ((2 - 1) * 8) with 8. change (2 ^ (2 * 8)) with 65536.
  rewrite Z.shiftl_mul_pow2 by lia. change (2 ^ 8) with 256.
  rewrite (Z.mod_small x) by lia. apply Z.mod_small. lia.
Qed.

Lemma int_to_int_down (x : Z) : 0 <= x <= 65535 -> int_to_int uint16 uint8 x = x / 256.
Proof.
  intros Hx. unfold int_to_int, int_astype. cbn [itemsize Z.leb Z.compare].
  change ((2 - 1) * 8) with 8. change (2 ^ (1 * 8)) with 256.
  rewrite Z.shiftr_div_pow2 by lia. change (2 ^ 8) with 256.
  apply Z.mod_small. split; [apply Z.div_pos; lia|].
  apply Z.div_lt_upper_bound; lia.
Qed.

Lemma map_ext_Forall {A B} (f g : A -> B) (P : A -> Prop) (l : list A) :
  (forall x, P x -> f x = g x) -> Forall P l -> map f l = map g l.
Proof.
  intros Hfg Hl. induction Hl as [|x l Hx Hl IH]; [reflexivity|].
  cbn [map]. rewrite (Hfg x Hx), IH. reflexivity.
Qed.

(** X17. Changing the bit depth of integer samples: 8-bit samples become
    [x * 256] in 16 bits (so 255 becomes 65280, not 65535), 16-bit
    samples become [x / 256] in 8 bits, and an 8-bit image taken to 16
    bits and back is unchanged. *)
Theorem bit_depth_round_trip (a : list Z) (b : list Z) :
  Forall (fun x => 0 <= x <= 255) a ->
  Forall (fun x => 0 <= x <= 65535) b ->
  convertImageNumpyTypeIfNecessary (U8 a) uint16 = (uint8, U16 (map (fun x => x * 256) a)) /\
  convertImageNumpyTypeIfNecessary (U16 b) uint8 = (uint16, U8 (map (fun x => x / 256) b)) /\
  convertImageNumpyTypeIfNecessary
    (snd (convertImageNumpyTypeIfNecessary (U8 a) uint16)) uint8
  = (uint16, U8 a).
Proof.
  intros Ha Hb.
  assert (Hup : convertImageNumpyTypeIfNecessary (U8 a) uint16
                = (uint8, U16 (map (fun x => x * 256) a))).
  { unfold convertImageNumpyTypeIfNecessary. cbn [dtype DType_eqb of_ints].
    do 2 f_equal. apply (map_ext_Forall _ _ _ a int_to_int_up Ha). }
  split; [exact Hup|]. split.
  - unfold convertImageNumpyTypeIfNecessary. cbn [dtype DType_eqb of_ints].
    do 2 f_equal. apply (map_ext_Forall _ _ _ b int_to_int_down Hb).
  - rewrite Hup. cbn [snd].
    unfold convertImageNumpyTypeIfNecessary. cbn [dtype DType_eqb of_ints].
    do 2 f_equal. rewrite map_map.
    rewrite <- (map_id a) at 2.
    apply (map_ext_Forall _ _ (fun x => 0 <= x <= 255) a); [|exact Ha].
    intros x Hx. rewrite int_to_int_down by lia. apply Z.div_mul. lia.
Qed.

Lemma bit_depth_round_trip_witness :
  convertImageNumpyTypeIfNecessary (U8 [0; 128; 255]) uint16
  = (uint8, U16 (map (fun x => x * 256) [0; 128; 255])) /\
  convertImageNumpyTypeIfNecessary (U16 [65535; 256; 255]) uint8
  = (uint16, U8 (map (fun x => x / 256) [65535; 256; 255])) /\
  convertImageNumpyTypeIfNecessary
    (snd (convertImageNumpyTypeIfNecessary (U8 [0; 128; 255]) uint16)) uint8
  = (uint16, U8 [0; 128; 255]).
Proof.
  apply (bit_depth_round_trip [0; 128; 255] [65535; 256; 255]).
  - repeat constructor; lia.
  - repeat constructor; lia.
Defined.

(** The 256 samples of 8-bit origin come back from the float form. *)
Definition back_from_float (x : Z) : bool :=
  float_to_int uint16 (int_to_float uint16 (x * 256)) =? x * 256.

Lemma all_back_from_float : all_below 8 0 back_from_float = true.
Proof. vm_compute. reflexivity. Qed.

Lemma float_round_trip_8bit (x : Z) :
  0 <= x <= 255 -> float_to_int uint16 (int_to_float uint16 (x * 256)) = x * 256.
Proof.
  intros Hx. apply Z.eqb_eq.
  apply (all_below_spec back_from_float 8 0 x all_back_from_float). cbn. lia.
Qed.

(** X18. An 8-bit image through the three conversions of the source
    phase, with no resize and no HSL change between them: it becomes
    [x * 256] in 16 bits, then floats of the unit interval, and comes
    back from them to the same 16-bit samples exactly; each stage
    reports that it changed the dtype, and an image that is 16-bit
    already is returned as it is. *)
Theorem source_conversions_exact_on_8bit (a : list Z) :
  Forall (fun x => 0 <= x <= 255) a ->
  let a16 := map (fun x => x * 256) a in
  src_Convert_8BitTo16Bit (U8 a) = Some (true, U16 a16) /\
  src_Convert_8BitTo16Bit (U16 a16) = Some (false, U16 a16) /\
  src_Convert16BitToNormalizedFloat (U16 a16) = (true, F32 (map normalize16 a16)) /\
  Forall (fun v => nonneg_finite v = true /\ (SF2Q v <= 1)%Q) (map normalize16 a16) /\
  src_ConvertNormalizedFloatTo16Bit (F32 (map normalize16 a16)) = (true, U16 a16).
Proof.
  intros Ha a16.
  assert (H16 : Forall (fun x => 0 <= x <= 65535) a16).
  { unfold a16. apply Forall_map. eapply Forall_impl; [|exact Ha].
    cbn beta. intros x Hx. lia. }
  split; [|split; [|split; [|split]]].
  - unfold src_Convert_8BitTo16Bit, convertImageNumpyTypeIfNecessary.
    cbn [dtype DType_eqb of_ints negb]. do 3 f_equal.
    apply (map_ext_Forall _ _ _ a int_to_int_up Ha).
  - reflexivity.
  - reflexivity.
  - apply Forall_map. eapply Forall_impl; [|exact H16].
    cbn beta. intros x Hx. exact (normalize16_unit x Hx).
  - unfold src_ConvertNormalizedFloatTo16Bit, convertImageNumpyTypeIfNecessary.
    cbn [dtype DType_eqb of_ints negb]. do 2 f_equal.
    unfold a16. rewrite !map_map. rewrite <- (map_id (map _ a)), map_map.
    apply (map_ext_Forall _ _ (fun x => 0 <= x <= 255) a); [|exact Ha].
    intros x Hx. cbn beta. rewrite <- int_to_float_uint16.
    apply float_round_trip_8bit. exact Hx.
Qed.

Lemma source_conversions_exact_on_8bit_witness :
  let a16 := map (fun x => x * 256) [0; 128; 255] in
  src_Convert_8BitTo16Bit (U8 [0; 128; 255]) = Some (true, U16 a16) /\
  src_Convert_8BitTo16Bit (U16 a16) = Some (false, U16 a16) /\
  src_Convert16BitToNormalizedFloat (U16 a16) = (true, F32 (map normalize16 a16)) /\
  Forall (fun v => nonneg_finite v = true /\ (SF2Q v <= 1)%Q) (map normalize16 a16) /\
  src_ConvertNormalizedFloatTo16Bit (F32 (map normalize16 a16)) = (true, U16 a16).
Proof.
  apply (source_conversions_exact_on_8bit [0; 128; 255]).
  repeat constructor; lia.
Defined.

End ConvertFacts.

(* ===================================================================== *)
(** ** The resize to the raw dimensions                                   *)
(* ===================================================================== *)

Module ResizeFacts.
Import PyFloat Np NpFacts Pixel PixelFacts Geometry GeometryFacts PlanFacts RunFacts Resize.
Local Open Scope Z_scope.

(** The lengths of the rows of an image. *)
Definition row_lengths (image : Image16) : list nat :=
  match image with
  | Gray a => map (@length Z) a
  | Color a => map (@length (list Z)) a
  end.

(** The image is a rectangle of [c] columns and [r] rows. *)
Definition has_dims (image : Image16) (c r : Z) : Prop :=
  image_rows image = r /\ Forall (fun n => Z.of_nat n = c) (row_lengths image).

Lemma has_dims_shape (image : Image16) (c r : Z) :
  has_dims image c r -> 0 < r -> image_columns image = c /\ image_rows image = r.
Proof.
  intros [Hrows Hall] Hr. split; [|exact Hrows].
  destruct image as [a|a]; cbn [image_rows image_columns row_lengths] in *;
    (destruct a as [|row rest]; [cbn in Hrows; lia|]);
    cbn [map] in Hall; inversion Hall; subst; reflexivity.
Qed.

Lemma row_lengths_getitem2 {A} (d : A) (a : list (list A)) (ys xs : axis_slice) :
  Forall (fun n => n = count xs) (map (@length A) (getitem2 d a ys xs)).
Proof.
  unfold getitem2. rewrite map_map. apply Forall_map. apply Forall_forall.
  intros i _. now rewrite length_map, length_seq.
Qed.

(** A crop inside the image has the dimensions of its rectangle. *)
Lemma has_dims_crop (image : Image16) (c r x0 y0 x1 y1 : Z) :
  has_dims image c r -> 0 < r ->
  0 <= x0 -> x0 <= x1 -> x1 <= c -> 0 <= y0 -> y0 <= y1 -> y1 <= r ->
  has_dims (crop image (mkRect x0 y0 x1 y1)) (x1 - x0) (y1 - y0).
Proof.
  intros Hd Hr Hx0 Hx Hx1 Hy0 Hy Hy1.
  destruct (has_dims_shape image c r Hd Hr) as [Hcols Hrows].
  destruct image as [a|a]; cbn [image_rows image_columns] in Hcols, Hrows;
    unfold has_dims, crop; cbn [image_rows row_lengths startx starty endx endy];
    (split;
     [ unfold shape0 in *; rewrite length_getitem2, count_py_slice_unit by lia; lia
     | eapply Forall_impl; [|apply row_lengths_getitem2];
       cbn beta; intros n ->; rewrite count_py_slice_unit by lia; lia ]).
Qed.

(** What the planner returns once the resize is known. *)
Lemma plan_unfold (src tgt : Dimensions) (g : ResizeGeom) (asp : bool) (h v : Alignment)
      (ord : option Dimensions) :
  Dimensions_eqb src tgt = false ->
  calcResizeDimensions (F := Q) src tgt g asp = Returned ord ->
  let nd := match ord with Some d => d | None => src end in
  calcSrcGeomAdjustments (F := Q) src tgt g asp h v
  = Returned
      (Some (mkSrcGeomAdjustments ord
               (mkCoordinate (calcAxisPos (F := Q) (columns nd) (columns tgt) h)
                             (calcAxisPos (F := Q) (rows nd) (rows tgt) v))
               (if (columns nd <=? columns tgt) && (rows nd <=? rows tgt) then None
                else Some (mkRect (fst (calcAxisCrop (F := Q) (columns nd) (columns tgt) h))
                                  (fst (calcAxisCrop (F := Q) (rows nd) (rows tgt) v))
                                  (snd (calcAxisCrop (F := Q) (columns nd) (columns tgt) h))
                                  (snd (calcAxisCrop (F := Q) (rows nd) (rows tgt) v)))))).
Proof.
  intros Hne Hord nd. unfold calcSrcGeomAdjustments. rewrite Hne, Hord. cbn [obind].
  fold nd.
  destruct ((columns nd <=? columns tgt) && (rows nd <=? rows tgt)); [reflexivity|].
  destruct (calcAxisCrop (F := Q) (columns nd) (columns tgt) h),
           (calcAxisCrop (F := Q) (rows nd) (rows tgt) v). reflexivity.
Qed.

(** Outside MINIMUM with the aspect ratio kept, a planned resize has
    positive dimensions. *)
Lemma resize_plan (c r tc tr : Z) (g : ResizeGeom) (asp : bool) :
  0 < c -> 0 < r -> 0 < tc -> 0 < tr -> (g = MINIMUM -> asp = false) ->
  exists ord,
    calcResizeDimensions (F := Q) (mkDimensions c r) (mkDimensions tc tr) g asp
    = Returned ord /\
    match ord with
    | Some d => 0 < columns d /\ 0 < rows d
    | None => True
    end.
Proof.
  intros Hc Hr Htc Htr Hmode.
  assert (Hcase : (tc <= c /\ tr <= r) \/ (c < tc \/ r < tr)) by lia.
  destruct Hcase as [[H1 H2]|Hsmall].
  - exists None. split; [|exact I].
    unfold calcResizeDimensions. cbn [columns rows].
    replace ((c >=? tc) && (r >=? tr))%bool with true
      by (symmetry; apply andb_true_iff; rewrite !Z.geb_leb, !Z.leb_le; lia).
    reflexivity.
  - destruct g.
    + exists None. split; [|exact I].
      unfold calcResizeDimensions. destruct (_ && _)%bool; reflexivity.
    + rewrite (Hmode eq_refl).
      unfold calcResizeDimensions. cbn [columns rows negb].
      replace ((c >=? tc) && (r >=? tr))%bool with false
        by (symmetry; apply andb_false_iff; rewrite !Z.geb_leb, !Z.leb_gt; lia).
      destruct (c <? tc); eexists; (split; [reflexivity|]); cbn [columns rows]; lia.
    + destruct (full_resize_covers c r tc tr asp Hc Hr Htc Htr Hsmall)
        as (rd & Hrd & Hcols & Hrows & _).
      exists (Some rd). split; [exact Hrd | lia].
Qed.

Section WithCv2.
Variable cv2_resize : Image16 -> Z -> Z -> Image16.
Variable copyMakeBorder : Image16 -> Z -> Z -> Z -> Z -> Z * Z * Z -> Image16.

(** What the two OpenCV functions do to the dimensions. *)
Definition resizes_to_request : Prop :=
  forall image c r, 0 < c -> 0 < r -> has_dims (cv2_resize image c r) c r.
Definition border_adds : Prop :=
  forall image c r top bottom left right value,
    has_dims image c r -> 0 < c -> 0 < r ->
    0 <= top -> 0 <= bottom -> 0 <= left -> 0 <= right ->
    has_dims (copyMakeBorder image top bottom left right value)
             (c + left + right) (r + top + bottom).


End WithCv2.

Section HighAlignment.
Context {F : Type} `{PyFloat.Arith F}.
Variable cv2_resize : Image16 -> Z -> Z -> Image16.
Variable copyMakeBorder : Image16 -> Z -> Z -> Z -> Z -> Z * Z * Z -> Image16.

(** X20. An image as high as the raw frame and wider than it, by less
    than the width of the frame, with the horizontal alignment RIGHT (or
    BOTTOM, which the planner treats alike): nothing is resized, whatever
    the geometry; only the columns [src - tgt, tgt) of the source are
    kept, which are [2 * tgt - src] columns, and [copyMakeBorder] is
    asked for [src - tgt] border columns on the right of them and for no
    other border. So the surplus is taken off on both sides and filled
    up with border, instead of being taken off on the left. *)
Theorem src_Resize_high_alignment_crop (exif : Exif) (args : Args)
        (re_borderfillcolor : Z) (image : Image16) (c tc tr : Z) :
  rawDimensions exif = mkDimensions tc tr ->
  has_dims image c tr -> 0 < tr -> tc < c -> c < 2 * tc ->
  re_horzalign args = RIGHT \/ re_horzalign args = BOTTOM ->
  let kept := crop image (mkRect (c - tc) 0 tc tr) in
  let out := copyMakeBorder kept 0 0 0 (c - tc) (border_value re_borderfillcolor) in
  let finalSrcDimensions := mkDimensions (image_columns out) (image_rows out) in
  has_dims kept (2 * tc - c) tr /\
  src_Resize cv2_resize copyMakeBorder exif args re_borderfillcolor image
  = if Dimensions_eqb finalSrcDimensions (mkDimensions tc tr)
    then Returned (Fitted true out)
    else Returned (InternalError finalSrcDimensions).
Proof.
  intros Hraw Hdims Htr Hwide Hless Hal kept out finalSrcDimensions.
  assert (Hkept : has_dims kept (2 * tc - c) tr).
  { unfold kept.
    replace (2 * tc - c) with (tc - (c - tc)) by lia.
    replace tr with (tr - 0) at 2 by lia.
    apply (has_dims_crop image c tr); try assumption; lia. }
  split; [exact Hkept|].
  destruct (has_dims_shape image c tr Hdims Htr) as [Hcols Hrows].
  destruct (has_dims_shape kept _ _ Hkept Htr) as [Hkc Hkr].
  unfold src_Resize, resizeImgToRawDimensions. rewrite Hcols, Hrows, Hraw.
  unfold calcSrcGeomAdjustments, calcResizeDimensions. cbn [columns rows].
  assert (Hne : Dimensions_eqb (mkDimensions c tr) (mkDimensions tc tr) = false).
  { unfold Dimensions_eqb. cbn [columns rows]. apply andb_false_iff. left.
    apply Z.eqb_neq. lia. }
  assert (Hge : ((c >=? tc) && (tr >=? tr))%bool = true).
  { apply andb_true_iff. rewrite !Z.geb_leb, !Z.leb_le. lia. }
  assert (Hfit : ((c <=? tc) && (tr <=? tr))%bool = false).
  { apply andb_false_iff. left. apply Z.leb_gt. lia. }
  assert (Hx : calcAxisCrop c tc (re_horzalign args) = (c - tc, tc)).
  { unfold calcAxisCrop. destruct (Z.leb_spec c tc); [lia|].
    destruct Hal as [-> | ->]; reflexivity. }
  rewrite Hne, Hge. cbn [obind columns rows]. rewrite Hfit, Hx.
  rewrite (calcAxisCrop_fits tr tr (re_vertalign args)) by lia.
  rewrite !calcAxisPos_covering by lia.
  cbn [resizeDimensions cropRect posInTgt pos_x pos_y].
  fold kept. rewrite Hkc, Hkr.
  assert (Hcond : ((0 >? 0) || (0 >? 0)
                   || negb (Dimensions_eqb (mkDimensions (2 * tc - c) tr)
                                           (mkDimensions tc tr)))%bool = true).
  { unfold Dimensions_eqb. cbn [columns rows orb].
    apply negb_true_iff. apply andb_false_iff. left. apply Z.eqb_neq. lia. }
  rewrite Hcond. cbn [columns rows].
  replace (tr - (tr + 0)) with 0 by lia.
  replace (tc - (2 * tc - c + 0)) with (c - tc) by lia.
  reflexivity.
Qed.

End HighAlignment.

(** *** Stand-ins for the two OpenCV functions *)

(** An image of the given size, all black. *)
Definition blank (c r : Z) : Image16 := Gray (full r c 0).

Definition blank_resize (_ : Image16) (c r : Z) : Image16 := blank c r.
Definition blank_border (image : Image16) (top bottom left right : Z) (_ : Z * Z * Z)
  : Image16 :=
  blank (image_columns image + left + right) (image_rows image + top + bottom).

Lemma has_dims_blank (c r : Z) : 0 <= c -> 0 <= r -> has_dims (blank c r) c r.
Proof.
  intros Hc Hr. unfold has_dims, blank, full. cbn [image_rows row_lengths].
  split.
  - unfold shape0. rewrite repeat_length. lia.
  - apply Forall_map. apply Forall_forall. intros row Hin.
    apply repeat_spec in Hin. subst row. rewrite repeat_length. lia.
Qed.

Lemma blank_resize_ok : resizes_to_request blank_resize.
Proof. intros image c r Hc Hr. apply has_dims_blank; lia. Qed.

Lemma blank_border_ok : border_adds blank_border.
Proof.
  intros image c r top bottom left right value Hd Hc Hr Ht Hb Hl Hrt.
  destruct (has_dims_shape image c r Hd Hr) as [Hcols Hrows].
  unfold blank_border. rewrite Hcols, Hrows. apply has_dims_blank; lia.
Qed.


(** A 1x3 image into a 1x2 frame, aligned RIGHT: the column in the
    middle is all that is kept. *)
Definition args_right : Args :=
  mkArgs NONE false RIGHT CENTER false None false.

Lemma src_Resize_high_alignment_crop_witness :
  let kept := crop (Gray [[10; 20; 30]]) (mkRect (3 - 2) 0 2 1) in
  let out := blank_border kept 0 0 0 (3 - 2) (border_value 0) in
  let finalSrcDimensions := mkDimensions (image_columns out) (image_rows out) in
  has_dims kept (2 * 2 - 3) 1 /\
  src_Resize (F := spec_float) blank_resize blank_border (DriverFacts.exif_npy 2 1)
             args_right 0 (Gray [[10; 20; 30]])
  = if Dimensions_eqb finalSrcDimensions (mkDimensions 2 1)
    then Returned (Fitted true out)
    else Returned (InternalError finalSrcDimensions).
Proof.
  apply (src_Resize_high_alignment_crop (F := spec_float) blank_resize blank_border
           (DriverFacts.exif_npy 2 1) args_right 0 (Gray [[10; 20; 30]]) 3 2 1).
  - reflexivity.
  - split; [reflexivity|]. repeat constructor.
  - lia.
  - lia.
  - lia.
  - left. reflexivity.
Defined.

Example right_aligned_keeps_the_middle :
  crop (Gray [[10; 20; 30]]) (mkRect (3 - 2) 0 2 1) = Gray [[20]] /\
  src_Resize (F := spec_float) blank_resize blank_border (DriverFacts.exif_npy 2 1)
             args_right 0 (Gray [[10; 20; 30]])
  = Returned (Fitted true (blank 2 1)).
Proof. split; reflexivity. Qed.

End ResizeFacts.

(* ===================================================================== *)
(** ** The name of the output file                                        *)
(* ===================================================================== *)

Module FilenamesFacts.
Import Filenames.
Local Open Scope string_scope.

Section WithOsPath.
Variable os_path_split : string -> string * string.
Variable os_path_splitext : string -> string * string.
Variable os_path_join : string -> string -> string.
Variable os_path_exists : string -> bool.

(** The candidates in the order in which the loop tries them: the name
    itself, then the name with [-1], [-2], ... before the extension. *)
Definition suffix (n : nat) : string :=
  match n with
  | O => ""
  | S _ => "-" ++ str n
  end.

Definition candidate (dir root ext : string) (n : nat) : string :=
  os_path_join dir ((root ++ suffix n) ++ ext).

Lemma uniqueLoop_first_free (dir root ext : string) (n : nat) :
  forall fuel k,
    (forall j, k <= j < k + n -> os_path_exists (candidate dir root ext j) = true) ->
    os_path_exists (candidate dir root ext (k + n)) = false ->
    uniqueLoop os_path_join os_path_exists fuel dir root ext k (suffix k)
    = if (n <? fuel)%nat then Value (candidate dir root ext (k + n)) else Unfinished.
Proof.
  induction n as [|n IH]; intros fuel k Htaken Hfree.
  - rewrite Nat.add_0_r in *. destruct fuel as [|fuel]; [reflexivity|].
    cbn [uniqueLoop]. fold (candidate dir root ext k).
    rewrite Hfree. reflexivity.
  - destruct fuel as [|fuel]; [reflexivity|].
    cbn [uniqueLoop]. fold (candidate dir root ext k).
    rewrite (Htaken k) by lia. cbn [negb].
    replace (k + 1) with (S k) by lia.
    change ("-" ++ str (S k)) with (suffix (S k)).
    rewrite (IH fuel (S k)).
    + replace (S k + n) with (k + S n) by lia.
      change (S n <? S fuel)%nat with (n <? fuel)%nat. reflexivity.
    + intros j Hj. apply Htaken. lia.
    + replace (S k + n) with (k + S n) by lia. exact Hfree.
Qed.

Lemma uniqueLoop_free (dir root ext : string) :
  forall fuel seqNum seqNumStr name,
    uniqueLoop os_path_join os_path_exists fuel dir root ext seqNum seqNumStr = Value name ->
    os_path_exists name = false.
Proof.
  induction fuel as [|fuel IH]; intros seqNum seqNumStr name Hrun; [discriminate|].
  cbn [uniqueLoop] in Hrun.
  destruct (os_path_exists (os_path_join dir ((root ++ seqNumStr) ++ ext))) eqn:Hex;
    cbn [negb] in Hrun.
  - exact (IH _ _ _ Hrun).
  - injection Hrun as <-. exact Hex.
Qed.

Lemma uniqueLoop_no_IndexError (dir root ext : string) :
  forall fuel seqNum seqNumStr,
    uniqueLoop os_path_join os_path_exists fuel dir root ext seqNum seqNumStr
    <> IndexError.
Proof.
  induction fuel as [|fuel IH]; intros seqNum seqNumStr; [discriminate|].
  cbn [uniqueLoop].
  destruct (negb _); [discriminate | apply IH].
Qed.

(** X21. [generateUniqueFilenameFromExistingIfNecessary] returns the
    first name that no file has, of the name with its directory and
    extension put together again and then the same with [-1], [-2], ...
    before the extension: when the first [n] of them exist and the next
    does not, that one is returned, once the loop is given more than [n]
    rounds. *)
Theorem generateUniqueFilename_first_free (fullPath dir root ext : string) (n fuel : nat) :
  splitPathIntoParts os_path_split os_path_splitext fullPath = (dir, root, ext) ->
  (forall k, k < n -> os_path_exists (candidate dir root ext k) = true) ->
  os_path_exists (candidate dir root ext n) = false ->
  generateUniqueFilenameFromExistingIfNecessary
    os_path_split os_path_splitext os_path_join os_path_exists fuel fullPath
  = if (n <? fuel)%nat then Value (candidate dir root ext n) else Unfinished.
Proof.
  intros Hparts Htaken Hfree.
  unfold generateUniqueFilenameFromExistingIfNecessary. rewrite Hparts.
  change "" with (suffix 0).
  apply (uniqueLoop_first_free dir root ext n fuel 0).
  - intros j Hj. apply Htaken. lia.
  - exact Hfree.
Qed.

(** X22. How [generateOutputFilename] ends. It never raises
    [IndexError]. A name that it returns is, unless [--ifexists] is
    OVERWRITE, not the name of an existing file, and nothing is printed
    with it. It returns [None] in two cases only, each with its one error
    message: no output name was given and the method is NONE, or
    [--ifexists] is EXIT and the file exists. Only under ADDSUFFIX can it
    need more rounds than it was given. *)
Theorem generateOutputFilename_cases (args : Args) (fuel : nat) :
  match generateOutputFilename os_path_split os_path_splitext os_path_join
                               os_path_exists args fuel with
  | Value (Some name, log) =>
      log = [] /\ (ifexists args = OVERWRITE \/ os_path_exists name = false)
  | Value (None, log) =>
      (log = [E_NoOutputFilename] /\
       outputfilename args = None /\ outputfilenamemethod args = NONE)
      \/ (exists name, log = [E_OutputFileExists name] /\
                       ifexists args = EXIT /\ os_path_exists name = true)
  | IndexError => False
  | Unfinished => ifexists args = ADDSUFFIX
  end.
Proof.
  unfold generateOutputFilename.
  set (named := match outputfilename args with
                | Some _ => _
                | None => _
                end).
  assert (Hnamed :
            match named with
            | None => outputfilename args = None /\ outputfilenamemethod args = NONE
            | Some (Value _) => True
            | Some _ => False
            end).
  { unfold named, generateFilenameWithDifferentExtensionAndDir.
    destruct (outputfilename args) as [given|].
    - destruct (splitPathIntoParts _ _ given) as [[d r] e]. exact I.
    - destruct (splitPathIntoParts _ _ (templatenef args)) as [[d1 r1] e1].
      destruct (splitPathIntoParts _ _ (inputfilename args)) as [[d2 r2] e2].
      destruct (outputfilenamemethod args); cbn beta iota.
      + destruct (splitPathIntoParts _ _ _) as [[d r] e]. exact I.
      + destruct (splitPathIntoParts _ _ _) as [[d r] e]. exact I.
      + destruct (splitPathIntoParts _ _ _) as [[d r] e]. exact I.
      + split; reflexivity. }
  destruct named as [[outputFilename| |]|]; try contradiction.
  - destruct (ifexists args) eqn:Hif.
    + unfold generateUniqueFilenameFromExistingIfNecessary.
      destruct (splitPathIntoParts _ _ outputFilename) as [[d r] e].
      destruct (uniqueLoop _ _ fuel d r e 0 "") as [name| |] eqn:Hloop.
      * split; [reflexivity|]. right. exact (uniqueLoop_free d r e _ _ _ _ Hloop).
      * exact (uniqueLoop_no_IndexError d r e _ _ _ Hloop).
      * reflexivity.
    + split; [reflexivity|]. left. reflexivity.
    + destruct (os_path_exists outputFilename) eqn:Hex.
      * right. exists outputFilename. repeat split. exact Hex.
      * split; [reflexivity|]. right. exact Hex.
  - left. destruct Hnamed as [H1 H2]. repeat split; assumption.
Qed.

End WithOsPath.

(** *** A directory with two files *)

(** Stand-ins for [os.path]: every name lies in [out], has no extension
    of its own, and two names are taken. *)
Definition flat_split (fullPath : string) : string * string := ("out", fullPath).
Definition flat_splitext (filename : string) : string * string := (filename, ".NEF").
Definition flat_join (dir filename : string) : string := dir ++ "/" ++ filename.
Definition two_taken (name : string) : bool :=
  String.eqb name "out/a.NEF" || String.eqb name "out/a-1.NEF".

Lemma generateUniqueFilename_first_free_witness :
  generateUniqueFilenameFromExistingIfNecessary
    flat_split flat_splitext flat_join two_taken 5 "a"
  = if (2 <? 5)%nat then Value (candidate flat_join "out" "a" ".NEF" 2) else Unfinished.
Proof.
  apply (generateUniqueFilename_first_free flat_split flat_splitext flat_join two_taken
           "a" "out" "a" ".NEF" 2 5).
  - reflexivity.
  - intros k Hk. destruct k as [|[|k]]; [reflexivity | reflexivity | lia].
  - reflexivity.
Defined.

Example third_name_is_free :
  generateUniqueFilenameFromExistingIfNecessary
    flat_split flat_splitext flat_join two_taken 5 "a" = Value "out/a-2.NEF".
Proof. reflexivity. Qed.

End FilenamesFacts.

(* ===================================================================== *)
(** ** The font size of the placeholder preview                           *)
(* ===================================================================== *)

Module PlaceholderFacts.
Import PyFloat Placeholder.
Local Open Scope Z_scope.

(** [floor(n * .95)] for the sizes that the loop can hold: an integer
    from 7 on, below [n]. *)
Definition shrinks (n : Z) : bool :=
  match math_floor (fmul (of_int n) pt95) with
  | Value m => (7 <=? m) && (m <? n)
  | _ => false
  end.

Lemma shrinks_all : forallb shrinks (map Z.of_nat (seq 8 505)) = true.
Proof. vm_compute. reflexivity. Qed.

Lemma shrinks_spec (n : Z) :
  8 <= n <= 512 ->
  exists m, math_floor (fmul (of_int n) pt95) = Value m /\ 7 <= m < n.
Proof.
  intros Hn.
  assert (Hin : In n (map Z.of_nat (seq 8 505))).
  { apply in_map_iff. exists (Z.to_nat n). split; [lia|]. apply in_seq. lia. }
  pose proof (proj1 (forallb_forall _ _) shrinks_all n Hin) as Hs.
  unfold shrinks in Hs.
  destruct (math_floor (fmul (of_int n) pt95)) as [m| |]; try discriminate.
  exists m. split; [reflexivity|].
  apply andb_true_iff in Hs. destruct Hs as [H1 H2].
  apply Z.leb_le in H1. apply Z.ltb_lt in H2. lia.
Qed.

Section WithFont.
Variable textWidth : Z -> Z.

(** How the loop leaves [fontSize] and [defaultFont]: the text fits at
    the size of the font loaded last, which is the final size, or the
    size went below 8 and the text does not fit at the font loaded
    last. *)
Definition search_result (columns : Z) (fontSize : Z) (defaultFont : option Z)
           (start : Z) : Prop :=
  exists font,
    defaultFont = Some font /\ 8 <= font <= start /\ 0 <= fontSize <= font /\
    ((textWidth font < columns /\ fontSize = font)
     \/ (fontSize < 8 /\ columns <= textWidth font)).

Lemma fontSizeLoop_ends (columns : Z) :
  0 < columns ->
  forall fuel fontSize defaultFont,
    0 <= fontSize <= 512 -> (Z.to_nat (fontSize - 7) < fuel)%nat ->
    exists fontSize' defaultFont',
      fontSizeLoop textWidth fuel columns fontSize defaultFont
      = Value (fontSize', defaultFont') /\
      0 <= fontSize' <= fontSize /\
      ((fontSize < 8 /\ fontSize' = fontSize /\ defaultFont' = defaultFont)
       \/ (8 <= fontSize /\ search_result columns fontSize' defaultFont' fontSize)).
Proof.
  intros Hcols.
  induction fuel as [|fuel IH]; intros fontSize defaultFont Hrange Hfuel; [lia|].
  cbn [fontSizeLoop].
  destruct (Z.geb_spec fontSize 8) as [Hbig|Hsmall].
  2:{ exists fontSize, defaultFont. split; [reflexivity|]. split; [lia|]. left.
      repeat split. lia. }
  destruct (Z.ltb_spec (textWidth fontSize) columns) as [Hfits|Hwide].
  { exists fontSize, (Some fontSize). split; [reflexivity|]. split; [lia|]. right.
    split; [lia|]. exists fontSize. split; [reflexivity|].
    split; [lia|]. split; [lia|]. left. split; [exact Hfits | reflexivity]. }
  destruct (Z.eqb_spec columns 0) as [Hz|_]; [lia|].
  assert (Hnext : forall next, 0 <= next < fontSize ->
            exists fontSize' defaultFont',
              fontSizeLoop textWidth fuel columns next (Some fontSize)
              = Value (fontSize', defaultFont') /\
              0 <= fontSize' <= fontSize /\
              ((fontSize < 8 /\ fontSize' = fontSize /\ defaultFont' = defaultFont)
               \/ (8 <= fontSize /\
                   search_result columns fontSize' defaultFont' fontSize))).
  { intros next Hnext.
    destruct (IH next (Some fontSize) ltac:(lia) ltac:(lia))
      as (fs & df & Hrun & Hfs & Hcase).
    exists fs, df. split; [exact Hrun|]. split; [lia|]. right. split; [lia|].
    destruct Hcase as [(Hlow & -> & ->)|(Hhigh & font & Hdf & Hfont & Hfs' & Hend)].
    - exists fontSize. split; [reflexivity|]. split; [lia|]. split; [lia|].
      right. split; [exact Hlow | exact Hwide].
    - exists font. split; [exact Hdf|]. split; [lia|]. split; [exact Hfs'|]. exact Hend. }
  destruct (Z.geb_spec (textWidth fontSize / columns) 2) as [Hmult|Hone].
  - apply Hnext. split.
    + apply Z.div_pos; lia.
    + apply Z.div_lt; lia.
  - destruct (shrinks_spec fontSize ltac:(lia)) as (m & Hm & Hmr).
    rewrite Hm. apply Hnext. lia.
Qed.

(** X23. The search for the font size of the placeholder always ends,
    for an image of at least one column and whatever the widths of the
    text are: after at most 506 tests of the loop condition it has loaded
    a font of a size from 8 to 512, and either the text is narrower than
    the image at that size, which is the final [fontSize], or the size
    went below 8 and the text, which is drawn with the font loaded last,
    is as wide as the image or wider. Nothing is raised: the size shrinks
    in every round, also through [floor(fontSize * .95)] in binary64. *)
Theorem fontSizeSearch_ends (fuel : nat) (embeddedJpgDimensions : Dimensions) :
  0 < columns embeddedJpgDimensions -> (506 <= fuel)%nat ->
  exists fontSize defaultFont,
    fontSizeSearch textWidth fuel embeddedJpgDimensions = Value (fontSize, defaultFont) /\
    search_result (columns embeddedJpgDimensions) fontSize defaultFont 512.
Proof.
  intros Hcols Hfuel. unfold fontSizeSearch.
  destruct (fontSizeLoop_ends (columns embeddedJpgDimensions) Hcols fuel 512 None
                              ltac:(lia) ltac:(lia))
    as (fs & df & Hrun & _ & Hcase).
  exists fs, df. split; [exact Hrun|].
  destruct Hcase as [(Hlow & _)|(_ & Hres)]; [lia | exact Hres].
Qed.

End WithFont.

(** *** A line of text twenty times as wide as the font size *)

Definition twenty_wide (fontSize : Z) : Z := 20 * fontSize.

Lemma fontSizeSearch_ends_witness :
  exists fontSize defaultFont,
    fontSizeSearch twenty_wide 600 (mkDimensions 640 424) = Value (fontSize, defaultFont) /\
    search_result twenty_wide (columns (mkDimensions 640 424)) fontSize defaultFont 512.
Proof.
  apply (fontSizeSearch_ends twenty_wide 600 (mkDimensions 640 424)).
  - cbn. lia.
  - lia.
Defined.

(** 512 is divided by 16, 32 is as wide as the image, and 30 fits;
    in binary64 [20 * .95] is [19.0], where the product of 20 and the
    value of the literal is below 19. *)
Example fontSizeSearch_twenty_wide :
  fontSizeSearch twenty_wide 600 (mkDimensions 640 424) = Value (30, Some 30) /\
  math_floor (fmul (of_int 20) pt95) = Value 19.
Proof. split; vm_compute; reflexivity. Qed.

End PlaceholderFacts.
